(** * 2D heat equation, MPI + parallel algorithms: a shallow embedding

    Source: labs/topic1_heat/solutions/exercise2_nomanaged.cpp.

    - [long] and [int] values are integers of [Z]; every arithmetic
      operation of the source is written with its two's complement
      wrap-around ([ladd], [lsub], [lmul], ...).  Signed overflow is
      undefined in C++, so the theorems below carry the range facts that
      keep every operation exact.
    - [double] is IEEE 754 binary64, i.e. the primitive [float].
    - [assert] follows <cassert>: the check disappears when the macro
      NDEBUG is defined.  The flag is the first argument of every function
      that can reach an assertion.
    - Of the conditionally compiled parts the host ones are modelled
      ([std::vector], [views::iota]); the Thrust ones allocate the same
      value-initialised buffers and enumerate the same indices.
    - The two [double*] arguments always designate the two distinct vectors
      allocated in [main]; the process state holds their contents.
    - Each process is modelled on its own: what it receives from the other
      ranks is read from [inbox], and what it does (messages, kernel
      invocations, output) is appended to [trace]. *)

From Stdlib Require Import ZArith Lia Bool List String Ascii Floats Uint63.
From stdpp Require Import base list list_numbers.
Import ListNotations.
Local Open Scope Z_scope.

(** ** Machine integers *)

Definition LONG_MIN : Z := - 2 ^ 63.
Definition LONG_MAX : Z := 2 ^ 63 - 1.

Definition wrap64 (z : Z) : Z := (z + 2 ^ 63) mod 2 ^ 64 - 2 ^ 63.
Definition wrap32 (z : Z) : Z := (z + 2 ^ 31) mod 2 ^ 32 - 2 ^ 31.
(** [size_t] and [unsigned long]. *)
Definition uwrap64 (z : Z) : Z := z mod 2 ^ 64.

Definition is_long (z : Z) : Prop := LONG_MIN <= z <= LONG_MAX.

Definition ladd (a b : Z) : Z := wrap64 (a + b).
Definition lsub (a b : Z) : Z := wrap64 (a - b).
Definition lmul (a b : Z) : Z := wrap64 (a * b).
(** [/] and [%] of C++ truncate towards zero. *)
Definition ldiv (a b : Z) : Z := wrap64 (Z.quot a b).
Definition lrem (a b : Z) : Z := Z.rem a b.
Definition iadd (a b : Z) : Z := wrap32 (a + b).
Definition isub (a b : Z) : Z := wrap32 (a - b).

(** ** Floating point *)

Abbreviation double := float.

(** Conversion [long -> double] (round to nearest even). *)
Definition of_long (z : Z) : double :=
  if z =? LONG_MIN then (- Z.ldexp 1 63)%float
  else if z <? 0 then (- of_uint63 (Uint63.of_Z (- z)))%float
  else of_uint63 (Uint63.of_Z z).

(** ** Problem parameters *)

Record parameters : Type := mk_parameters {
  dx : double;
  dt : double;
  nx : Z;
  ny : Z;
  ni : Z;
  rank : Z;
  nranks : Z
}.

Definition alpha : double := 1%float.
Definition nit (p : parameters) : Z := ni p.
Definition nout (p : parameters) : Z := 1000.
Definition nx_global (p : parameters) : Z := lmul (nx p) (nranks p).
Definition ny_global (p : parameters) : Z := ny p.
Definition gamma (p : parameters) : double :=
  (alpha * dt p / (dx p * dx p))%float.

(** ** Outcomes, process state and the state-and-fault monad *)

Inductive exception : Type :=
| InvalidArgument   (* std::invalid_argument, from std::stoll *)
| OutOfRange        (* std::out_of_range, from std::stoll *)
| LengthError.      (* std::length_error / std::bad_alloc, from std::vector *)

Inductive fault : Type :=
| AssertionFailed            (* assert(...) failed: abort() *)
| OutOfBounds                (* access outside the buffer: undefined *)
| RangeViolation             (* iota(0, n) with n < 0: undefined *)
| Blocked                    (* blocking receive with no message: hangs *)
| MpiError                   (* MPI error; errors are fatal *)
| Terminated                 (* std::terminate() called by the program *)
| Uncaught (e : exception).  (* an exception nobody catches: the runtime
                                calls std::terminate() *)

Inductive outcome (A : Type) : Type :=
| Done (a : A)
| Fault (f : fault).
Arguments Done {A} a.
Arguments Fault {A} f.

Abbreviation buf := (list float).

Inductive payload : Type :=
| Longs (l : list Z)
| Doubles (l : list double).

(** What a process does that others can observe, and, for the statements
    about order, each entry into the stencil kernel. *)
Inductive event : Type :=
| EvCerr (line : string)                       (* a line on std::cerr *)
| EvSend (dest tag : Z) (data : list double)   (* MPI_Send *)
| EvRecv (src tag : Z) (data : list double)    (* MPI_Recv *)
| EvKernel (x y : Z)                           (* stencil(u_new, u_old, x, y, p) entered *)
| EvReduce (local : double)                    (* MPI_Reduce, with the local energy *)
| EvPrint (t e : double)                       (* the line E(t=...) = ... *)
| EvSwap                                       (* std::swap(u_new, u_old) *)
| EvThroughput                                 (* the line Domain ...: its numbers depend on the clock *)
| EvFileOpen
| EvFileSetSize (bytes : Z)
| EvFileWriteAt (offset : Z) (data : payload)
| EvFileClose.

Record proc : Type := mk_proc {
  u_new : buf;
  u_old : buf;
  inbox : list (list double);
  trace : list event
}.

Definition M (A : Type) : Type := proc -> outcome A * proc.

Definition ret {A} (a : A) : M A := fun s => (Done a, s).
Definition raise {A} (f : fault) : M A := fun s => (Fault f, s).
Definition bind {A B} (m : M A) (k : A -> M B) : M B :=
  fun s => match m s with
           | (Done a, s') => k a s'
           | (Fault f, s') => (Fault f, s')
           end.
Definition lift {A} (o : outcome A) : M A := fun s => (o, s).

Notation "'let*' x ':=' m 'in' k" := (bind m (fun x => k))
  (at level 10, x pattern, m at level 100, k at level 200).

Definition when (c : bool) (m : M unit) : M unit := if c then m else ret tt.

Definition log (e : event) : M unit :=
  fun s => (Done tt, mk_proc (u_new s) (u_old s) (inbox s) (trace s ++ [e])).

(** Checked access to a buffer through a pointer and an offset. *)
Definition peek (u : buf) (off : Z) : outcome double :=
  if off <? 0 then Fault OutOfBounds
  else match u !! Z.to_nat off with
       | Some v => Done v
       | None => Fault OutOfBounds
       end.

Definition poke (u : buf) (off : Z) (v : double) : outcome buf :=
  if (0 <=? off) && (off <? Z.of_nat (length u))
  then Done (<[Z.to_nat off := v]> u)
  else Fault OutOfBounds.

Definition load_old (off : Z) : M double := fun s => (peek (u_old s) off, s).
Definition load_new (off : Z) : M double := fun s => (peek (u_new s) off, s).
Definition store_old (off : Z) (v : double) : M unit :=
  fun s => match poke (u_old s) off v with
           | Done u => (Done tt, mk_proc (u_new s) u (inbox s) (trace s))
           | Fault f => (Fault f, s)
           end.
Definition store_new (off : Z) (v : double) : M unit :=
  fun s => match poke (u_new s) off v with
           | Done u => (Done tt, mk_proc u (u_old s) (inbox s) (trace s))
           | Fault f => (Fault f, s)
           end.

(** ** Grid addressing and the stencil kernel *)

Section Build.

(** Whether the translation unit is compiled with NDEBUG defined. *)
Variable NDEBUG : bool.

(** [assert(c)] passes when it is compiled out or when [c] holds. *)
Definition assert_passes (c : bool) : bool := NDEBUG || c.

(** Index into the memory using row-major order. *)
Definition index (x y : Z) (p : parameters) : outcome Z :=
  if negb (assert_passes ((x >=? 0) && (x <? nx p))) then Fault AssertionFailed
  else if negb (assert_passes ((y >=? 0) && (y <? ny p))) then Fault AssertionFailed
  else Done (ladd (lmul x (ny p)) y).

(** The lambda [idx] of the kernel. *)
Definition idx (p : parameters) (x y : Z) : M Z := lift (index x y p).

(** Finite-difference stencil at one cell. *)
Definition stencil (x y : Z) (p : parameters) : M double :=
  let* _ := log (EvKernel x y) in
  (* Apply boundary conditions: *)
  let* _ := when (y =? 1)
              (let* i := idx p x (lsub y 1) in store_old i 0%float) in
  let* _ := when (y =? lsub (ny p) 2)
              (let* i := idx p x (ladd y 1) in store_old i 0%float) in
  let* _ := when ((rank p =? 0) && (x =? 1))
              (let* i := idx p (lsub x 1) y in store_old i 1%float) in
  let* _ := when ((rank p =? isub (nranks p) 1) && (x =? nx p))
              (let* i := idx p (ladd x 1) y in store_old i 0%float) in
  let* ic := idx p x y in
  let* c := load_old ic in
  let* ie := idx p (ladd x 1) y in
  let* e := load_old ie in
  let* iw := idx p (lsub x 1) y in
  let* w := load_old iw in
  let* iu := idx p x (ladd y 1) in
  let* u := load_old iu in
  let* id := idx p x (lsub y 1) in
  let* d := load_old id in
  let* it := idx p x y in
  let* _ := store_new it
              ((1 - 4 * gamma p) * c + gamma p * (e + w + u + d))%float in
  let* i1 := idx p x y in
  let* a := load_new i1 in
  let* i2 := idx p x y in
  let* b := load_new i2 in
  ret (0.5 * a * b * dx p * dx p)%float.

End Build.

(** ** Region evaluation *)

(** 2D grid of indices. *)
Record grid : Type := mk_grid {
  x_start : Z;
  x_end : Z;
  y_start : Z;
  y_end : Z
}.

(** The lambda [split], with its captures [x_start], [y_start] and [dy]:
    recover the 2D iteration space from the 1D one. *)
Definition split (x_start y_start dy : Z) (i : Z) : Z * Z :=
  (ladd (ldiv i dy) x_start, ladd (lrem i dy) y_start).

(** [std::transform_reduce(par, b, e, 0., plus, f)] over the indices [ixs].
    The standard leaves the order of the applications and of the sums open;
    the model runs them in index order. *)
Fixpoint transform_reduce (ixs : list Z) (acc : double) (f : Z -> M double)
  : M double :=
  match ixs with
  | [] => ret acc
  | i :: rest =>
      let* e := f i in
      transform_reduce rest (acc + e)%float f
  end.

Section Driver.

Variable NDEBUG : bool.

(** [stencil(u_new, u_old, grid g, parameters p)]. *)
Definition stencil_grid (g : grid) (p : parameters) : M double :=
  let dx := lsub (x_end g) (x_start g) in
  let dy := lsub (y_end g) (y_start g) in
  let n := lmul dx dy in
  if n <? 0 then raise RangeViolation
  else
    transform_reduce (seqZ 0 n) 0%float
      (fun i => match split (x_start g) (y_start g) dy i with
                | (x, y) => stencil NDEBUG x y p
                end).

Definition internal (p : parameters) : M double :=
  stencil_grid (mk_grid 2 (nx p) 1 (lsub (ny p) 1)) p.

(** ** Point-to-point messages *)

(** [MPI_Send(u_old + off, count, MPI_DOUBLE, dest, tag, ...)]. *)
Definition mpi_send_old (off count dest tag : Z) : M unit :=
  fun s =>
    if count <? 0 then (Fault MpiError, s)
    else if (0 <=? off) && (off + count <=? Z.of_nat (length (u_old s)))
    then (Done tt,
          mk_proc (u_new s) (u_old s) (inbox s)
            (trace s ++
             [EvSend dest tag (take (Z.to_nat count) (drop (Z.to_nat off) (u_old s)))]))
    else (Fault OutOfBounds, s).

(** [MPI_Recv(u_old + off, count, MPI_DOUBLE, src, tag, ...)]: the next
    message of [inbox] is copied into the buffer. *)
Definition mpi_recv_old (off count src tag : Z) : M unit :=
  fun s =>
    if count <? 0 then (Fault MpiError, s)
    else match inbox s with
         | [] => (Fault Blocked, s)
         | row :: rest =>
             if count <? Z.of_nat (length row) then (Fault MpiError, s)
             else if (0 <=? off) &&
                     (off + Z.of_nat (length row) <=? Z.of_nat (length (u_old s)))
             then (Done tt,
                   mk_proc (u_new s)
                     (take (Z.to_nat off) (u_old s) ++ row ++
                      drop (Z.to_nat off + length row) (u_old s))
                     rest
                     (trace s ++ [EvRecv src tag row]))
             else (Fault OutOfBounds, s)
         end.

(** The [int count] argument receives the [long] value [p.ny]. *)
Definition row_count (p : parameters) : Z := wrap32 (ny p).

Definition prev_boundary (p : parameters) : M double :=
  (* Send window cells, receive halo cells *)
  let* _ := when (rank p >? 0)
              (let* _ := mpi_send_old (ny p) (row_count p) (isub (rank p) 1) 0 in
               mpi_recv_old 0 (row_count p) (isub (rank p) 1) 1) in
  stencil_grid (mk_grid (nx p) (ladd (nx p) 1) 1 (lsub (ny p) 1)) p.

Definition next_boundary (p : parameters) : M double :=
  let* _ := when (rank p <? isub (nranks p) 1)
              (let* _ := mpi_recv_old (lmul (ladd (nx p) 1) (ny p)) (row_count p)
                           (iadd (rank p) 1) 0 in
               mpi_send_old (lmul (nx p) (ny p)) (row_count p) (iadd (rank p) 1) 1) in
  stencil_grid (mk_grid 1 2 1 (lsub (ny p) 1)) p.

(** ** Initial condition *)

(** [std::fill_n(par_unseq, u, n, v)]. *)
Definition fill_n (u : buf) (n : Z) (v : double) : outcome buf :=
  if n <=? 0 then Done u
  else if n <=? Z.of_nat (length u)
       then Done (replicate (Z.to_nat n) v ++ drop (Z.to_nat n) u)
       else Fault OutOfBounds.

Definition fill_n_new (n : Z) (v : double) : M unit :=
  fun s => match fill_n (u_new s) n v with
           | Done u => (Done tt, mk_proc u (u_old s) (inbox s) (trace s))
           | Fault f => (Fault f, s)
           end.

(** [initialize(u_new, u_old, n)]: both calls fill through [u_new]. *)
Definition initialize (n : Z) : M unit :=
  let* _ := fill_n_new n 0%float in
  fill_n_new n 0%float.

(** ** Time loop *)

(** [MPI_Reduce(..., MPI_SUM, 0, ...)]: the root obtains the sum of all
    contributions; with several ranks the sum of the other ranks' values is
    the next message of [inbox]. *)
Definition mpi_reduce (energy : double) (p : parameters) : M double :=
  let* _ := log (EvReduce energy) in
  if (rank p =? 0) && negb (nranks p =? 1)
  then fun s =>
         match inbox s with
         | [r] :: rest =>
             (Done (energy + r)%float, mk_proc (u_new s) (u_old s) rest (trace s))
         | [] => (Fault Blocked, s)
         | _ => (Fault MpiError, s)
         end
  else ret energy.

(** [std::swap(u_new, u_old)]: the pointers exchange their targets. *)
Definition swap : M unit :=
  fun s => (Done tt, mk_proc (u_old s) (u_new s) (inbox s) (trace s ++ [EvSwap])).

(** The body of the time loop at iteration [it]. *)
Definition time_step (p : parameters) (it : Z) : M unit :=
  let energy := 0%float in
  (* Exchange and compute domain boundaries: *)
  let* e1 := prev_boundary p in
  let energy := (energy + e1)%float in
  let* e2 := next_boundary p in
  let energy := (energy + e2)%float in
  let* e3 := internal p in
  let energy := (energy + e3)%float in
  let* energy := mpi_reduce energy p in
  let* _ := when ((rank p =? 0) && (lrem it (nout p) =? 0))
              (log (EvPrint (of_long it * dt p)%float energy)) in
  swap.

Fixpoint time_loop (p : parameters) (its : list Z) : M unit :=
  match its with
  | [] => ret tt
  | it :: rest => let* _ := time_step p it in time_loop p rest
  end.

End Driver.

(** ** Command line *)

(** [std::stoll(str)] with the default base 10 and no [pos]: leading white
    space, an optional sign and the longest run of decimal digits are
    consumed; whatever follows is ignored. *)
Definition isspace (c : ascii) : bool :=
  let n := Z.of_N (N_of_ascii c) in
  (n =? 32) || ((9 <=? n) && (n <=? 13)).

Definition digit (c : ascii) : option Z :=
  let n := Z.of_N (N_of_ascii c) in
  if (48 <=? n) && (n <=? 57) then Some (n - 48) else None.

Fixpoint skip_spaces (s : string) : string :=
  match s with
  | String c r => if isspace c then skip_spaces r else s
  | EmptyString => s
  end.

Fixpoint digits (acc : option Z) (s : string) : option Z :=
  match s with
  | String c r =>
      match digit c with
      | Some d => digits (Some (10 * default 0 acc + d)) r
      | None => acc
      end
  | EmptyString => acc
  end.

Inductive stoll_result : Type :=
| Parsed (v : Z)
| Throws (e : exception).

Definition stoll (s : string) : stoll_result :=
  let s1 := skip_spaces s in
  let signed :=
    match s1 with
    | String "-"%char r => (true, r)
    | String "+"%char r => (false, r)
    | _ => (false, s1)
    end in
  match digits None (snd signed) with
  | None => Throws InvalidArgument
  | Some m =>
      let v := if fst signed then - m else m in
      if (LONG_MIN <=? v) && (v <=? LONG_MAX) then Parsed v
      else Throws OutOfRange
  end.

Definition parse (s : string) : M Z :=
  match stoll s with
  | Parsed v => ret v
  | Throws e => raise (Uncaught e)
  end.

(** [parameters::parameters(int argc, char *argv[])], with [argc] the
    length of [argv]. *)
Definition parameters_ctor (argv : list string) : M parameters :=
  let* _ := when (negb (Z.of_nat (length argv) =? 4))
              (let* _ := log (EvCerr "ERROR: incorrect arguments") in
               let* _ := log (EvCerr ("  " ++ nth 0 argv ""%string ++ " <nx> <ny> <ni>")) in
               raise Terminated) in
  let* nx := parse (nth 1 argv ""%string) in
  let* ny := parse (nth 2 argv ""%string) in
  let* ni := parse (nth 3 argv ""%string) in
  let dx := (1 / of_long nx)%float in
  let dt := (dx * dx / (5 * alpha))%float in
  ret (mk_parameters dx dt nx ny ni 0 1).

(** ** The program *)

(** What the process obtains from outside: its command line, the thread
    level MPI grants, the size of the communicator, its rank, and the
    messages it will receive, in the order of its receive operations. *)
Record world : Type := mk_world {
  argv : list string;
  thread_level : Z;
  comm_size : Z;
  comm_rank : Z;
  incoming : list (list double)
}.

Definition MPI_THREAD_MULTIPLE : Z := 3.

(** [std::vector<double>(n)] twice: value-initialised, hence all zero. *)
Definition allocate (n : Z) : M unit :=
  if n <? 0 then raise (Uncaught LengthError)
  else fun s =>
         (Done tt,
          mk_proc (replicate (Z.to_nat n) 0%float) (replicate (Z.to_nat n) 0%float)
            (inbox s) (trace s)).

Definition sizeof_long : Z := 8.
Definition sizeof_double : Z := 8.

(** [MPI_File_iwrite_at(f, offset, u_new + off, count, MPI_DOUBLE, ...)]. *)
Definition file_write_new (offset off count : Z) : M unit :=
  fun s =>
    if count <? 0 then (Fault MpiError, s)
    else if (0 <=? off) && (off + count <=? Z.of_nat (length (u_new s)))
    then (Done tt,
          mk_proc (u_new s) (u_old s) (inbox s)
            (trace s ++
             [EvFileWriteAt offset
                (Doubles (take (Z.to_nat count) (drop (Z.to_nat off) (u_new s))))]))
    else (Fault OutOfBounds, s).

(** Write output to file. *)
Definition write_output (p : parameters) : M unit :=
  let* _ := log EvFileOpen in
  let header_bytes := uwrap64 (2 * sizeof_long + sizeof_double) in
  let values_per_rank := lmul (nx p) (ny p) in
  let values_bytes_per_rank := uwrap64 (values_per_rank * sizeof_double) in
  let* _ := log (EvFileSetSize
                   (wrap64 (uwrap64 (header_bytes +
                                     uwrap64 (values_bytes_per_rank * nranks p))))) in
  let* _ := when (rank p =? 0)
              (let total := [lmul (nx p) (nranks p); ny p] in
               let time := (of_long (nit p) * dt p)%float in
               let* _ := log (EvFileWriteAt 0 (Longs total)) in
               log (EvFileWriteAt (2 * sizeof_long) (Doubles [time]))) in
  let values_offset :=
    uwrap64 (header_bytes + uwrap64 (rank p * values_bytes_per_rank)) in
  let* _ := file_write_new (wrap64 values_offset) (ny p) (wrap32 values_per_rank) in
  log EvFileClose.

Section Main.

Variable NDEBUG : bool.

Definition main_body (w : world) : M Z :=
  (* Parse CLI parameters *)
  let* p0 := parameters_ctor (argv w) in
  (* Initialize MPI with multi-threading support *)
  let* _ := when (negb (thread_level w =? MPI_THREAD_MULTIPLE))
              (let* _ := log (EvCerr "MPI cannot be called from multiple host threads") in
               raise Terminated) in
  let p := mk_parameters (dx p0) (dt p0) (nx p0) (ny p0) (ni p0)
             (comm_rank w) (comm_size w) in
  (* Allocate memory *)
  let n := lmul (ladd (nx p) 2) (ny p) in
  let* _ := allocate n in
  (* Initial condition *)
  let* _ := initialize n in
  (* Time loop *)
  let* _ := time_loop NDEBUG p (seqZ 0 (nit p)) in
  let* _ := when (rank p =? 0) (log EvThroughput) in
  let* _ := write_output p in
  ret 0.

Definition main (w : world) : outcome Z * proc :=
  main_body w (mk_proc [] [] (incoming w) []).

End Main.

(** * Notions used in the statements *)

(** The extent of a local buffer, halo rows included. *)
Definition extent (p : parameters) : Z := (nx p + 2) * ny p.

(** Parameters for which the size [n] computed in [main] is exact. *)
Definition fits (p : parameters) : Prop :=
  1 <= nx p /\ 1 <= ny p /\ extent p <= LONG_MAX.

(** The call [index(x, y, p)] gets past both assertions. *)
Definition accepted (NDEBUG : bool) (p : parameters) (x y : Z) : Prop :=
  NDEBUG = true \/ (0 <= x < nx p /\ 0 <= y < ny p).

(** Position of the cell [(x, y)] in a buffer, and its content. *)
Definition pos (p : parameters) (x y : Z) : nat := Z.to_nat (x * ny p + y).

Definition cell (p : parameters) (u : buf) (x y : Z) : double :=
  default 0%float (u !! pos p x y).

(** The current buffer after the boundary injections of the kernel
    invoked at [(x, y)]. *)
Definition inject (p : parameters) (x y : Z) (u : buf) : buf :=
  let u1 := if y =? 1 then <[pos p x (y - 1) := 0%float]> u else u in
  let u2 := if y =? ny p - 2 then <[pos p x (y + 1) := 0%float]> u1 else u1 in
  let u3 := if (rank p =? 0) && (x =? 1)
            then <[pos p (x - 1) y := 1%float]> u2 else u2 in
  if (rank p =? isub (nranks p) 1) && (x =? nx p)
  then <[pos p (x + 1) y := 0%float]> u3 else u3.

(** The 5-point update of the cell [(x, y)] read from [cur], with the
    operations in the order of the source expression. *)
Definition update (p : parameters) (cur : buf) (x y : Z) : double :=
  ((1 - 4 * gamma p) * cell p cur x y +
   gamma p * (cell p cur (x + 1) y + cell p cur (x - 1) y +
              cell p cur x (y + 1) + cell p cur x (y - 1)))%float.

(** The energy contribution of a cell holding [v]. *)
Definition cell_energy (p : parameters) (v : double) : double :=
  (0.5 * v * v * dx p * dx p)%float.

(** Both buffers have the extent allocated in [main]. *)
Definition sized (p : parameters) (s : proc) : Prop :=
  Z.of_nat (length (u_new s)) = extent p /\
  Z.of_nat (length (u_old s)) = extent p.

(** The cells the three regions of one iteration cover. *)
Definition in_region (p : parameters) (x y : Z) : Prop :=
  1 <= x <= nx p /\ 1 <= y <= ny p - 2.

(** Every [index] call of the kernel invoked in row [x] gets past the
    assertions: they are compiled out, or the row [x + 1] it reads
    satisfies [x + 1 < p.nx]. *)
Definition kernel_accepted (NDEBUG : bool) (p : parameters) (x : Z) : Prop :=
  NDEBUG = true \/ x + 1 < nx p.

(** A concrete run used to instantiate the statements: the parameters the
    constructor builds from [heat 4 6 1] on a single process, and the
    freshly allocated buffers. *)
Definition p46 : parameters :=
  mk_parameters (1 / of_long 4)%float
    ((1 / of_long 4) * (1 / of_long 4) / (5 * alpha))%float 4 6 1 0 1.

Definition s46 : proc :=
  mk_proc (replicate 36 0%float) (replicate 36 0%float) [] [].

(** The map [combine] of the specification, from a cell of a region back
    to its flat index; the source only has [split]. *)
Definition combine (x_start y_start dy : Z) (xy : Z * Z) : Z :=
  (fst xy - x_start) * dy + (snd xy - y_start).

(** A region whose bounds are [long] values, with positive extents and a
    number of cells [n] that is a [long] value. *)
Definition proper_grid (g : grid) : Prop :=
  is_long (x_start g) /\ is_long (x_end g) /\
  is_long (y_start g) /\ is_long (y_end g) /\
  0 < x_end g - x_start g /\ 0 < y_end g - y_start g /\
  is_long ((x_end g - x_start g) * (y_end g - y_start g)).

(** Whatever the outcome of [m], the events it appends to the trace all
    satisfy [P]. *)
Definition emits {A} (P : event -> Prop) (m : M A) : Prop :=
  forall (s : proc) (r : outcome A) (s' : proc),
    m s = (r, s') -> exists t, trace s' = trace s ++ t /\ Forall P t.

(** A row is sent to, or received from, a neighbour. *)
Definition message_event (e : event) : Prop :=
  (exists dest tag data, e = EvSend dest tag data) \/
  (exists src tag data, e = EvRecv src tag data).

(** The kernel is invoked at a cell of the rows [lo <= x < hi]. *)
Definition kernel_in_rows (p : parameters) (lo hi : Z) (e : event) : Prop :=
  exists x y, e = EvKernel x y /\ lo <= x < hi /\ 1 <= y <= ny p - 2.

(** What the two boundary functions do: messages, and kernel invocations
    in the rows 1 and [nx]. *)
Definition exchange_event (p : parameters) (e : event) : Prop :=
  message_event e \/
  kernel_in_rows p 1 2 e \/ kernel_in_rows p (nx p) (nx p + 1) e.

(** What [internal] does: kernel invocations in the rows [2 <= x < nx],
    whose five reads stay in the local rows [1 <= x <= nx]. *)
Definition interior_event (p : parameters) (e : event) : Prop :=
  kernel_in_rows p 2 (nx p) e.

(** The end of an iteration: reduction, report and swap. *)
Definition closing_event (e : event) : Prop :=
  (exists v, e = EvReduce v) \/ (exists t v, e = EvPrint t v) \/ e = EvSwap.

(** A middle rank of three, with a stale upper halo row (sevens) in its
    current buffer, and the two rows it is about to receive: twos from the
    lower neighbour, threes from the upper one. *)
Definition p_mid : parameters :=
  mk_parameters (dx p46) (dt p46) 4 6 1 1 3.

Definition s_mid : proc :=
  mk_proc (replicate 36 0%float)
    (replicate 30 0%float ++ replicate 6 7%float)
    [replicate 6 2%float; replicate 6 3%float] [].

(** A command line whose first value is no number. *)
Definition w_abc : world :=
  mk_world ["heat"; "abc"; "6"; "1"]%string MPI_THREAD_MULTIPLE 1 0 [].

(** The command line [heat 4 6 1] on a single process. *)
Definition w46 : world :=
  mk_world ["heat"; "4"; "6"; "1"]%string MPI_THREAD_MULTIPLE 1 0 [].

(** * Notions used for whole regions, iterations and runs *)

(** The cells of a region, row by row. *)
Definition cells (g : grid) : list (Z * Z) :=
  seqZ (x_start g) (x_end g - x_start g) ≫=
    (fun x => (fun y => (x, y)) <$> seqZ (y_start g) (y_end g - y_start g)).

Definition in_grid (g : grid) (x y : Z) : Prop :=
  x_start g <= x < x_end g /\ y_start g <= y < y_end g.

(** A cell of the local buffer, halo rows and edge columns included. *)
Definition in_buffer (p : parameters) (a b : Z) : Prop :=
  0 <= a < nx p + 2 /\ 0 <= b < ny p.

(** A region of [long] bounds that lies in the local rows and between the
    two edge columns. *)
Definition inner_grid (p : parameters) (g : grid) : Prop :=
  1 <= x_start g <= x_end g /\ x_end g <= nx p + 1 /\
  1 <= y_start g <= y_end g /\ y_end g <= ny p - 1.

(** The kernel invocation at a cell, as an event. *)
Definition kernel_event (c : Z * Z) : event := EvKernel (fst c) (snd c).

(** The value the kernel invoked at [c] stores, and the state it leaves. *)
Definition kernel_value (p : parameters) (s : proc) (c : Z * Z) : double :=
  update p (inject p (fst c) (snd c) (u_old s)) (fst c) (snd c).

Definition kernel_step (p : parameters) (s : proc) (c : Z * Z) : proc :=
  mk_proc (<[pos p (fst c) (snd c) := kernel_value p s c]> (u_new s))
    (inject p (fst c) (snd c) (u_old s)) (inbox s)
    (trace s ++ [kernel_event c]).

(** The kernel invoked at the cells of [L], one after the other, and the
    sum of the values it returns, accumulated from [acc]. *)
Definition sweep (p : parameters) (L : list (Z * Z)) (s : proc) : proc :=
  foldl (kernel_step p) s L.

Fixpoint sweep_energy (p : parameters) (L : list (Z * Z)) (s : proc)
         (acc : double) : double :=
  match L with
  | [] => acc
  | c :: rest =>
      sweep_energy p rest (kernel_step p s c)
        (acc + cell_energy p (kernel_value p s c))%float
  end.

(** The energies of the cells of [L] held by [u], summed from [acc] in the
    order of [L]. *)
Definition energy_sum (p : parameters) (u : buf) (L : list (Z * Z))
           (acc : double) : double :=
  foldl (fun a c => (a + cell_energy p (cell p u (fst c) (snd c)))%float) acc L.

(** The value the injections of the kernel prescribe at a cell of the
    buffer, if any: 0 in the two edge columns of the local rows, 1 in the
    lower halo row of the first rank, 0 in the upper halo row of the last
    rank. *)
Definition dirichlet (p : parameters) (a b : Z) : option double :=
  if (1 <=? a) && (a <=? nx p) && ((b =? 0) || (b =? ny p - 1)) then Some 0%float
  else if (1 <=? b) && (b <=? ny p - 2) && (a =? 0) && (rank p =? 0)
       then Some 1%float
  else if (1 <=? b) && (b <=? ny p - 2) && (a =? nx p + 1) &&
          (rank p =? isub (nranks p) 1)
       then Some 0%float
  else None.

(** [u'] differs from [u] only at cells that hold their prescribed value. *)
Definition forced_or_kept (p : parameters) (u u' : buf) : Prop :=
  forall a b, in_buffer p a b ->
    cell p u' a b = cell p u a b \/ dirichlet p a b = Some (cell p u' a b).

(** The cell [(a, b)] of [u] holds its prescribed value, if it has one. *)
Definition settled (p : parameters) (u : buf) (a b : Z) : Prop :=
  forall v, dirichlet p a b = Some v -> cell p u a b = v.

(** The row [x] of a buffer, by ascending column. *)
Definition row (p : parameters) (u : buf) (x : Z) : list double :=
  (fun b => cell p u x b) <$> seqZ 0 (ny p).

Definition INT_MAX : Z := 2 ^ 31 - 1.

(** The buffer [u] after a message [r] has been received into its row [x]. *)
Definition received (p : parameters) (u : buf) (x : Z) (r : list double) : buf :=
  take (Z.to_nat (x * ny p)) u ++ r ++ drop (Z.to_nat (x * ny p) + length r) u.

(** The three regions of one iteration, in the order they are evaluated:
    by [prev_boundary], by [next_boundary] and by [internal]. *)
Definition upper_seam (p : parameters) : grid :=
  mk_grid (nx p) (nx p + 1) 1 (ny p - 1).
Definition lower_seam (p : parameters) : grid :=
  mk_grid 1 2 1 (ny p - 1).
Definition interior (p : parameters) : grid :=
  mk_grid 2 (nx p) 1 (ny p - 1).

Definition iteration_cells (p : parameters) : list (Z * Z) :=
  cells (upper_seam p) ++ cells (lower_seam p) ++ cells (interior p).

(** The state after the exchange with the rank below, and after the
    exchange with the rank above, when the message [r] has arrived. *)
Definition lower_exchanged (p : parameters) (s : proc) (r : list double)
           (rest : list (list double)) : proc :=
  mk_proc (u_new s) (received p (u_old s) 0 r) rest
    (trace s ++ [EvSend (rank p - 1) 0 (row p (u_old s) 1);
                 EvRecv (rank p - 1) 1 r]).

Definition upper_exchanged (p : parameters) (s : proc) (r : list double)
           (rest : list (list double)) : proc :=
  mk_proc (u_new s) (received p (u_old s) (nx p + 1) r) rest
    (trace s ++ [EvRecv (rank p + 1) 0 r;
                 EvSend (rank p + 1) 1 (row p (u_old s) (nx p))]).

(** The ranks of a communicator of [int] size. *)
Definition ranked (p : parameters) : Prop :=
  0 <= rank p < nranks p /\ nranks p <= INT_MAX.

(** The progress line of the iteration [it], where it is written. *)
Definition report (p : parameters) (it : Z) (e : double) : list event :=
  if (rank p =? 0) && (lrem it (nout p) =? 0)
  then [EvPrint (of_long it * dt p)%float e] else [].

(** The end of an iteration in which the reduction yields [total] for the
    local energy [e]. *)
Definition closed (p : parameters) (it : Z) (e total : double) (s : proc) : proc :=
  mk_proc (u_old s) (u_new s) (inbox s)
    (trace s ++ EvReduce e :: report p it total ++ [EvSwap]).

(** The energies of the three regions, summed as the loop body does. *)
Definition iteration_energy (p : parameters) (u : buf) : double :=
  (0 + energy_sum p u (cells (upper_seam p)) 0
     + energy_sum p u (cells (lower_seam p)) 0
     + energy_sum p u (cells (interior p)) 0)%float.

(** A message of the halo exchange: sent to, or received from, a rank next
    to this one that exists, with the tag of its direction. *)
Definition neighbour_message (p : parameters) (e : event) : Prop :=
  match e with
  | EvSend d t _ =>
      (0 < rank p /\ d = rank p - 1 /\ t = 0) \/
      (rank p < nranks p - 1 /\ d = rank p + 1 /\ t = 1)
  | EvRecv d t _ =>
      (0 < rank p /\ d = rank p - 1 /\ t = 1) \/
      (rank p < nranks p - 1 /\ d = rank p + 1 /\ t = 0)
  | _ => True
  end.


(** The local rows [1 .. nx] of a buffer, edge columns included, row by
    row: what a rank contributes to the output file. *)
Definition local_rows (p : parameters) (u : buf) : list double :=
  (fun c => cell p u (fst c) (snd c)) <$> cells (mk_grid 1 (nx p + 1) 0 (ny p)).

(** The events of [write_output]. *)
Definition output_events (p : parameters) (u : buf) : list event :=
  [EvFileOpen; EvFileSetSize (24 + 8 * (nx p * ny p) * nranks p)] ++
  (if rank p =? 0
   then [EvFileWriteAt 0 (Longs [nx p * nranks p; ny p]);
         EvFileWriteAt 16 (Doubles [(of_long (ni p) * dt p)%float])]
   else []) ++
  [EvFileWriteAt (24 + rank p * (8 * (nx p * ny p))) (Doubles (local_rows p u));
   EvFileClose].

(** Sizes for which the byte counts of the output are exact. *)
Definition writable (p : parameters) : Prop :=
  nx p * ny p <= INT_MAX /\ 24 + 8 * (nx p * ny p) * nranks p <= LONG_MAX.

Definition swaps (t : list event) : list event :=
  List.filter (fun e => match e with EvSwap => true | _ => false end) t.

(** The parameters [main] works with when the command line gives [vx],
    [vy] and [vi] and the process is the rank [r] of [n]. *)
Definition parameters_of (vx vy vi r n : Z) : parameters :=
  mk_parameters (1 / of_long vx)%float
    ((1 / of_long vx) * (1 / of_long vx) / (5 * alpha))%float vx vy vi r n.

(** A command line of three values that [std::stoll] reads as [vx], [vy]
    and [vi]. *)
Definition reads (w : world) (vx vy vi : Z) : Prop :=
  length (argv w) = 4%nat /\
  stoll (nth 1 (argv w) ""%string) = Parsed vx /\
  stoll (nth 2 (argv w) ""%string) = Parsed vy /\
  stoll (nth 3 (argv w) ""%string) = Parsed vi.



(** * Verification *)

(** ** Exact machine arithmetic *)

Lemma wrap64_small (z : Z) : is_long z -> wrap64 z = z.
Proof.
  unfold is_long, LONG_MIN, LONG_MAX, wrap64. intros H.
  rewrite Z.mod_small; lia.
Qed.

Lemma ladd_exact (a b : Z) : is_long (a + b) -> ladd a b = a + b.
Proof. apply wrap64_small. Qed.

Lemma lsub_exact (a b : Z) : is_long (a - b) -> lsub a b = a - b.
Proof. apply wrap64_small. Qed.

Lemma lmul_exact (a b : Z) : is_long (a * b) -> lmul a b = a * b.
Proof. apply wrap64_small. Qed.

Lemma offset_range (p : parameters) (x y : Z) :
  0 <= x < nx p + 2 -> 0 <= y < ny p ->
  0 <= x * ny p + y < extent p.
Proof. unfold extent. intros Hx Hy. nia. Qed.

Lemma offset_exact (p : parameters) (x y : Z) :
  fits p -> 0 <= x < nx p + 2 -> 0 <= y < ny p ->
  ladd (lmul x (ny p)) y = x * ny p + y.
Proof.
  intros (Hnx & Hny & Hfit) Hx Hy.
  pose proof (offset_range p x y Hx Hy) as Hr.
  assert (0 <= x * ny p) by nia.
  unfold LONG_MAX in Hfit.
  rewrite lmul_exact by (unfold is_long, LONG_MIN, LONG_MAX; lia).
  rewrite ladd_exact by (unfold is_long, LONG_MIN, LONG_MAX; lia).
  reflexivity.
Qed.

Lemma offset_inj (p : parameters) (x y x' y' : Z) :
  0 <= y < ny p -> 0 <= y' < ny p ->
  x * ny p + y = x' * ny p + y' -> x = x' /\ y = y'.
Proof. intros Hy Hy' E. assert (x = x') by nia. subst. lia. Qed.

(** ** The addressing function *)

Lemma index_accepted (NDEBUG : bool) (p : parameters) (x y : Z) :
  accepted NDEBUG p x y ->
  index NDEBUG x y p = Done (ladd (lmul x (ny p)) y).
Proof.
  unfold accepted, index, assert_passes. intros [-> | [Hx Hy]]; [reflexivity |].
  assert ((x >=? 0) && (x <? nx p) = true) as -> by lia.
  assert ((y >=? 0) && (y <? ny p) = true) as -> by lia.
  rewrite !orb_true_r. reflexivity.
Qed.

Lemma index_done (NDEBUG : bool) (p : parameters) (x y o : Z) :
  index NDEBUG x y p = Done o -> o = ladd (lmul x (ny p)) y.
Proof.
  unfold index. repeat case (negb _); congruence.
Qed.

Lemma index_rejects_row (p : parameters) (x y : Z) :
  nx p <= x -> index false x y p = Fault AssertionFailed.
Proof.
  unfold index, assert_passes. intros H.
  assert ((x >=? 0) && (x <? nx p) = false) as -> by lia.
  reflexivity.
Qed.

(** ** One kernel invocation *)

Lemma pos_lt (p : parameters) (u : buf) (x y : Z) :
  Z.of_nat (length u) = extent p ->
  0 <= x < nx p + 2 -> 0 <= y < ny p ->
  (pos p x y < length u)%nat.
Proof.
  intros Hl Hx Hy. pose proof (offset_range p x y Hx Hy). unfold pos. lia.
Qed.

Lemma peek_cell (p : parameters) (u : buf) (x y : Z) :
  Z.of_nat (length u) = extent p ->
  0 <= x < nx p + 2 -> 0 <= y < ny p ->
  peek u (x * ny p + y) = Done (cell p u x y).
Proof.
  intros Hl Hx Hy. pose proof (pos_lt p u x y Hl Hx Hy) as Hlt.
  pose proof (offset_range p x y Hx Hy) as Hr.
  destruct (lookup_lt_is_Some_2 u (pos p x y) Hlt) as [v Hv].
  unfold peek, cell. rewrite Hv. unfold pos in Hv. rewrite Hv.
  destruct (x * ny p + y <? 0) eqn:E; [lia | reflexivity].
Qed.

Lemma poke_cell (p : parameters) (u : buf) (x y : Z) (v : double) :
  Z.of_nat (length u) = extent p ->
  0 <= x < nx p + 2 -> 0 <= y < ny p ->
  poke u (x * ny p + y) v = Done (<[pos p x y := v]> u).
Proof.
  intros Hl Hx Hy. pose proof (offset_range p x y Hx Hy) as Hr.
  unfold poke. fold (pos p x y).
  assert ((0 <=? x * ny p + y) && (x * ny p + y <? Z.of_nat (length u)) = true)
    as -> by lia.
  reflexivity.
Qed.

Section Kernel.

Variable NDEBUG : bool.
Variable p : parameters.
Hypothesis Hfits : fits p.

Lemma idx_run (a b : Z) (s : proc) :
  accepted NDEBUG p a b -> 0 <= a < nx p + 2 -> 0 <= b < ny p ->
  idx NDEBUG p a b s = (Done (a * ny p + b), s).
Proof.
  intros Hacc Ha Hb. unfold idx, lift.
  rewrite index_accepted by assumption.
  rewrite offset_exact by assumption. reflexivity.
Qed.

Lemma store_old_run (a b : Z) (v : double) (un uo : buf) ib tr :
  accepted NDEBUG p a b -> 0 <= a < nx p + 2 -> 0 <= b < ny p ->
  Z.of_nat (length uo) = extent p ->
  (let* i := idx NDEBUG p a b in store_old i v) (mk_proc un uo ib tr)
  = (Done tt, mk_proc un (<[pos p a b := v]> uo) ib tr).
Proof.
  intros Hacc Ha Hb Hl. unfold bind. rewrite idx_run by assumption.
  unfold store_old. cbn [u_old u_new inbox trace].
  rewrite poke_cell by assumption. reflexivity.
Qed.

Lemma load_old_run {A} (a b : Z) (k : double -> M A) (un uo : buf) ib tr :
  accepted NDEBUG p a b -> 0 <= a < nx p + 2 -> 0 <= b < ny p ->
  Z.of_nat (length uo) = extent p ->
  (let* i := idx NDEBUG p a b in let* c := load_old i in k c) (mk_proc un uo ib tr)
  = k (cell p uo a b) (mk_proc un uo ib tr).
Proof.
  intros Hacc Ha Hb Hl. unfold bind at 1. rewrite idx_run by assumption.
  unfold bind at 1. unfold load_old. cbn [u_old].
  rewrite peek_cell by assumption. reflexivity.
Qed.

Lemma store_new_run {A} (a b : Z) (v : double) (k : unit -> M A)
      (un uo : buf) ib tr :
  accepted NDEBUG p a b -> 0 <= a < nx p + 2 -> 0 <= b < ny p ->
  Z.of_nat (length un) = extent p ->
  (let* i := idx NDEBUG p a b in let* u := store_new i v in k u)
    (mk_proc un uo ib tr)
  = k tt (mk_proc (<[pos p a b := v]> un) uo ib tr).
Proof.
  intros Hacc Ha Hb Hl. unfold bind at 1. rewrite idx_run by assumption.
  unfold bind at 1. unfold store_new. cbn [u_old u_new inbox trace].
  rewrite poke_cell by assumption. reflexivity.
Qed.

Lemma load_new_run {A} (a b : Z) (k : double -> M A) (un uo : buf) ib tr :
  accepted NDEBUG p a b -> 0 <= a < nx p + 2 -> 0 <= b < ny p ->
  Z.of_nat (length un) = extent p ->
  (let* i := idx NDEBUG p a b in let* c := load_new i in k c) (mk_proc un uo ib tr)
  = k (cell p un a b) (mk_proc un uo ib tr).
Proof.
  intros Hacc Ha Hb Hl. unfold bind at 1. rewrite idx_run by assumption.
  unfold bind at 1. unfold load_new. cbn [u_new].
  rewrite peek_cell by assumption. reflexivity.
Qed.

Lemma inject_length (x y : Z) (u : buf) : length (inject p x y u) = length u.
Proof.
  unfold inject. repeat case (_ : bool); rewrite ?length_insert; reflexivity.
Qed.

Lemma if_insert_length (c : bool) (i : nat) (v : double) (u : buf) :
  length (if c then <[i := v]> u else u) = length u.
Proof. destruct c; rewrite ?length_insert; reflexivity. Qed.

Lemma when_store_run {A} (c : bool) (a b : Z) (v : double) (k : unit -> M A)
      (un uo : buf) ib tr :
  (c = true -> accepted NDEBUG p a b /\ 0 <= a < nx p + 2 /\ 0 <= b < ny p) ->
  Z.of_nat (length uo) = extent p ->
  bind (when c (let* i := idx NDEBUG p a b in store_old i v)) k
    (mk_proc un uo ib tr)
  = k tt (mk_proc un (if c then <[pos p a b := v]> uo else uo) ib tr).
Proof.
  intros Hc Hl. unfold bind at 1. destruct c; cbn [when].
  - destruct (Hc eq_refl) as (Hacc & Ha & Hb).
    rewrite store_old_run by assumption. reflexivity.
  - reflexivity.
Qed.

Lemma kernel_accepted_at (x a b : Z) :
  kernel_accepted NDEBUG p x -> 0 <= a <= x + 1 -> 0 <= b < ny p ->
  accepted NDEBUG p a b.
Proof.
  unfold kernel_accepted, accepted. intros [H | H] Ha Hb; [left; exact H | right; lia].
Qed.

Lemma cell_insert_eq (u : buf) (x y : Z) (v : double) :
  Z.of_nat (length u) = extent p ->
  0 <= x < nx p + 2 -> 0 <= y < ny p ->
  cell p (<[pos p x y := v]> u) x y = v.
Proof.
  intros Hl Hx Hy. unfold cell.
  rewrite list_lookup_insert_eq by (eapply pos_lt; eassumption). reflexivity.
Qed.

(** The kernel at a cell of the evaluated region: its result, its store
    into the next buffer and its injections into the current one. *)
Lemma stencil_run (x y : Z) (s : proc) :
  in_region p x y -> sized p s -> kernel_accepted NDEBUG p x ->
  stencil NDEBUG x y p s =
  (Done (cell_energy p (update p (inject p x y (u_old s)) x y)),
   mk_proc (<[pos p x y := update p (inject p x y (u_old s)) x y]> (u_new s))
     (inject p x y (u_old s)) (inbox s) (trace s ++ [EvKernel x y])).
Proof.
  destruct s as [un uo ib tr]. intros [Hx Hy] [Hn Ho] Hacc.
  cbn [u_new u_old inbox trace] in *.
  destruct Hfits as (Hnx & Hny & Hext). unfold extent, LONG_MAX in Hext.
  assert (ny p <= (nx p + 2) * ny p) by nia.
  assert (nx p + 2 <= (nx p + 2) * ny p) by nia.
  unfold stencil.
  rewrite (lsub_exact y 1), (ladd_exact y 1), (lsub_exact x 1), (ladd_exact x 1),
    (lsub_exact (ny p) 2) by (unfold is_long, LONG_MIN, LONG_MAX; lia).
  unfold bind at 1. unfold log. cbn [u_new u_old inbox trace].
  rewrite when_store_run;
    [ | intros ?; split; [eapply kernel_accepted_at; eauto; lia | lia] | assumption ].
  rewrite when_store_run;
    [ | intros ?; split; [eapply kernel_accepted_at; eauto; lia | lia]
      | rewrite !if_insert_length; assumption ].
  rewrite when_store_run;
    [ | intros ?; split; [eapply kernel_accepted_at; eauto; lia | lia]
      | rewrite !if_insert_length; assumption ].
  rewrite when_store_run;
    [ | intros [_ ?]%andb_prop; split; [eapply kernel_accepted_at; eauto; lia | lia]
      | rewrite !if_insert_length; assumption ].
  change (if (rank p =? isub (nranks p) 1) && (x =? nx p) then _ else _)
    with (inject p x y uo).
  assert (Z.of_nat (length (inject p x y uo)) = extent p) as Hi
    by (rewrite inject_length; assumption).
  do 5 (rewrite load_old_run;
        [ | eapply kernel_accepted_at; eauto; lia | lia | lia | assumption ]).
  rewrite store_new_run;
    [ | eapply kernel_accepted_at; eauto; lia | lia | lia | assumption ].
  assert (Z.of_nat (length (<[pos p x y := update p (inject p x y uo) x y]> un))
          = extent p) as Hu by (rewrite length_insert; assumption).
  fold (update p (inject p x y uo) x y).
  do 2 (rewrite load_new_run;
        [ | eapply kernel_accepted_at; eauto; lia | lia | lia | assumption ]).
  rewrite cell_insert_eq by (assumption || lia).
  reflexivity.
Qed.

End Kernel.

(** ** The boundary injections *)

Lemma inject_idempotent (p : parameters) (x y : Z) (u : buf) :
  inject p x y (inject p x y u) = inject p x y u.
Proof.
  unfold inject.
  destruct (y =? 1), (y =? ny p - 2), ((rank p =? 0) && (x =? 1)),
    ((rank p =? isub (nranks p) 1) && (x =? nx p));
    apply list_eq; intros j;
    rewrite ?list_lookup_insert, ?length_insert;
    repeat case_decide; try reflexivity; tauto.
Qed.

Section Injections.

Variable p : parameters.
Variables x y : Z.
Variable u : buf.
Hypothesis Hfits : fits p.
Hypothesis Hreg : in_region p x y.
Hypothesis Hlen : Z.of_nat (length u) = extent p.

Lemma pos_eq_iff (a b a' b' : Z) :
  0 <= a -> 0 <= a' -> 0 <= b < ny p -> 0 <= b' < ny p ->
  pos p a b = pos p a' b' -> a = a' /\ b = b'.
Proof.
  intros Ha Ha' Hb Hb' E. unfold pos in E.
  apply (offset_inj p a b a' b' Hb Hb'). nia.
Qed.

Lemma inject_bottom : y = 1 -> cell p (inject p x y u) x 0 = 0%float.
Proof.
  destruct Hreg as [Hx Hy]. intros ->. unfold cell, inject.
  pose proof (pos_lt p u x 0 Hlen ltac:(lia) ltac:(lia)) as Hlt.
  replace (1 - 1) with 0 by lia. rewrite Z.eqb_refl.
  destruct (1 =? ny p - 2), ((rank p =? 0) && (x =? 1)) eqn:E3,
    ((rank p =? isub (nranks p) 1) && (x =? nx p));
    rewrite ?list_lookup_insert, ?length_insert;
    repeat case_decide; try reflexivity;
    try (exfalso; tauto);
    match goal with
    | H : pos p ?a ?b = pos p ?a' ?b' /\ _ |- _ =>
        destruct H as [H _];
        apply pos_eq_iff in H; lia
    end.
Qed.

Lemma inject_top : y = ny p - 2 -> cell p (inject p x y u) x (ny p - 1) = 0%float.
Proof.
  destruct Hreg as [Hx Hy]. intros Ey. unfold cell, inject.
  pose proof (pos_lt p u x (ny p - 1) Hlen ltac:(lia) ltac:(lia)) as Hlt.
  replace (y + 1) with (ny p - 1) by lia.
  replace (y =? ny p - 2) with true by lia.
  destruct (y =? 1), ((rank p =? 0) && (x =? 1)),
    ((rank p =? isub (nranks p) 1) && (x =? nx p));
    rewrite ?list_lookup_insert, ?length_insert;
    repeat case_decide; try reflexivity;
    try (exfalso; tauto);
    match goal with
    | H : pos p ?a ?b = pos p ?a' ?b' /\ _ |- _ =>
        destruct H as [H _];
        apply pos_eq_iff in H; lia
    end.
Qed.

Lemma inject_left :
  rank p = 0 -> x = 1 -> cell p (inject p x y u) 0 y = 1%float.
Proof.
  destruct Hreg as [Hx Hy]. intros Er ->. unfold cell, inject.
  pose proof (pos_lt p u 0 y Hlen ltac:(lia) ltac:(lia)) as Hlt.
  replace (1 - 1) with 0 by lia.
  replace ((rank p =? 0) && (1 =? 1)) with true by (rewrite Er; reflexivity).
  destruct (y =? 1), (y =? ny p - 2),
    ((rank p =? isub (nranks p) 1) && (1 =? nx p));
    rewrite ?list_lookup_insert, ?length_insert;
    repeat case_decide; try reflexivity;
    try (exfalso; tauto);
    match goal with
    | H : pos p ?a ?b = pos p ?a' ?b' /\ _ |- _ =>
        destruct H as [H _];
        apply pos_eq_iff in H; lia
    end.
Qed.

Lemma inject_right :
  rank p = isub (nranks p) 1 -> x = nx p ->
  cell p (inject p x y u) (nx p + 1) y = 0%float.
Proof.
  destruct Hreg as [Hx Hy]. intros Er Ex. unfold cell, inject.
  pose proof (pos_lt p u (nx p + 1) y Hlen ltac:(lia) ltac:(lia)) as Hlt.
  replace (x + 1) with (nx p + 1) by lia.
  replace ((rank p =? isub (nranks p) 1) && (x =? nx p)) with true
    by (rewrite <- Er, Ex, !Z.eqb_refl; reflexivity).
  rewrite list_lookup_insert, !if_insert_length.
  case_decide; [reflexivity | exfalso; tauto].
Qed.

End Injections.

(** ** The kernel: update, energy and injections *)

Lemma fits_p46 : fits p46.
Proof. unfold fits, extent, LONG_MAX. cbn. lia. Qed.

Lemma sized_s46 : sized p46 s46.
Proof. split; reflexivity. Qed.

(** Where the [index] calls of the kernel get past the assertions, the
    kernel performs its injections, stores the update of the cell into the
    next buffer and nowhere else, and returns the energy of the cell. *)
Lemma stencil_update_accepted
      (NDEBUG : bool) (p : parameters) (x y : Z) (s : proc) :
  fits p -> sized p s -> in_region p x y -> kernel_accepted NDEBUG p x ->
  exists (e : double) (s' : proc),
    stencil NDEBUG x y p s = (Done e, s') /\
    u_old s' = inject p x y (u_old s) /\
    u_new s' !! pos p x y =
      Some ((1 - 4 * gamma p) * cell p (u_old s') x y +
            gamma p * (cell p (u_old s') (x + 1) y + cell p (u_old s') (x - 1) y +
                       cell p (u_old s') x (y + 1) + cell p (u_old s') x (y - 1)))%float /\
    (forall i : nat, i <> pos p x y -> u_new s' !! i = u_new s !! i) /\
    e = (0.5 * cell p (u_new s') x y * cell p (u_new s') x y * dx p * dx p)%float.
Proof.
  intros Hfits Hsized Hreg Hacc.
  eexists _, _. split; [apply stencil_run; assumption |].
  cbn [u_new u_old]. destruct Hsized as [Hn Ho]. destruct Hreg as [Hx Hy].
  assert (pos p x y < length (u_new s))%nat as Hlt
    by (apply pos_lt; [assumption | lia | lia]).
  split; [reflexivity |]. split; [| split].
  - rewrite list_lookup_insert_eq by assumption. reflexivity.
  - intros i Hi. apply list_lookup_insert_ne. congruence.
  - rewrite cell_insert_eq by (assumption || lia). reflexivity.
Qed.

(** Where the [index] calls of the kernel get past the assertions, one
    invocation leaves the fixed boundary values in the current buffer and a
    second one at the same cell does not change the current buffer. *)
Lemma injections_accepted
      (NDEBUG : bool) (p : parameters) (x y : Z) (s : proc) :
  fits p -> sized p s -> in_region p x y -> kernel_accepted NDEBUG p x ->
  exists (e1 e2 : double) (s1 s2 : proc),
    stencil NDEBUG x y p s = (Done e1, s1) /\
    stencil NDEBUG x y p s1 = (Done e2, s2) /\
    (y = 1 -> cell p (u_old s1) x 0 = 0%float) /\
    (y = ny p - 2 -> cell p (u_old s1) x (ny p - 1) = 0%float) /\
    (rank p = 0 -> x = 1 -> cell p (u_old s1) 0 y = 1%float) /\
    (rank p = isub (nranks p) 1 -> x = nx p ->
     cell p (u_old s1) (nx p + 1) y = 0%float) /\
    u_old s2 = u_old s1.
Proof.
  intros Hfits Hsized Hreg Hacc.
  pose proof (stencil_run NDEBUG p Hfits x y s Hreg Hsized Hacc) as H1.
  set (s1 := mk_proc _ _ _ _) in H1.
  assert (sized p s1) as Hsized1.
  { destruct Hsized as [Hn Ho]. split; cbn [s1 u_new u_old].
    - rewrite length_insert. assumption.
    - rewrite inject_length. assumption. }
  pose proof (stencil_run NDEBUG p Hfits x y s1 Hreg Hsized1 Hacc) as H2.
  eexists _, _, s1, _. split; [exact H1 |]. split; [exact H2 |].
  cbn [s1 u_new u_old]. destruct Hsized as [Hn Ho].
  repeat split.
  - apply inject_bottom; assumption.
  - apply inject_top; assumption.
  - apply inject_left; assumption.
  - apply inject_right; assumption.
  - apply inject_idempotent.
Qed.

(** ** Addressing: offsets and assertions *)

(** Whenever [index] returns, the offsets it yields on the coordinates of
    the buffer, halo rows included, lie in the buffer and are pairwise
    distinct. *)
Lemma index_offsets_bijective (NDEBUG : bool) (p : parameters) :
  fits p ->
  (forall x y, 0 <= x < nx p + 2 -> 0 <= y < ny p -> accepted NDEBUG p x y ->
     index NDEBUG x y p = Done (x * ny p + y) /\ 0 <= x * ny p + y < extent p) /\
  (forall x y x' y' o,
     0 <= x < nx p + 2 -> 0 <= y < ny p -> 0 <= x' < nx p + 2 -> 0 <= y' < ny p ->
     index NDEBUG x y p = Done o -> index NDEBUG x' y' p = Done o ->
     x = x' /\ y = y').
Proof.
  intros Hfits. split.
  - intros x y Hx Hy Hacc. rewrite index_accepted by assumption.
    rewrite offset_exact by assumption. split; [reflexivity |].
    apply offset_range; assumption.
  - intros x y x' y' o Hx Hy Hx' Hy' E E'.
    apply index_done in E, E'. rewrite offset_exact in E, E' by assumption.
    apply (offset_inj p x y x' y' Hy Hy'). congruence.
Qed.

(** Every offset of the buffer is the image of a coordinate. *)
Lemma offset_surj (p : parameters) (o : Z) :
  1 <= ny p -> 0 <= o < extent p ->
  exists x y, 0 <= x < nx p + 2 /\ 0 <= y < ny p /\ o = x * ny p + y.
Proof.
  unfold extent. intros Hny Ho.
  exists (o / ny p), (o mod ny p).
  pose proof (Z.mod_pos_bound o (ny p) ltac:(lia)).
  pose proof (Z.div_mod o (ny p) ltac:(lia)).
  assert (0 <= o / ny p) by (apply Z.div_pos; lia).
  assert (o / ny p < nx p + 2) by (apply Z.div_lt_upper_bound; lia).
  repeat split; lia.
Qed.

Lemma idx_rejects_row (p : parameters) (a b : Z) (s : proc) :
  nx p <= a -> idx false p a b s = (Fault AssertionFailed, s).
Proof.
  intros H. unfold idx, lift. rewrite index_rejects_row by assumption. reflexivity.
Qed.

(** With the assertions compiled in, the kernel invoked in the row [nx]
    stops at its first [index] call, before any store. *)
Lemma stencil_row_nx_asserts (p : parameters) (y : Z) (s : proc) :
  2 <= nx p < LONG_MAX ->
  stencil false (nx p) y p s =
  (Fault AssertionFailed,
   mk_proc (u_new s) (u_old s) (inbox s) (trace s ++ [EvKernel (nx p) y])).
Proof.
  intros Hnx. unfold LONG_MAX in Hnx. unfold stencil.
  unfold bind at 1. unfold log.
  unfold bind at 1. destruct (y =? 1); cbn [when].
  { unfold bind at 1. rewrite idx_rejects_row by lia. reflexivity. }
  cbn [ret].
  unfold bind at 1. destruct (y =? lsub (ny p) 2); cbn [when].
  { unfold bind at 1. rewrite idx_rejects_row by lia. reflexivity. }
  cbn [ret].
  unfold bind at 1.
  replace (nx p =? 1) with false by lia. rewrite andb_false_r. cbn [when ret].
  unfold bind at 1.
  destruct ((rank p =? isub (nranks p) 1) && (nx p =? nx p)); cbn [when].
  { unfold bind at 1. rewrite idx_rejects_row; [reflexivity |].
    rewrite ladd_exact by (unfold is_long, LONG_MIN, LONG_MAX; lia). lia. }
  cbn [ret].
  unfold bind at 1. rewrite idx_rejects_row by lia. reflexivity.
Qed.

Lemma fits_nx_bound (p : parameters) : fits p -> nx p < LONG_MAX.
Proof.
  intros (Hnx & Hny & Hext). unfold extent in Hext.
  assert (nx p + 2 <= (nx p + 2) * ny p) by nia. lia.
Qed.

(** C1.  At a cell [(x, y)] of the evaluated region and for every content
    of the two buffers (of the allocated extent): where the [index] calls
    of the kernel get past the assertions (NDEBUG builds, and the rows
    [x + 1 < nx] otherwise) the kernel performs its boundary injections
    into the current buffer, stores into the next buffer at [(x, y)], and
    nowhere else, the value [(1 - 4 gamma) cur[x,y] + gamma (cur[x+1,y] +
    cur[x-1,y] + cur[x,y+1] + cur[x,y-1])] read from the current buffer
    after the injections, and returns [0.5 * next[x,y] * next[x,y] * dx *
    dx].  With the assertions compiled in, at the cells of the row
    [x = nx], which [prev_boundary] evaluates, the kernel fails the
    assertion of [index] instead: no energy is returned and the next buffer
    is left as it was. *)
Theorem kernel_update_unless_assertion
        (NDEBUG : bool) (p : parameters) (x y : Z) (s : proc) :
  fits p -> sized p s -> in_region p x y ->
  (kernel_accepted NDEBUG p x ->
   exists (e : double) (s' : proc),
     stencil NDEBUG x y p s = (Done e, s') /\
     u_old s' = inject p x y (u_old s) /\
     u_new s' !! pos p x y =
       Some ((1 - 4 * gamma p) * cell p (u_old s') x y +
             gamma p * (cell p (u_old s') (x + 1) y + cell p (u_old s') (x - 1) y +
                        cell p (u_old s') x (y + 1) + cell p (u_old s') x (y - 1)))%float /\
     (forall i : nat, i <> pos p x y -> u_new s' !! i = u_new s !! i) /\
     e = (0.5 * cell p (u_new s') x y * cell p (u_new s') x y * dx p * dx p)%float) /\
  (NDEBUG = false -> 2 <= nx p -> x = nx p ->
   exists s',
     stencil NDEBUG x y p s = (Fault AssertionFailed, s') /\
     u_new s' = u_new s).
Proof.
  intros Hfits Hsized Hreg. split.
  - intros Hacc. apply stencil_update_accepted; assumption.
  - intros -> Hnx ->. eexists. split.
    + apply stencil_row_nx_asserts. pose proof (fits_nx_bound p Hfits). lia.
    + reflexivity.
Qed.

Lemma kernel_update_unless_assertion_witness :
  (exists (e : double) (s' : proc),
     stencil true 4 1 p46 s46 = (Done e, s') /\
     u_new s' !! pos p46 4 1 = Some 0%float) /\
  (exists s', stencil false 4 1 p46 s46 = (Fault AssertionFailed, s') /\
              u_new s' = u_new s46).
Proof.
  split.
  - destruct (kernel_update_unless_assertion true p46 4 1 s46)
      as [Hrel _].
    + exact fits_p46.
    + exact sized_s46.
    + unfold in_region. cbn. lia.
    + destruct Hrel as (e & s' & Hrun & Hold & Hnew & _); [left; reflexivity |].
      exists e, s'. split; [exact Hrun |].
      rewrite Hnew, Hold. vm_compute. reflexivity.
  - destruct (kernel_update_unless_assertion false p46 4 1 s46)
      as [_ Hdbg].
    + exact fits_p46.
    + exact sized_s46.
    + unfold in_region. cbn. lia.
    + apply Hdbg; [reflexivity | cbn; lia | reflexivity].
Defined.

(** C8.  At a cell [(x, y)] of the evaluated region and for every prior
    content of the buffers: where the [index] calls of the kernel get past
    the assertions, one invocation of the kernel leaves the fixed values in
    the current buffer (0 at [cur[x,0]] when [y = 1], 0 at [cur[x,ny-1]]
    when [y = ny - 2], 1 at [cur[0,y]] on rank 0 when [x = 1], 0 at
    [cur[nx+1,y]] on the last rank when [x = nx]) and a second invocation
    at the same cell leaves the current buffer as the first one left it.
    With the assertions compiled in, at the cells of the row [x = nx] the
    kernel fails the assertion of [index] before any injection: the current
    buffer keeps its prior content. *)
Theorem injections_idempotent_unless_assertion
        (NDEBUG : bool) (p : parameters) (x y : Z) (s : proc) :
  fits p -> sized p s -> in_region p x y ->
  (kernel_accepted NDEBUG p x ->
   exists (e1 e2 : double) (s1 s2 : proc),
     stencil NDEBUG x y p s = (Done e1, s1) /\
     stencil NDEBUG x y p s1 = (Done e2, s2) /\
     (y = 1 -> cell p (u_old s1) x 0 = 0%float) /\
     (y = ny p - 2 -> cell p (u_old s1) x (ny p - 1) = 0%float) /\
     (rank p = 0 -> x = 1 -> cell p (u_old s1) 0 y = 1%float) /\
     (rank p = isub (nranks p) 1 -> x = nx p ->
      cell p (u_old s1) (nx p + 1) y = 0%float) /\
     u_old s2 = u_old s1) /\
  (NDEBUG = false -> 2 <= nx p -> x = nx p ->
   exists s',
     stencil NDEBUG x y p s = (Fault AssertionFailed, s') /\
     u_old s' = u_old s).
Proof.
  intros Hfits Hsized Hreg. split.
  - intros Hacc. apply injections_accepted; assumption.
  - intros -> Hnx ->. eexists. split.
    + apply stencil_row_nx_asserts. pose proof (fits_nx_bound p Hfits). lia.
    + reflexivity.
Qed.

Lemma injections_idempotent_unless_assertion_witness :
  (exists (e1 e2 : double) (s1 s2 : proc),
     stencil true 4 1 p46 s46 = (Done e1, s1) /\
     stencil true 4 1 p46 s1 = (Done e2, s2) /\
     cell p46 (u_old s1) 4 0 = 0%float /\
     cell p46 (u_old s1) 5 1 = 0%float /\
     u_old s2 = u_old s1) /\
  (exists s', stencil false 4 1 p46 s_mid = (Fault AssertionFailed, s') /\
              u_old s' = u_old s_mid).
Proof.
  split.
  - destruct (injections_idempotent_unless_assertion true p46 4 1 s46) as [Hrel _].
    + exact fits_p46.
    + exact sized_s46.
    + unfold in_region. cbn. lia.
    + destruct Hrel as (e1 & e2 & s1 & s2 & H1 & H2 & Hb & _ & _ & Hr & Hid);
        [left; reflexivity |].
      exists e1, e2, s1, s2. repeat split; try assumption.
      * apply Hb. reflexivity.
      * apply Hr; reflexivity.
  - destruct (injections_idempotent_unless_assertion false p46 4 1 s_mid) as [_ Hdbg].
    + exact fits_p46.
    + split; reflexivity.
    + unfold in_region. cbn. lia.
    + apply Hdbg; [reflexivity | cbn; lia | reflexivity].
Defined.

(** C6.  On the coordinates [0 <= x < nx + 2], [0 <= y < ny] of a buffer:
    whenever [index] returns, its result is [x * ny + y], an offset of
    [[0, (nx + 2) * ny)], and distinct coordinates have distinct offsets;
    it returns where the call gets past the assertions (NDEBUG builds, and
    the rows [x < nx] otherwise).  With the assertions compiled in, [index]
    fails on every coordinate of the rows [nx] and [nx + 1], which hence
    are mapped to no offset. *)
Theorem index_offsets_unless_assertion (NDEBUG : bool) (p : parameters) :
  fits p ->
  (forall x y, 0 <= x < nx p + 2 -> 0 <= y < ny p -> accepted NDEBUG p x y ->
     index NDEBUG x y p = Done (x * ny p + y) /\ 0 <= x * ny p + y < extent p) /\
  (forall x y x' y' o,
     0 <= x < nx p + 2 -> 0 <= y < ny p -> 0 <= x' < nx p + 2 -> 0 <= y' < ny p ->
     index NDEBUG x y p = Done o -> index NDEBUG x' y' p = Done o ->
     x = x' /\ y = y') /\
  (forall x y, NDEBUG = false -> nx p <= x < nx p + 2 -> 0 <= y < ny p ->
     index NDEBUG x y p = Fault AssertionFailed).
Proof.
  intros Hfits.
  destruct (index_offsets_bijective NDEBUG p Hfits) as [Hmap Hinj].
  split; [exact Hmap |]. split; [exact Hinj |].
  intros x y -> Hx Hy. apply index_rejects_row. lia.
Qed.

Lemma index_offsets_unless_assertion_witness :
  index true 5 3 p46 = Done 33 /\
  index false 4 0 p46 = Fault AssertionFailed /\
  index false 5 0 p46 = Fault AssertionFailed.
Proof.
  destruct (index_offsets_unless_assertion true p46 fits_p46) as (Hmap & _ & _).
  destruct (index_offsets_unless_assertion false p46 fits_p46) as (_ & _ & Hrej).
  split; [| split].
  - apply (Hmap 5 3); [cbn; lia | cbn; lia | left; reflexivity].
  - apply (Hrej 4 0); [reflexivity | cbn; lia | cbn; lia].
  - apply (Hrej 5 0); [reflexivity | cbn; lia | cbn; lia].
Defined.

(** C3.  With the assertions compiled in, the kernel invoked at any cell of
    the row [x = nx], the region [prev_boundary] evaluates in every
    iteration, reaches an [index] call whose asserted precondition
    [x < p.nx] is false and fails the assertion; the run [heat 4 6 1] of a
    single process stops that way at its first kernel invocation. *)
Theorem seam_row_fails_index_assertion :
  (forall (p : parameters) (y : Z) (s : proc),
     2 <= nx p < LONG_MAX ->
     stencil false (nx p) y p s =
     (Fault AssertionFailed,
      mk_proc (u_new s) (u_old s) (inbox s) (trace s ++ [EvKernel (nx p) y]))) /\
  (forall (p : parameters) (s : proc),
     fits p -> 2 <= nx p -> 3 <= ny p -> rank p = 0 ->
     fst (prev_boundary false p s) = Fault AssertionFailed) /\
  (exists s, main false w46 = (Fault AssertionFailed, s) /\
             trace s = [EvKernel 4 1]).
Proof.
  split; [exact stencil_row_nx_asserts |]. split.
  - intros p s Hfits Hnx Hny Hrank.
    pose proof (fits_nx_bound p Hfits) as Hb.
    destruct Hfits as (_ & _ & Hext). unfold extent in Hext.
    assert (ny p <= (nx p + 2) * ny p) by nia.
    unfold LONG_MAX in *.
    unfold prev_boundary. unfold bind at 1. rewrite Hrank. cbn [Z.gtb Z.compare when ret].
    unfold stencil_grid. cbn [x_start x_end y_start y_end].
    rewrite (ladd_exact (nx p) 1), (lsub_exact (ny p) 1)
      by (unfold is_long, LONG_MIN, LONG_MAX; lia).
    rewrite (lsub_exact (nx p + 1) (nx p)), (lsub_exact (ny p - 1) 1)
      by (unfold is_long, LONG_MIN, LONG_MAX; lia).
    replace (nx p + 1 - nx p) with 1 by lia.
    rewrite lmul_exact by (unfold is_long, LONG_MIN, LONG_MAX; lia).
    assert ((1 * (ny p - 1 - 1) <? 0) = false) as -> by lia.
    rewrite seqZ_cons by lia. cbn [transform_reduce]. unfold bind at 1.
    assert (split (nx p) 1 (ny p - 1 - 1) 0 = (nx p, 1)) as ->.
    { unfold split, ldiv, lrem. rewrite Z.quot_0_l, Z.rem_0_l by lia.
      rewrite (wrap64_small 0) by (unfold is_long, LONG_MIN, LONG_MAX; lia).
      rewrite !ladd_exact by (unfold is_long, LONG_MIN, LONG_MAX; lia).
      reflexivity. }
    rewrite stencil_row_nx_asserts by (unfold LONG_MAX; lia). reflexivity.
  - eexists. split; vm_compute; reflexivity.
Qed.

Lemma seam_row_fails_index_assertion_witness :
  fst (stencil false 4 1 p46 s46) = Fault AssertionFailed /\
  fst (prev_boundary false p46 s46) = Fault AssertionFailed.
Proof.
  destruct seam_row_fails_index_assertion as (Hcell & Hprev & _).
  split.
  - change 4 with (nx p46) at 1.
    rewrite (Hcell p46 1 s46); [reflexivity |].
    unfold LONG_MAX. cbn. lia.
  - apply (Hprev p46 s46); [exact fits_p46 | cbn; lia | cbn; lia | reflexivity].
Defined.

(** ** Flattening a region *)

Section Flatten.

Variable g : grid.
Hypothesis Hg : proper_grid g.

Let ddx : Z := x_end g - x_start g.
Let ddy : Z := y_end g - y_start g.

Lemma grid_dy_exact : lsub (y_end g) (y_start g) = ddy.
Proof.
  destruct Hg as (Hxs & Hxe & Hys & Hye & Hdx & Hdy & Hn).
  apply lsub_exact. unfold is_long, LONG_MIN, LONG_MAX in *. lia.
Qed.

Lemma grid_dx_exact : lsub (x_end g) (x_start g) = ddx.
Proof.
  destruct Hg as (Hxs & Hxe & Hys & Hye & Hdx & Hdy & Hn).
  apply lsub_exact. unfold is_long, LONG_MIN, LONG_MAX in *. lia.
Qed.

Lemma split_exact (i : Z) :
  0 <= i < ddx * ddy ->
  split (x_start g) (y_start g) ddy i = (i / ddy + x_start g, i mod ddy + y_start g) /\
  0 <= i / ddy < ddx /\ 0 <= i mod ddy < ddy.
Proof.
  destruct Hg as (Hxs & Hxe & Hys & Hye & Hdx & Hdy & Hn).
  fold ddx ddy in Hdx, Hdy, Hn. intros Hi.
  assert (0 <= i / ddy) by (apply Z.div_pos; lia).
  assert (i / ddy < ddx) by (apply Z.div_lt_upper_bound; lia).
  pose proof (Z.mod_pos_bound i ddy Hdy) as Hm.
  assert (ddx <= ddx * ddy) as Hdxn by nia.
  assert (ddy <= ddx * ddy) as Hdyn by nia.
  split; [| lia].
  unfold split, ldiv, lrem.
  rewrite Z.quot_div_nonneg, Z.rem_mod_nonneg by lia.
  unfold is_long, LONG_MIN, LONG_MAX in *.
  rewrite (wrap64_small (i / _)) by (unfold is_long, LONG_MIN, LONG_MAX; lia).
  rewrite !ladd_exact by (unfold is_long, LONG_MIN, LONG_MAX; subst ddx ddy; lia).
  reflexivity.
Qed.

Lemma combine_split (i : Z) :
  0 <= i < ddx * ddy ->
  combine (x_start g) (y_start g) ddy (split (x_start g) (y_start g) ddy i) = i.
Proof.
  intros Hi. destruct (split_exact i Hi) as (-> & _ & _).
  unfold combine. cbn [fst snd].
  destruct Hg as (_ & _ & _ & _ & _ & Hdy & _). fold ddy in Hdy.
  pose proof (Z.div_mod i ddy ltac:(lia)). lia.
Qed.

Lemma split_combine (x y : Z) :
  x_start g <= x < x_end g -> y_start g <= y < y_end g ->
  0 <= combine (x_start g) (y_start g) ddy (x, y) < ddx * ddy /\
  split (x_start g) (y_start g) ddy (combine (x_start g) (y_start g) ddy (x, y))
  = (x, y).
Proof.
  intros Hx Hy. unfold combine. cbn [fst snd].
  assert (0 <= (x - x_start g) * ddy + (y - y_start g) < ddx * ddy) as Hi
    by (subst ddx ddy; nia).
  split; [exact Hi |].
  destruct (split_exact _ Hi) as (-> & _ & _).
  assert (0 <= y - y_start g < ddy) as Hr by (subst ddy; lia).
  assert (((x - x_start g) * ddy + (y - y_start g)) / ddy = x - x_start g) as ->.
  { rewrite Z.div_add_l by lia. rewrite Z.div_small by exact Hr. lia. }
  assert (((x - x_start g) * ddy + (y - y_start g)) mod ddy = y - y_start g) as ->.
  { rewrite Z.add_comm, Z.mod_add by lia. apply Z.mod_small. exact Hr. }
  f_equal; lia.
Qed.

End Flatten.

(** C7.  On a region with positive extents [dx] and [dy], the map [split]
    of the region evaluator, called with [dy] as the evaluator computes it,
    and the map [combine] are mutual inverses between the flat indices
    [0 <= i < dx * dy] and the cells of the region. *)
Theorem split_combine_inverse (g : grid) :
  proper_grid g ->
  let dx := x_end g - x_start g in
  let dy := lsub (y_end g) (y_start g) in
  (forall i, 0 <= i < dx * dy ->
     let xy := split (x_start g) (y_start g) dy i in
     (x_start g <= fst xy < x_end g /\ y_start g <= snd xy < y_end g) /\
     combine (x_start g) (y_start g) dy xy = i) /\
  (forall x y, x_start g <= x < x_end g -> y_start g <= y < y_end g ->
     0 <= combine (x_start g) (y_start g) dy (x, y) < dx * dy /\
     split (x_start g) (y_start g) dy (combine (x_start g) (y_start g) dy (x, y))
     = (x, y)).
Proof.
  intros Hg. cbv zeta. rewrite (grid_dy_exact g Hg). split.
  - intros i Hi. split.
    + destruct (split_exact g Hg i Hi) as (-> & Hq & Hr). cbn [fst snd]. lia.
    + apply combine_split; assumption.
  - intros x y Hx Hy. apply split_combine; assumption.
Qed.

Lemma split_combine_inverse_witness :
  split 2 1 4 5 = (3, 2) /\ combine 2 1 4 (3, 2) = 5.
Proof.
  destruct (split_combine_inverse (mk_grid 2 4 1 5)) as [Hs Hc].
  - unfold proper_grid, is_long, LONG_MIN, LONG_MAX. cbn. lia.
  - split.
    + apply (Hc 3 2); cbn; lia.
    + reflexivity.
Defined.

(** ** Initial condition *)

Lemma fill_n_run (u : buf) (n : Z) (v : double) :
  n <= Z.of_nat (length u) ->
  exists u', fill_n u n v = Done u' /\
             length u' = length u /\
             (forall i : nat, Z.of_nat i < n -> u' !! i = Some v) /\
             (forall i : nat, n <= Z.of_nat i -> u' !! i = u !! i).
Proof.
  intros Hn. unfold fill_n. destruct (n <=? 0) eqn:E0.
  - exists u. split; [reflexivity |]. split; [reflexivity |].
    split; intros; [lia | reflexivity].
  - assert ((n <=? Z.of_nat (length u)) = true) as -> by lia.
    eexists. split; [reflexivity |]. split; [| split].
    + rewrite length_app, length_replicate, length_drop. lia.
    + intros i Hi. rewrite lookup_app_l by (rewrite length_replicate; lia).
      apply lookup_replicate_2. lia.
    + intros i Hi. rewrite lookup_app_r by (rewrite length_replicate; lia).
      rewrite length_replicate, lookup_drop. f_equal. lia.
Qed.

(** C10.  [initialize] fills the first [n] cells of the buffer behind
    [u_new] with zeros (twice) and leaves the buffer behind [u_old], whatever
    it holds, exactly as it was; after the allocation of [main], which
    value-initialises both vectors, the two buffers hold [n] zeros each. *)
Theorem initialize_writes_u_new_only :
  (forall (n : Z) (s : proc),
     n <= Z.of_nat (length (u_new s)) ->
     exists s',
       initialize n s = (Done tt, s') /\
       u_old s' = u_old s /\
       length (u_new s') = length (u_new s) /\
       (forall i : nat, Z.of_nat i < n -> u_new s' !! i = Some 0%float) /\
       (forall i : nat, n <= Z.of_nat i -> u_new s' !! i = u_new s !! i) /\
       inbox s' = inbox s /\ trace s' = trace s) /\
  (forall (n : Z) (s : proc),
     0 <= n ->
     exists s',
       (let* _ := allocate n in initialize n) s = (Done tt, s') /\
       u_new s' = replicate (Z.to_nat n) 0%float /\
       u_old s' = replicate (Z.to_nat n) 0%float).
Proof.
  assert (forall (n : Z) (s : proc),
     n <= Z.of_nat (length (u_new s)) ->
     exists s',
       initialize n s = (Done tt, s') /\
       u_old s' = u_old s /\
       length (u_new s') = length (u_new s) /\
       (forall i : nat, Z.of_nat i < n -> u_new s' !! i = Some 0%float) /\
       (forall i : nat, n <= Z.of_nat i -> u_new s' !! i = u_new s !! i) /\
       inbox s' = inbox s /\ trace s' = trace s) as Hinit.
  { intros n s Hn.
    destruct (fill_n_run (u_new s) n 0%float Hn) as (u1 & E1 & L1 & Z1 & R1).
    destruct (fill_n_run u1 n 0%float ltac:(lia)) as (u2 & E2 & L2 & Z2 & R2).
    exists (mk_proc u2 (u_old s) (inbox s) (trace s)).
    unfold initialize, bind, fill_n_new. rewrite E1. cbn [u_new u_old inbox trace].
    rewrite E2. repeat split; cbn [u_new u_old inbox trace].
    - congruence.
    - exact Z2.
    - intros i Hi. rewrite R2, R1 by assumption. reflexivity. }
  split; [exact Hinit |].
  intros n s Hn. unfold bind at 1, allocate.
  assert ((n <? 0) = false) as -> by lia.
  set (s0 := mk_proc _ _ _ _).
  destruct (Hinit n s0) as (s' & Hrun & Hold & Hlen & Hz & _).
  { cbn [s0 u_new]. rewrite length_replicate. lia. }
  exists s'. split; [exact Hrun |]. split; [| exact Hold].
  apply list_eq. intros i. cbn [s0 u_new] in Hlen. rewrite length_replicate in Hlen.
  destruct (decide (Z.of_nat i < n)) as [Hi | Hi].
  - rewrite Hz by assumption. symmetry. apply lookup_replicate_2. lia.
  - rewrite (lookup_ge_None_2 (u_new s')) by lia.
    symmetry. apply lookup_ge_None_2. rewrite length_replicate. lia.
Qed.

Lemma initialize_writes_u_new_only_witness :
  exists s',
    initialize 36 (mk_proc (replicate 36 1%float) (replicate 36 1%float) [] [])
    = (Done tt, s') /\
    u_old s' = replicate 36 1%float /\
    u_new s' !! 0%nat = Some 0%float.
Proof.
  destruct initialize_writes_u_new_only as [Hinit _].
  destruct (Hinit 36 (mk_proc (replicate 36 1%float) (replicate 36 1%float) [] []))
    as (s' & Hrun & Hold & _ & Hz & _).
  - cbn. lia.
  - exists s'. split; [exact Hrun |]. split; [exact Hold |].
    apply Hz. lia.
Defined.

(** ** Command line *)

Lemma ctor_wrong_count (args : list string) (s : proc) :
  length args <> 4%nat ->
  parameters_ctor args s =
  (Fault Terminated,
   mk_proc (u_new s) (u_old s) (inbox s)
     ((trace s ++ [EvCerr "ERROR: incorrect arguments"]) ++
      [EvCerr ("  " ++ nth 0 args ""%string ++ " <nx> <ny> <ni>")])).
Proof.
  intros H. unfold parameters_ctor. unfold bind at 1.
  assert ((Z.of_nat (length args) =? 4) = false) as -> by lia.
  reflexivity.
Qed.

Lemma ctor_three_values (args : list string) (s : proc) :
  length args = 4%nat ->
  parameters_ctor args s =
  (let* nx := parse (nth 1 args ""%string) in
   let* ny := parse (nth 2 args ""%string) in
   let* ni := parse (nth 3 args ""%string) in
   let dx := (1 / of_long nx)%float in
   let dt := (dx * dx / (5 * alpha))%float in
   ret (mk_parameters dx dt nx ny ni 0 1)) s.
Proof.
  intros H. unfold parameters_ctor. unfold bind at 1.
  rewrite H. reflexivity.
Qed.

Lemma ctor_throws (args : list string) (s : proc) :
  length args = 4%nat ->
  (exists i e, (1 <= i <= 3)%nat /\ stoll (nth i args ""%string) = Throws e) ->
  exists e, parameters_ctor args s = (Fault (Uncaught e), s).
Proof.
  intros Hlen (i & e & Hi & He). rewrite ctor_three_values by assumption.
  unfold bind, parse, raise, ret.
  destruct (stoll (nth 1 args ""%string)) as [v1 | e1] eqn:E1; [| eauto].
  destruct (stoll (nth 2 args ""%string)) as [v2 | e2] eqn:E2; [| eauto].
  destruct (stoll (nth 3 args ""%string)) as [v3 | e3] eqn:E3; [| eauto].
  assert (i = 1 \/ i = 2 \/ i = 3)%nat as [-> | [-> | ->]] by lia; congruence.
Qed.

Lemma ctor_constructs (args : list string) (s : proc) (vx vy vi : Z) :
  length args = 4%nat ->
  stoll (nth 1 args ""%string) = Parsed vx ->
  stoll (nth 2 args ""%string) = Parsed vy ->
  stoll (nth 3 args ""%string) = Parsed vi ->
  parameters_ctor args s =
  (Done (mk_parameters (1 / of_long vx)%float
           ((1 / of_long vx) * (1 / of_long vx) / (5 * alpha))%float
           vx vy vi 0 1), s).
Proof.
  intros Hlen E1 E2 E3. rewrite ctor_three_values by assumption.
  unfold bind, parse. rewrite E1, E2, E3. reflexivity.
Qed.

(** The claim of the specification fails on a value that is no number:
    the run is fatal, but nothing is written to the error stream by the
    program, the usage message included. *)
Lemma bad_number_prints_no_usage :
  stoll "abc" = Throws InvalidArgument /\
  main true w_abc = (Fault (Uncaught InvalidArgument), mk_proc [] [] [] []) /\
  ~ (exists line, In (EvCerr line) (trace (snd (main true w_abc)))).
Proof.
  split; [reflexivity |]. split; [reflexivity |].
  intros [line H]. vm_compute in H. exact H.
Qed.

(** C9, amended.  A command line that does not consist of exactly three
    values is fatal: the two lines of the usage message are written and the
    program terminates before anything else happens.  With three values, if
    [std::stoll] throws on one of them (no digits after the optional white
    space and sign, or a number out of range) the program terminates through
    the uncaught exception, before anything else happens and with no usage
    message; and if [std::stoll] accepts all three (characters after the
    digits are ignored) the parameters are constructed. *)
Theorem configuration_errors_are_fatal (NDEBUG : bool) (w : world) :
  (length (argv w) <> 4%nat ->
   main NDEBUG w =
   (Fault Terminated,
    mk_proc [] [] (incoming w)
      [EvCerr "ERROR: incorrect arguments";
       EvCerr ("  " ++ nth 0 (argv w) ""%string ++ " <nx> <ny> <ni>")])) /\
  (length (argv w) = 4%nat ->
   (exists i e, (1 <= i <= 3)%nat /\ stoll (nth i (argv w) ""%string) = Throws e) ->
   exists e, main NDEBUG w = (Fault (Uncaught e), mk_proc [] [] (incoming w) [])) /\
  (forall vx vy vi (s : proc),
     length (argv w) = 4%nat ->
     stoll (nth 1 (argv w) ""%string) = Parsed vx ->
     stoll (nth 2 (argv w) ""%string) = Parsed vy ->
     stoll (nth 3 (argv w) ""%string) = Parsed vi ->
     exists p,
       parameters_ctor (argv w) s = (Done p, s) /\
       nx p = vx /\ ny p = vy /\ ni p = vi /\ rank p = 0 /\ nranks p = 1 /\
       dx p = (1 / of_long vx)%float /\
       dt p = (dx p * dx p / (5 * alpha))%float).
Proof.
  split; [| split].
  - intros H. unfold main, main_body. unfold bind at 1.
    rewrite ctor_wrong_count by assumption. reflexivity.
  - intros Hlen Hbad. unfold main, main_body. unfold bind at 1.
    destruct (ctor_throws (argv w) (mk_proc [] [] (incoming w) []) Hlen Hbad) as [e ->].
    exists e. reflexivity.
  - intros vx vy vi s Hlen E1 E2 E3. eexists. split.
    + apply ctor_constructs; eassumption.
    + cbn. repeat split; reflexivity.
Qed.

Lemma configuration_errors_are_fatal_witness :
  (exists s, main true (mk_world ["heat"; "6"; "1"]%string 3 1 0 []) = (Fault Terminated, s)) /\
  (exists e s, main true (mk_world ["heat"; "4"; "x"; "1"]%string 3 1 0 [])
               = (Fault (Uncaught e), s)) /\
  (exists p, parameters_ctor ["heat"; "12abc"; " +6"; "1"]%string s46 = (Done p, s46)
             /\ nx p = 12 /\ ny p = 6).
Proof.
  split; [| split].
  - destruct (configuration_errors_are_fatal true
                (mk_world ["heat"; "6"; "1"]%string 3 1 0 [])) as (H & _ & _).
    eexists. apply H. cbn. lia.
  - destruct (configuration_errors_are_fatal true
                (mk_world ["heat"; "4"; "x"; "1"]%string 3 1 0 [])) as (_ & H & _).
    destruct H as [e He].
    + reflexivity.
    + exists 2%nat, InvalidArgument. split; [lia | reflexivity].
    + exists e. eexists. exact He.
  - destruct (configuration_errors_are_fatal true
                (mk_world ["heat"; "12abc"; " +6"; "1"]%string 3 1 0 [])) as (_ & _ & H).
    destruct (H 12 6 1 s46) as (p & Hp & Hx & Hy & _); try reflexivity.
    exists p. repeat split; assumption.
Defined.

(** ** The events of one iteration *)

Section Emits.

Context {A B : Type}.
Variable P : event -> Prop.

Lemma emits_silent (m : M A) :
  (forall s, trace (snd (m s)) = trace s) -> emits P m.
Proof.
  intros H s r s' E. exists []. rewrite app_nil_r.
  specialize (H s). rewrite E in H. split; [exact H | constructor].
Qed.

Lemma emits_ret (a : A) : emits P (ret a).
Proof. apply emits_silent. reflexivity. Qed.

Lemma emits_raise (f : fault) : emits P (@raise A f).
Proof. apply emits_silent. reflexivity. Qed.

Lemma emits_lift (o : outcome A) : emits P (lift o).
Proof. apply emits_silent. reflexivity. Qed.

Lemma emits_bind (m : M A) (k : A -> M B) :
  emits P m -> (forall a, emits P (k a)) -> emits P (bind m k).
Proof.
  intros Hm Hk s r s' E. unfold bind in E.
  destruct (m s) as [[a | f] s1] eqn:E1.
  - destruct (Hm _ _ _ E1) as (t1 & T1 & F1).
    destruct (Hk a _ _ _ E) as (t2 & T2 & F2).
    exists (t1 ++ t2). rewrite T2, T1, app_assoc.
    split; [reflexivity | apply Forall_app_2; assumption].
  - injection E as <- <-. exact (Hm _ _ _ E1).
Qed.

End Emits.

Lemma emits_log (P : event -> Prop) (e : event) : P e -> emits P (log e).
Proof.
  intros H s r s' E. unfold log in E. injection E as <- <-.
  exists [e]. split; [reflexivity | repeat constructor; exact H].
Qed.

Lemma emits_when (P : event -> Prop) (c : bool) (m : M unit) :
  emits P m -> emits P (when c m).
Proof. destruct c; [trivial | intros _; apply emits_ret]. Qed.

Lemma emits_load_old (P : event -> Prop) (off : Z) : emits P (load_old off).
Proof. apply emits_silent. reflexivity. Qed.

Lemma emits_load_new (P : event -> Prop) (off : Z) : emits P (load_new off).
Proof. apply emits_silent. reflexivity. Qed.

Lemma emits_store_old (P : event -> Prop) (off : Z) (v : double) :
  emits P (store_old off v).
Proof.
  apply emits_silent. intros s. unfold store_old. destruct (poke _ _ _); reflexivity.
Qed.

Lemma emits_store_new (P : event -> Prop) (off : Z) (v : double) :
  emits P (store_new off v).
Proof.
  apply emits_silent. intros s. unfold store_new. destruct (poke _ _ _); reflexivity.
Qed.

Lemma emits_stencil (NDEBUG : bool) (P : event -> Prop) (x y : Z) (p : parameters) :
  P (EvKernel x y) -> emits P (stencil NDEBUG x y p).
Proof.
  intros H. unfold stencil, idx.
  repeat first
    [ apply emits_bind; [| intros ?]
    | apply emits_log; exact H
    | apply emits_when
    | apply emits_lift
    | apply emits_load_old
    | apply emits_load_new
    | apply emits_store_old
    | apply emits_store_new
    | apply emits_ret ].
Qed.

Lemma emits_transform_reduce (P : event -> Prop) (f : Z -> M double) (ixs : list Z) :
  (forall i, i ∈ ixs -> emits P (f i)) ->
  forall acc, emits P (transform_reduce ixs acc f).
Proof.
  induction ixs as [| i ixs IH]; intros Hf acc; cbn [transform_reduce].
  - apply emits_ret.
  - apply emits_bind.
    + apply Hf. left.
    + intros e. apply IH. intros j Hj. apply Hf. right. exact Hj.
Qed.

Lemma emits_stencil_grid (NDEBUG : bool) (g : grid) (p : parameters) :
  is_long (x_start g) -> is_long (x_end g) ->
  is_long (y_start g) -> is_long (y_end g) ->
  is_long (x_end g - x_start g) ->
  0 <= y_end g - y_start g ->
  is_long ((x_end g - x_start g) * (y_end g - y_start g)) ->
  1 <= y_start g -> y_end g <= ny p - 1 ->
  emits (kernel_in_rows p (x_start g) (x_end g)) (stencil_grid NDEBUG g p).
Proof.
  intros Hxs Hxe Hys Hye Hdx Hdy Hn Hlo Hhi. unfold stencil_grid.
  assert (is_long (y_end g - y_start g)) as Hdy'
    by (unfold is_long, LONG_MIN, LONG_MAX in *; lia).
  rewrite !lsub_exact, lmul_exact by assumption.
  destruct (_ <? 0) eqn:En; [apply emits_raise |].
  apply emits_transform_reduce. intros i Hi.
  apply elem_of_seqZ in Hi.
  assert (0 < (x_end g - x_start g) * (y_end g - y_start g)) as Hpos by lia.
  assert (0 < y_end g - y_start g) as Hy0.
  { destruct (Z.eq_dec (y_end g - y_start g) 0) as [E0 | E0]; [| lia].
    rewrite E0, Z.mul_0_r in Hpos. lia. }
  assert (0 < x_end g - x_start g) as Hx0.
  { destruct (Z_lt_le_dec 0 (x_end g - x_start g)) as [Hc | Hc]; [exact Hc |].
    pose proof (Z.mul_nonpos_nonneg _ _ Hc Hdy). lia. }
  assert (proper_grid g) as Hg by (unfold proper_grid; tauto).
  destruct (split_exact g Hg i ltac:(lia)) as (-> & Hq & Hr).
  apply emits_stencil. exists (i / (y_end g - y_start g) + x_start g),
    (i mod (y_end g - y_start g) + y_start g).
  split; [reflexivity | lia].
Qed.

Lemma emits_impl {A} (P Q : event -> Prop) (m : M A) :
  (forall e, P e -> Q e) -> emits P m -> emits Q m.
Proof.
  intros HPQ Hm s r s' E. destruct (Hm _ _ _ E) as (t & T & F).
  exists t. split; [exact T | eapply Forall_impl; eauto].
Qed.

Lemma emits_mpi_send_old (P : event -> Prop) (off count dest tag : Z) :
  (forall data, P (EvSend dest tag data)) ->
  emits P (mpi_send_old off count dest tag).
Proof.
  intros H s r s' E. unfold mpi_send_old in E.
  destruct (count <? 0); [injection E as <- <-; exists []; rewrite app_nil_r; split; [reflexivity | constructor] |].
  destruct (_ && _).
  - injection E as <- <-. eexists [_]. split; [reflexivity | repeat constructor; apply H].
  - injection E as <- <-. exists []. rewrite app_nil_r. split; [reflexivity | constructor].
Qed.

Lemma emits_mpi_recv_old (P : event -> Prop) (off count src tag : Z) :
  (forall data, P (EvRecv src tag data)) ->
  emits P (mpi_recv_old off count src tag).
Proof.
  intros H s r s' E. unfold mpi_recv_old in E.
  assert (exists t, trace s = trace s ++ t /\ Forall P t) as Hsame
    by (exists []; rewrite app_nil_r; split; [reflexivity | constructor]).
  destruct (count <? 0); [injection E as <- <-; exact Hsame |].
  destruct (inbox s) as [| row rest]; [injection E as <- <-; exact Hsame |].
  destruct (count <? _); [injection E as <- <-; exact Hsame |].
  destruct (_ && _); [| injection E as <- <-; exact Hsame].
  injection E as <- <-. eexists [_]. split; [reflexivity | repeat constructor; apply H].
Qed.

Section Iteration.

Variable NDEBUG : bool.
Variable p : parameters.
Hypothesis Hfits : fits p.
Hypothesis Hny : 2 <= ny p.

Lemma fits_bounds :
  nx p + 2 <= LONG_MAX /\ ny p <= LONG_MAX /\
  - LONG_MAX <= (nx p - 2) * (ny p - 2) <= LONG_MAX.
Proof.
  destruct Hfits as (Hnx & Hny1 & Hext). unfold extent in Hext.
  assert (nx p + 2 <= (nx p + 2) * ny p) by nia.
  assert (ny p <= (nx p + 2) * ny p) by nia.
  assert ((nx p - 2) * (ny p - 2) <= (nx p + 2) * ny p) by nia.
  assert (- ((nx p + 2) * ny p) <= (nx p - 2) * (ny p - 2)) by nia.
  lia.
Qed.

Lemma emits_prev_boundary_row :
  emits (fun e => message_event e \/ kernel_in_rows p (nx p) (nx p + 1) e)
    (prev_boundary NDEBUG p).
Proof.
  destruct fits_bounds as (Bx & By & Bn). destruct Hfits as (Hnx & _ & _).
  unfold LONG_MAX in *. unfold prev_boundary.
  apply emits_bind.
  - apply emits_when, emits_bind.
    + apply emits_mpi_send_old. intros data. left. left. eauto.
    + intros _. apply emits_mpi_recv_old. intros data. left. right. eauto.
  - intros _.
    rewrite ladd_exact, lsub_exact by (unfold is_long, LONG_MIN, LONG_MAX; lia).
    eapply emits_impl;
      [| apply emits_stencil_grid; cbn [x_start x_end y_start y_end];
         unfold is_long, LONG_MIN, LONG_MAX; lia ].
    intros e He. right. exact He.
Qed.

Lemma emits_prev_boundary :
  emits (exchange_event p) (prev_boundary NDEBUG p).
Proof.
  eapply emits_impl; [| apply emits_prev_boundary_row].
  unfold exchange_event, message_event. intros e. tauto.
Qed.

Lemma emits_next_boundary_row :
  emits (fun e => message_event e \/ kernel_in_rows p 1 2 e)
    (next_boundary NDEBUG p).
Proof.
  destruct fits_bounds as (Bx & By & Bn). destruct Hfits as (Hnx & _ & _).
  unfold LONG_MAX in *. unfold next_boundary.
  apply emits_bind.
  - apply emits_when, emits_bind.
    + apply emits_mpi_recv_old. intros data. left. right. eauto.
    + intros _. apply emits_mpi_send_old. intros data. left. left. eauto.
  - intros _.
    rewrite lsub_exact by (unfold is_long, LONG_MIN, LONG_MAX; lia).
    eapply emits_impl;
      [| apply emits_stencil_grid; cbn [x_start x_end y_start y_end];
         unfold is_long, LONG_MIN, LONG_MAX; lia ].
    intros e He. right. exact He.
Qed.

Lemma emits_next_boundary :
  emits (exchange_event p) (next_boundary NDEBUG p).
Proof.
  eapply emits_impl; [| apply emits_next_boundary_row].
  unfold exchange_event, message_event. intros e. tauto.
Qed.

Lemma emits_internal :
  emits (interior_event p) (internal NDEBUG p).
Proof.
  destruct fits_bounds as (Bx & By & Bn). destruct Hfits as (Hnx & _ & _).
  unfold LONG_MAX in *. unfold internal.
  rewrite lsub_exact by (unfold is_long, LONG_MIN, LONG_MAX; lia).
  apply emits_stencil_grid; cbn [x_start x_end y_start y_end];
    unfold is_long, LONG_MIN, LONG_MAX; lia.
Qed.

Lemma emits_closing (energy : double) (it : Z) :
  emits closing_event
    (let* energy := mpi_reduce energy p in
     let* _ := when ((rank p =? 0) && (lrem it (nout p) =? 0))
                 (log (EvPrint (of_long it * dt p)%float energy)) in
     swap).
Proof.
  apply emits_bind.
  - unfold mpi_reduce. apply emits_bind.
    + apply emits_log. left. eauto.
    + intros _. destruct (_ && _); [| apply emits_ret].
      apply emits_silent. intros s. destruct (inbox s) as [| [| r [| ? ?]] rest]; reflexivity.
  - intros e. apply emits_bind.
    + apply emits_when, emits_log. right. left. eauto.
    + intros _. intros s r s' E. unfold swap in E. injection E as <- <-.
      exists [EvSwap]. split; [reflexivity |].
      apply Forall_singleton. right. right. reflexivity.
Qed.

End Iteration.

(** C5.  In every iteration of the driver, whatever its outcome, the trace
    grows by the events of the two boundary functions (messages and kernel
    invocations in the seam rows 1 and [nx]), then the kernel invocations
    of [internal] (rows [2 <= x < nx]), then the closing events.  Either
    the iteration stops inside a boundary function and [internal] never
    starts, or both boundary functions have returned, in a state [s2] whose
    trace holds all their events, and [internal] runs from [s2]. *)
Theorem exchanges_precede_interior
        (NDEBUG : bool) (p : parameters) (it : Z)
        (s : proc) (r : outcome unit) (s' : proc) :
  fits p -> 2 <= ny p ->
  time_step NDEBUG p it s = (r, s') ->
  exists t_ex t_int t_end,
    trace s' = trace s ++ t_ex ++ t_int ++ t_end /\
    Forall (exchange_event p) t_ex /\
    Forall (interior_event p) t_int /\
    Forall closing_event t_end /\
    ((exists f, r = Fault f /\ t_int = [] /\ t_end = []) \/
     (exists e1 e2 s1 s2 r3 s3,
        prev_boundary NDEBUG p s = (Done e1, s1) /\
        next_boundary NDEBUG p s1 = (Done e2, s2) /\
        trace s2 = trace s ++ t_ex /\
        internal NDEBUG p s2 = (r3, s3) /\
        trace s3 = trace s2 ++ t_int)).
Proof.
  intros Hfits Hny E. unfold time_step in E. unfold bind at 1 in E.
  destruct (prev_boundary NDEBUG p s) as [[e1 | f1] s1] eqn:E1;
    destruct (emits_prev_boundary NDEBUG p Hfits Hny _ _ _ E1) as (t1 & T1 & F1).
  2: { injection E as <- <-. exists t1, [], [].
       rewrite !app_nil_r. split; [assumption |]. split; [assumption |].
       split; [constructor |]. split; [constructor |]. left. eauto. }
  unfold bind at 1 in E.
  destruct (next_boundary NDEBUG p s1) as [[e2 | f2] s2] eqn:E2;
    destruct (emits_next_boundary NDEBUG p Hfits Hny _ _ _ E2) as (t2 & T2 & F2).
  2: { injection E as <- <-. exists (t1 ++ t2), [], [].
       rewrite !app_nil_r, T2, T1, app_assoc. split; [reflexivity |].
       split; [apply Forall_app_2; assumption |].
       split; [constructor |]. split; [constructor |]. left. eauto. }
  unfold bind at 1 in E.
  destruct (internal NDEBUG p s2) as [[e3 | f3] s3] eqn:E3;
    destruct (emits_internal NDEBUG p Hfits Hny _ _ _ E3) as (t3 & T3 & F3).
  2: { injection E as <- <-. exists (t1 ++ t2), t3, [].
       rewrite !app_nil_r. split; [rewrite T3, T2, T1, !app_assoc; reflexivity |].
       split; [apply Forall_app_2; assumption |].
       split; [assumption |]. split; [constructor |].
       right. exists e1, e2, s1, s2, (Fault f3), s3.
       repeat split; try assumption. rewrite T2, T1, app_assoc. reflexivity. }
  destruct (emits_closing p _ it _ _ _ E) as (t4 & T4 & F4).
  exists (t1 ++ t2), t3, t4.
  split; [rewrite T4, T3, T2, T1, !app_assoc; reflexivity |].
  split; [apply Forall_app_2; assumption |].
  split; [assumption |]. split; [assumption |].
  right. exists e1, e2, s1, s2, (Done e3), s3.
  repeat split; try assumption. rewrite T2, T1, app_assoc. reflexivity.
Qed.

Lemma exchanges_precede_interior_witness :
  exists t_ex t_int t_end,
    trace (snd (time_step true p46 0 s46)) = trace s46 ++ t_ex ++ t_int ++ t_end /\
    Forall (exchange_event p46) t_ex /\
    Forall (interior_event p46) t_int /\
    Forall closing_event t_end.
Proof.
  destruct (time_step true p46 0 s46) as [r s'] eqn:E.
  destruct (exchanges_precede_interior true p46 0 s46 r s')
    as (t_ex & t_int & t_end & T & Fex & Fint & Fend & _).
  - exact fits_p46.
  - cbn. lia.
  - exact E.
  - exists t_ex, t_int, t_end. cbn [snd]. repeat split; assumption.
Defined.

(** ** The seam rows of the two boundary functions *)

(** C2.  The lower exchange function [prev_boundary], which communicates
    with the rank below, invokes the kernel in the row [nx] only, the row
    next to the upper halo row, and the upper exchange function
    [next_boundary] in the row 1 only.  On a middle rank, [prev_boundary]
    receives the lower halo row (twos), then updates the row [nx = 4] from
    the upper halo row as it stood (sevens), which [next_boundary] only
    then refreshes (threes). *)
Theorem boundary_functions_swap_seams :
  (forall (NDEBUG : bool) (p : parameters),
     fits p -> 2 <= ny p ->
     emits (fun e => message_event e \/ kernel_in_rows p (nx p) (nx p + 1) e)
       (prev_boundary NDEBUG p) /\
     emits (fun e => message_event e \/ kernel_in_rows p 1 2 e)
       (next_boundary NDEBUG p)) /\
  (let s1 := snd (prev_boundary true p_mid s_mid) in
   let s2 := snd (next_boundary true p_mid s1) in
   trace s1 =
     [EvSend 0 0 (replicate 6 0%float); EvRecv 0 1 (replicate 6 2%float);
      EvKernel 4 1; EvKernel 4 2; EvKernel 4 3; EvKernel 4 4] /\
   cell p_mid (u_new s1) 4 2 = (gamma p_mid * 7)%float /\
   trace s2 =
     trace s1 ++
     [EvRecv 2 0 (replicate 6 3%float); EvSend 2 1 (replicate 6 0%float);
      EvKernel 1 1; EvKernel 1 2; EvKernel 1 3; EvKernel 1 4] /\
   cell p_mid (u_new s2) 1 2 = (gamma p_mid * 2)%float).
Proof.
  split.
  - intros NDEBUG p Hfits Hny. split.
    + apply emits_prev_boundary_row; assumption.
    + apply emits_next_boundary_row; assumption.
  - vm_compute. repeat split; reflexivity.
Qed.

(** ** The output file *)

(** C4.  On the run [heat 4 6 1] of a single process, compiled with NDEBUG:
    the single iteration writes a field whose row 1 holds [gamma] in the
    columns 1 to 4; after the swap at the end of the iteration this field is
    behind [u_old], and the block written at the byte offset 24 is read
    through [u_new]: it holds the 24 zeros of the field the iteration
    started from, not the field the iteration produced. *)
Theorem output_block_is_previous_field :
  let g := 0x1.999999999999ap-3%float in
  exists (e : double) (s_it s_end : proc),
    (let* e1 := prev_boundary true p46 in
     let* e2 := next_boundary true p46 in
     internal true p46) s46 = (Done e, s_it) /\
    take 24 (drop 6 (u_new s_it)) =
      [0%float; g; g; g; g; 0%float] ++ replicate 18 0%float /\
    main true w46 = (Done 0, s_end) /\
    u_old s_end = u_new s_it /\
    List.filter
      (fun ev => match ev with EvFileWriteAt _ (Doubles _) => true | _ => false end)
      (trace s_end) =
      [EvFileWriteAt 16 (Doubles [(of_long 1 * dt p46)%float]);
       EvFileWriteAt 24 (Doubles (replicate 24 0%float))] /\
    replicate 24 0%float <> take 24 (drop 6 (u_new s_it)).
Proof.
  cbv zeta. eexists _, _, _.
  split; [vm_compute; reflexivity |].
  split; [vm_compute; reflexivity |].
  split; [vm_compute; reflexivity |].
  split; [vm_compute; reflexivity |].
  split; [vm_compute; reflexivity |].
  intros H.
  apply (f_equal (fun l : list float =>
                    match l !! 1%nat with
                    | Some v => PrimFloat.ltb 0 v
                    | None => false
                    end)) in H.
  vm_compute in H. discriminate H.
Qed.

(** The events of one complete iteration, on the same run. *)
Lemma time_step_trace_example :
  trace (snd (time_step true p46 0 s46)) =
  [EvKernel 4 1; EvKernel 4 2; EvKernel 4 3; EvKernel 4 4;
   EvKernel 1 1; EvKernel 1 2; EvKernel 1 3; EvKernel 1 4;
   EvKernel 2 1; EvKernel 2 2; EvKernel 2 3; EvKernel 2 4;
   EvKernel 3 1; EvKernel 3 2; EvKernel 3 3; EvKernel 3 4;
   EvReduce 0x1.47ae147ae147cp-8%float;
   EvPrint 0%float 0x1.47ae147ae147cp-8%float; EvSwap].
Proof. vm_compute. reflexivity. Qed.

(** ** Complete iterations on a single process *)

Section Completes.

Variable p : parameters.
Hypothesis Hfits : fits p.

Lemma transform_reduce_run (xs ys dy : Z) (ixs : list Z) :
  (forall i, i ∈ ixs ->
     in_region p (fst (split xs ys dy i)) (snd (split xs ys dy i))) ->
  forall (acc : double) (s : proc),
    sized p s ->
    exists e s',
      transform_reduce ixs acc
        (fun i => match split xs ys dy i with
                  | (x, y) => stencil true x y p
                  end) s = (Done e, s') /\
      sized p s' /\ inbox s' = inbox s.
Proof.
  induction ixs as [| i ixs IH]; intros Hreg acc s Hs; cbn [transform_reduce].
  - exists acc, s. repeat split; apply Hs.
  - unfold bind at 1.
    pose proof (Hreg i ltac:(left)) as Hi.
    destruct (split xs ys dy i) as [x y]. cbn [fst snd] in Hi.
    rewrite (stencil_run true p Hfits x y s Hi Hs) by (left; reflexivity).
    set (s1 := mk_proc _ _ _ _).
    assert (sized p s1) as Hs1.
    { destruct Hs as [Hn Ho]. split; cbn [s1 u_new u_old].
      - rewrite length_insert. exact Hn.
      - rewrite inject_length. exact Ho. }
    match goal with
    | |- context [transform_reduce ixs ?a _ _] =>
        destruct (IH (fun j Hj => Hreg j ltac:(right; exact Hj)) a s1 Hs1)
          as (e & s' & Hrun & Hs' & Hib)
    end.
    exists e, s'. repeat split; try apply Hs'; assumption.
Qed.

Lemma stencil_grid_run (g : grid) (s : proc) :
  is_long (x_start g) -> is_long (x_end g) ->
  is_long (y_start g) -> is_long (y_end g) ->
  0 <= x_end g - x_start g -> 0 <= y_end g - y_start g ->
  is_long ((x_end g - x_start g) * (y_end g - y_start g)) ->
  1 <= x_start g -> x_end g <= nx p + 1 ->
  1 <= y_start g -> y_end g <= ny p - 1 ->
  sized p s ->
  exists e s',
    stencil_grid true g p s = (Done e, s') /\ sized p s' /\ inbox s' = inbox s.
Proof.
  intros Hxs Hxe Hys Hye Hdx Hdy Hn Hx1 Hx2 Hy1 Hy2 Hs. unfold stencil_grid.
  assert (is_long (x_end g - x_start g) /\ is_long (y_end g - y_start g)) as [Hdx' Hdy']
    by (unfold is_long, LONG_MIN, LONG_MAX in *; lia).
  rewrite !lsub_exact, lmul_exact by assumption.
  assert (0 <= (x_end g - x_start g) * (y_end g - y_start g)) as Hn0
    by (apply Z.mul_nonneg_nonneg; assumption).
  assert (((x_end g - x_start g) * (y_end g - y_start g) <? 0) = false) as -> by lia.
  apply transform_reduce_run; [| exact Hs].
  intros i Hi. apply elem_of_seqZ in Hi.
  assert (0 < y_end g - y_start g) as Hy0.
  { destruct (Z.eq_dec (y_end g - y_start g) 0) as [E0 | E0]; [| lia].
    rewrite E0, Z.mul_0_r in Hi. lia. }
  assert (0 < x_end g - x_start g) as Hx0.
  { destruct (Z.eq_dec (x_end g - x_start g) 0) as [E0 | E0]; [| lia].
    rewrite E0, Z.mul_0_l in Hi. lia. }
  assert (proper_grid g) as Hg by (unfold proper_grid; tauto).
  destruct (split_exact g Hg i ltac:(lia)) as (-> & Hq & Hr).
  cbn [fst snd]. unfold in_region. lia.
Qed.

Hypothesis Hnx : 2 <= nx p.
Hypothesis Hny : 2 <= ny p.
Hypothesis Hrank : rank p = 0.
Hypothesis Hnranks : nranks p = 1.

(** On a single process and with NDEBUG, an iteration started with buffers
    of the allocated extent runs to its end. *)
Lemma time_step_completes (it : Z) (s : proc) :
  sized p s ->
  exists s', time_step true p it s = (Done tt, s') /\
             sized p s' /\ inbox s' = inbox s.
Proof.
  intros Hs.
  destruct (fits_bounds p Hfits Hny) as (Bx & By & Bn). unfold LONG_MAX in *.
  unfold time_step.
  (* prev_boundary *)
  unfold bind at 1. unfold prev_boundary at 1. unfold bind at 1.
  rewrite Hrank. cbn [Z.gtb Z.compare when ret].
  rewrite ladd_exact, lsub_exact by (unfold is_long, LONG_MIN, LONG_MAX; lia).
  destruct (stencil_grid_run (mk_grid (nx p) (nx p + 1) 1 (ny p - 1)) s)
    as (e1 & s1 & -> & Hs1 & Hib1);
    cbn [x_start x_end y_start y_end];
    try (unfold is_long, LONG_MIN, LONG_MAX; lia); [exact Hs |].
  (* next_boundary *)
  unfold bind at 1. unfold next_boundary at 1. unfold bind at 1.
  rewrite Hrank, Hnranks. cbn [isub wrap32 Z.sub Z.add Z.pow Z.modulo Z.ltb Z.compare when ret].
  change (0 <? isub 1 1) with false. cbn [when ret].
  rewrite lsub_exact by (unfold is_long, LONG_MIN, LONG_MAX; lia).
  destruct (stencil_grid_run (mk_grid 1 2 1 (ny p - 1)) s1)
    as (e2 & s2 & -> & Hs2 & Hib2);
    cbn [x_start x_end y_start y_end];
    try (unfold is_long, LONG_MIN, LONG_MAX; lia); [exact Hs1 |].
  (* internal *)
  unfold bind at 1. unfold internal at 1.
  rewrite lsub_exact by (unfold is_long, LONG_MIN, LONG_MAX; lia).
  destruct (stencil_grid_run (mk_grid 2 (nx p) 1 (ny p - 1)) s2)
    as (e3 & s3 & -> & Hs3 & Hib3);
    cbn [x_start x_end y_start y_end];
    try (unfold is_long, LONG_MIN, LONG_MAX; lia); [exact Hs2 |].
  (* reduction, report, swap *)
  unfold bind at 1. unfold mpi_reduce at 1. unfold bind at 1. unfold log at 1.
  rewrite Hrank, Hnranks. cbn [Z.eqb negb andb ret].
  unfold bind at 1.
  destruct (lrem it (nout p) =? 0); cbn [when log ret swap u_new u_old inbox trace];
    eexists; (split; [reflexivity |]); cbn [u_new u_old inbox];
    (split; [split; apply Hs3 | congruence]).
Qed.

Lemma time_loop_completes (its : list Z) (s : proc) :
  sized p s ->
  exists s', time_loop true p its s = (Done tt, s') /\
             sized p s' /\ inbox s' = inbox s.
Proof.
  revert s. induction its as [| it its IH]; intros s Hs; cbn [time_loop].
  - exists s. repeat split; apply Hs.
  - unfold bind at 1.
    destruct (time_step_completes it s Hs) as (s1 & -> & Hs1 & Hib1).
    destruct (IH s1 Hs1) as (s' & Hrun & Hs' & Hib).
    exists s'. repeat split; try apply Hs'; congruence.
Qed.

End Completes.
(** ** Regions: enumeration *)

Lemma flat_rows (xs ys dy : Z) (k : nat) :
  0 < dy ->
  (fun i => (i / dy + xs, i mod dy + ys)) <$> seqZ 0 (Z.of_nat k * dy) =
  seqZ xs (Z.of_nat k) ≫= (fun x => (fun y => (x, y)) <$> seqZ ys dy).
Proof.
  intros Hdy. induction k as [| k IH].
  - reflexivity.
  - replace (Z.of_nat (S k) * dy) with (Z.of_nat k * dy + dy) by lia.
    rewrite seqZ_app, fmap_app, IH by nia.
    rewrite seqZ_S, bind_app. f_equal.
    cbn [mbind list_bind]. rewrite app_nil_r.
    replace (seqZ (0 + Z.of_nat k * dy) dy)
      with (Z.add (Z.of_nat k * dy) <$> seqZ 0 dy)
      by (rewrite fmap_add_seqZ; f_equal; lia).
    replace (seqZ ys dy) with (Z.add ys <$> seqZ 0 dy)
      by (rewrite fmap_add_seqZ; f_equal; lia).
    rewrite <- !list_fmap_compose.
    apply list_fmap_ext. intros j i Hj. apply lookup_seqZ in Hj as [-> Hj].
    cbn [compose].
    replace (Z.of_nat k * dy + (0 + Z.of_nat j)) with (Z.of_nat j + Z.of_nat k * dy) by lia.
    rewrite Z.div_add, Z.mod_add by lia.
    rewrite Z.div_small, Z.mod_small by lia.
    f_equal; lia.
Qed.

Lemma cells_empty_columns (g : grid) :
  y_end g - y_start g <= 0 -> cells g = [].
Proof.
  intros H. unfold cells. rewrite (seqZ_nil (y_start g)) by exact H.
  induction (seqZ (x_start g) _) as [| a l IH]; [reflexivity |].
  rewrite bind_cons, IH. reflexivity.
Qed.

Lemma flat_cells (g : grid) :
  0 <= x_end g - x_start g -> 0 <= y_end g - y_start g ->
  (fun i => (i / (y_end g - y_start g) + x_start g,
             i mod (y_end g - y_start g) + y_start g))
    <$> seqZ 0 ((x_end g - x_start g) * (y_end g - y_start g)) = cells g.
Proof.
  intros Hdx Hdy.
  destruct (Z.eq_dec (y_end g - y_start g) 0) as [E | E].
  - rewrite cells_empty_columns by lia. rewrite E, Z.mul_0_r. reflexivity.
  - rewrite <- (Z2Nat.id (x_end g - x_start g)) at 1 by exact Hdx.
    rewrite flat_rows by lia. rewrite Z2Nat.id by exact Hdx. reflexivity.
Qed.

Lemma elem_of_cells (g : grid) (x y : Z) :
  (x, y) ∈ cells g <-> in_grid g x y.
Proof.
  unfold cells, in_grid. rewrite list_elem_of_bind. split.
  - intros (a & Hy & Ha). apply list_elem_of_fmap in Hy as (b & E & Hb).
    injection E as -> ->. apply elem_of_seqZ in Ha, Hb. lia.
  - intros [Hx Hy]. exists x. split.
    + apply list_elem_of_fmap. exists y. split; [reflexivity |].
      apply elem_of_seqZ. lia.
    + apply elem_of_seqZ. lia.
Qed.

Lemma NoDup_cells (g : grid) : NoDup (cells g).
Proof.
  unfold cells. apply NoDup_bind.
  - intros x1 x2 c _ _ H1 H2.
    apply list_elem_of_fmap in H1 as (b1 & -> & _).
    apply list_elem_of_fmap in H2 as (b2 & E & _). congruence.
  - intros x _. apply NoDup_fmap_2; [| apply NoDup_seqZ].
    intros b1 b2 E. congruence.
  - apply NoDup_seqZ.
Qed.

(** ** The cells the injections prescribe *)

Lemma dirichlet_cases (p : parameters) (a b : Z) (v : double) :
  dirichlet p a b = Some v ->
  (1 <= a <= nx p /\ (b = 0 \/ b = ny p - 1) /\ v = 0%float) \/
  (1 <= b <= ny p - 2 /\ a = 0 /\ rank p = 0 /\ v = 1%float) \/
  (1 <= b <= ny p - 2 /\ a = nx p + 1 /\ rank p = isub (nranks p) 1 /\ v = 0%float).
Proof.
  unfold dirichlet.
  destruct ((1 <=? a) && (a <=? nx p) && ((b =? 0) || (b =? ny p - 1))) eqn:E1.
  { intros [= <-]. left. repeat split; try reflexivity; lia. }
  destruct ((1 <=? b) && (b <=? ny p - 2) && (a =? 0) && (rank p =? 0)) eqn:E2.
  { intros [= <-]. right. left. repeat split; try reflexivity; lia. }
  destruct ((1 <=? b) && (b <=? ny p - 2) && (a =? nx p + 1) &&
            (rank p =? isub (nranks p) 1)) eqn:E3.
  { intros [= <-]. right. right. repeat split; try reflexivity; lia. }
  discriminate.
Qed.

Lemma dirichlet_edge (p : parameters) (a b : Z) :
  1 <= a <= nx p -> b = 0 \/ b = ny p - 1 -> dirichlet p a b = Some 0%float.
Proof.
  intros Ha Hb. unfold dirichlet.
  assert ((1 <=? a) && (a <=? nx p) && ((b =? 0) || (b =? ny p - 1)) = true) as -> by lia.
  reflexivity.
Qed.

Lemma dirichlet_first (p : parameters) (b : Z) :
  1 <= b <= ny p - 2 -> rank p = 0 -> dirichlet p 0 b = Some 1%float.
Proof.
  intros Hb Hr. unfold dirichlet.
  assert ((1 <=? 0) && (0 <=? nx p) && ((b =? 0) || (b =? ny p - 1)) = false) as -> by lia.
  assert ((1 <=? b) && (b <=? ny p - 2) && (0 =? 0) && (rank p =? 0) = true) as -> by lia.
  reflexivity.
Qed.

Lemma dirichlet_last (p : parameters) (b : Z) :
  1 <= nx p -> 1 <= b <= ny p - 2 -> rank p = isub (nranks p) 1 ->
  dirichlet p (nx p + 1) b = Some 0%float.
Proof.
  intros Hnx Hb Hr. unfold dirichlet.
  assert ((1 <=? nx p + 1) && (nx p + 1 <=? nx p) && ((b =? 0) || (b =? ny p - 1)) = false)
    as -> by lia.
  assert ((1 <=? b) && (b <=? ny p - 2) && (nx p + 1 =? 0) && (rank p =? 0) = false)
    as -> by lia.
  assert ((1 <=? b) && (b <=? ny p - 2) && (nx p + 1 =? nx p + 1) &&
          (rank p =? isub (nranks p) 1) = true) as ->.
  { rewrite <- Hr, !Z.eqb_refl. lia. }
  reflexivity.
Qed.

Lemma dirichlet_inner (p : parameters) (a b : Z) :
  in_region p a b -> dirichlet p a b = None.
Proof.
  intros [Ha Hb]. destruct (dirichlet p a b) as [v |] eqn:E; [| reflexivity].
  apply dirichlet_cases in E. lia.
Qed.

Section Forced.

Variable p : parameters.
Hypothesis Hfits : fits p.

Lemma forced_or_kept_refl (u : buf) : forced_or_kept p u u.
Proof. intros a b _. left. reflexivity. Qed.

Lemma forced_or_kept_trans (u u1 u2 : buf) :
  forced_or_kept p u u1 -> forced_or_kept p u1 u2 -> forced_or_kept p u u2.
Proof.
  intros H1 H2 a b Hab.
  destruct (H2 a b Hab) as [E | E]; [| right; exact E].
  rewrite E. apply H1. exact Hab.
Qed.

Lemma insert_forced (c : bool) (t1 t2 : Z) (v : double) (u : buf) :
  Z.of_nat (length u) = extent p ->
  (c = true -> in_buffer p t1 t2 /\ dirichlet p t1 t2 = Some v) ->
  forced_or_kept p u (if c then <[pos p t1 t2 := v]> u else u).
Proof.
  intros Hl Hc a b [Ha Hb]. destruct c; [| left; reflexivity].
  destruct (Hc eq_refl) as ([Ht1 Ht2] & Hd).
  destruct (decide (pos p t1 t2 = pos p a b)) as [E | E].
  - apply (pos_eq_iff p u) in E as [-> ->]; try lia.
    right. rewrite cell_insert_eq by assumption. exact Hd.
  - left. unfold cell. rewrite list_lookup_insert_ne by exact E. reflexivity.
Qed.

Lemma inject_forced (x y : Z) (u : buf) :
  in_region p x y -> Z.of_nat (length u) = extent p ->
  forced_or_kept p u (inject p x y u).
Proof.
  intros [Hx Hy] Hl. destruct Hfits as (Hnx & Hny & _). unfold inject.
  repeat (eapply forced_or_kept_trans;
          [| apply insert_forced; [rewrite ?if_insert_length; exact Hl |]]).
  - apply forced_or_kept_refl.
  - intros E. split; [unfold in_buffer; lia |]. apply dirichlet_edge; lia.
  - intros E. split; [unfold in_buffer; lia |]. apply dirichlet_edge; lia.
  - intros E. apply andb_prop in E as [Er Ex].
    assert (x = 1) as -> by lia. replace (1 - 1) with 0 by lia.
    split; [unfold in_buffer; lia |]. apply dirichlet_first; lia.
  - intros E. apply andb_prop in E as [Er Ex].
    assert (x = nx p) as -> by lia.
    split; [unfold in_buffer; lia |]. apply dirichlet_last; lia.
Qed.

Lemma settled_kept (u u' : buf) (a b : Z) :
  forced_or_kept p u u' -> in_buffer p a b -> settled p u a b ->
  cell p u' a b = cell p u a b /\ settled p u' a b.
Proof.
  intros H Hab Hs. destruct (H a b Hab) as [E | E].
  - split; [exact E |]. intros v Hv. rewrite E. apply Hs. exact Hv.
  - pose proof (Hs _ E) as E'. split; [symmetry; exact E' |].
    intros v Hv. congruence.
Qed.

Lemma settled_same (u u' : buf) (a b : Z) :
  forced_or_kept p u u' -> in_buffer p a b -> settled p u a b ->
  cell p u' a b = cell p u a b.
Proof. intros H Hab Hs. exact (proj1 (settled_kept u u' a b H Hab Hs)). Qed.

(** The five cells the kernel reads hold their prescribed values once its
    injections are done. *)
Lemma inject_settles (x y : Z) (u : buf) (a b : Z) :
  in_region p x y -> Z.of_nat (length u) = extent p ->
  (a = x /\ (b = y \/ b = y + 1 \/ b = y - 1)) \/ (b = y /\ (a = x + 1 \/ a = x - 1)) ->
  settled p (inject p x y u) a b.
Proof.
  intros Hreg Hl Hab v Hv. pose proof Hreg as [Hx Hy].
  destruct Hfits as (Hnx & Hny & _).
  apply dirichlet_cases in Hv as [(Ha & Hb & ->) | [(Hb & Ha & Hr & ->) | (Hb & Ha & Hr & ->)]].
  - assert (a = x) as -> by lia.
    destruct Hb as [-> | ->].
    + apply inject_bottom; [assumption .. | lia].
    + apply inject_top; [assumption .. | lia].
  - subst a. assert (b = y) as -> by lia.
    apply inject_left; [assumption .. | lia].
  - subst a. assert (b = y) as -> by lia.
    apply inject_right; [assumption .. | lia].
Qed.

End Forced.

(** ** Sweeping the kernel over a list of cells *)

Lemma update_ext (p : parameters) (u u' : buf) (x y : Z) :
  cell p u' x y = cell p u x y ->
  cell p u' (x + 1) y = cell p u (x + 1) y ->
  cell p u' (x - 1) y = cell p u (x - 1) y ->
  cell p u' x (y + 1) = cell p u x (y + 1) ->
  cell p u' x (y - 1) = cell p u x (y - 1) ->
  update p u' x y = update p u x y.
Proof. unfold update. intros -> -> -> -> ->. reflexivity. Qed.

Lemma energy_sum_cons (p : parameters) (u : buf) (c : Z * Z) (L : list (Z * Z))
      (acc : double) :
  energy_sum p u (c :: L) acc =
  energy_sum p u L (acc + cell_energy p (cell p u (fst c) (snd c)))%float.
Proof. reflexivity. Qed.

Section Sweep.

Variable p : parameters.
Hypothesis Hfits : fits p.

Lemma sweep_cons (c : Z * Z) (L : list (Z * Z)) (s : proc) :
  sweep p (c :: L) s = sweep p L (kernel_step p s c).
Proof. reflexivity. Qed.

Lemma sweep_trace (L : list (Z * Z)) (s : proc) :
  trace (sweep p L s) = trace s ++ (kernel_event <$> L).
Proof.
  revert s. induction L as [| c L IH]; intros s.
  - cbn. rewrite app_nil_r. reflexivity.
  - rewrite sweep_cons, IH. cbn [kernel_step trace fmap list_fmap].
    rewrite <- app_assoc. reflexivity.
Qed.

Lemma sweep_inbox (L : list (Z * Z)) (s : proc) :
  inbox (sweep p L s) = inbox s.
Proof.
  revert s. induction L as [| c L IH]; intros s; [reflexivity |].
  rewrite sweep_cons, IH. reflexivity.
Qed.

Lemma kernel_step_sized (c : Z * Z) (s : proc) :
  sized p s -> sized p (kernel_step p s c).
Proof.
  intros [Hn Ho]. split; cbn [kernel_step u_new u_old].
  - rewrite length_insert. exact Hn.
  - rewrite inject_length. exact Ho.
Qed.

Lemma sweep_sized (L : list (Z * Z)) (s : proc) :
  sized p s -> sized p (sweep p L s).
Proof.
  revert s. induction L as [| c L IH]; intros s Hs; [exact Hs |].
  rewrite sweep_cons. apply IH, kernel_step_sized, Hs.
Qed.

Lemma region_in_buffer (x y : Z) : in_region p x y -> in_buffer p x y.
Proof. unfold in_region, in_buffer. lia. Qed.

(** The next buffer changes at the cells of [L] only. *)
Lemma sweep_frame (L : list (Z * Z)) (s : proc) (a b : Z) :
  Forall (fun c => in_region p (fst c) (snd c)) L ->
  in_buffer p a b -> (a, b) ∉ L ->
  cell p (u_new (sweep p L s)) a b = cell p (u_new s) a b.
Proof.
  revert s. induction L as [| c L IH]; intros s HL Hab Hn; [reflexivity |].
  apply Forall_cons in HL as [Hc HL]. apply not_elem_of_cons in Hn as [Hne Hn].
  rewrite sweep_cons, IH by assumption.
  cbn [kernel_step u_new]. unfold cell.
  rewrite list_lookup_insert_ne; [reflexivity |].
  intros E. apply (pos_eq_iff p []) in E as [E1 E2];
    try (destruct Hc, Hab; lia).
  apply Hne. destruct c. cbn [fst snd] in *. congruence.
Qed.

(** The current buffer changes at prescribed cells only, which then hold
    their prescribed value. *)
Lemma sweep_forced (L : list (Z * Z)) (s : proc) :
  Forall (fun c => in_region p (fst c) (snd c)) L -> sized p s ->
  forced_or_kept p (u_old s) (u_old (sweep p L s)).
Proof.
  revert s. induction L as [| c L IH]; intros s HL Hs.
  - apply forced_or_kept_refl.
  - apply Forall_cons in HL as [Hc HL]. rewrite sweep_cons.
    eapply forced_or_kept_trans; [| apply IH; [exact HL | apply kernel_step_sized, Hs]].
    cbn [kernel_step u_old]. apply inject_forced; [exact Hfits | exact Hc | apply Hs].
Qed.

(** The value a kernel invocation stores is the update of its cell read
    from the current buffer as the sweep leaves it. *)
Lemma kernel_value_final (c : Z * Z) (L : list (Z * Z)) (s : proc) :
  in_region p (fst c) (snd c) ->
  Forall (fun c => in_region p (fst c) (snd c)) L -> sized p s ->
  update p (u_old (sweep p L (kernel_step p s c))) (fst c) (snd c) =
  kernel_value p s c.
Proof.
  intros Hc HL Hs. unfold kernel_value.
  pose proof (sweep_forced L (kernel_step p s c) HL (kernel_step_sized c s Hs)) as Hf.
  cbn [kernel_step u_old] in Hf.
  destruct Hfits as (Hnx & Hny & _). pose proof Hc as [Hx Hy].
  apply update_ext;
    (apply (settled_same p _ _ _ _ Hf);
     [ unfold in_buffer; lia
     | apply inject_settles; [exact Hfits | exact Hc | apply Hs | lia] ]).
Qed.

Lemma sweep_written (c : Z * Z) (L : list (Z * Z)) (s : proc) :
  in_region p (fst c) (snd c) ->
  Forall (fun c => in_region p (fst c) (snd c)) L -> sized p s -> c ∉ L ->
  cell p (u_new (sweep p L (kernel_step p s c))) (fst c) (snd c) =
  kernel_value p s c.
Proof.
  intros Hc HL Hs Hn.
  rewrite sweep_frame;
    [ | exact HL | apply region_in_buffer, Hc | destruct c; exact Hn ].
  cbn [kernel_step u_new].
  destruct (region_in_buffer _ _ Hc) as [Ha Hb].
  apply cell_insert_eq; [apply Hs | exact Ha | exact Hb].
Qed.

(** After the sweep every cell of [L] holds, in the next buffer, its update
    read from the current buffer. *)
Lemma sweep_value (L : list (Z * Z)) (s : proc) (x y : Z) :
  NoDup L -> Forall (fun c => in_region p (fst c) (snd c)) L -> sized p s ->
  (x, y) ∈ L ->
  cell p (u_new (sweep p L s)) x y = update p (u_old (sweep p L s)) x y.
Proof.
  revert s. induction L as [| c L IH]; intros s Hnd HL Hs Hin.
  - apply elem_of_nil in Hin. contradiction.
  - apply NoDup_cons in Hnd as [Hn Hnd]. apply Forall_cons in HL as [Hc HL].
    rewrite sweep_cons. apply elem_of_cons in Hin as [<- | Hin].
    + rewrite (sweep_written (x, y)) by assumption.
      symmetry. apply (kernel_value_final (x, y)); assumption.
    + apply IH; try assumption. apply kernel_step_sized, Hs.
Qed.

(** The sum the sweep accumulates is the sum of the energies of the new
    values, in the order of [L]. *)
Lemma sweep_energy_sum (L : list (Z * Z)) (s : proc) (acc : double) :
  NoDup L -> Forall (fun c => in_region p (fst c) (snd c)) L -> sized p s ->
  sweep_energy p L s acc = energy_sum p (u_new (sweep p L s)) L acc.
Proof.
  revert s acc. induction L as [| c L IH]; intros s acc Hnd HL Hs; [reflexivity |].
  apply NoDup_cons in Hnd as [Hn Hnd]. apply Forall_cons in HL as [Hc HL].
  rewrite sweep_cons, energy_sum_cons. cbn [sweep_energy].
  rewrite sweep_written by assumption.
  apply IH; try assumption. apply kernel_step_sized, Hs.
Qed.

Variable NDEBUG : bool.

Lemma transform_reduce_sweep (xs ys dy : Z) (ixs : list Z) :
  Forall (fun i => in_region p (fst (split xs ys dy i)) (snd (split xs ys dy i)) /\
                   kernel_accepted NDEBUG p (fst (split xs ys dy i))) ixs ->
  forall (acc : double) (s : proc),
    sized p s ->
    transform_reduce ixs acc
      (fun i => match split xs ys dy i with
                | (x, y) => stencil NDEBUG x y p
                end) s
    = (Done (sweep_energy p (split xs ys dy <$> ixs) s acc),
       sweep p (split xs ys dy <$> ixs) s).
Proof.
  induction ixs as [| i ixs IH]; intros HL acc s Hs; [reflexivity |].
  apply Forall_cons in HL as [[Hi Ha] HL].
  cbn [transform_reduce fmap list_fmap]. rewrite sweep_cons. cbn [sweep_energy].
  unfold bind at 1.
  destruct (split xs ys dy i) as [x y] eqn:E. cbn [fst snd] in Hi, Ha.
  rewrite (stencil_run NDEBUG p Hfits x y s Hi Hs Ha).
  apply (IH HL). apply (kernel_step_sized (x, y)), Hs.
Qed.

Lemma inner_cells (g : grid) :
  inner_grid p g ->
  Forall (fun c => in_region p (fst c) (snd c)) (cells g).
Proof.
  intros (Hx & Hxe & Hy & Hye). apply Forall_forall. intros [x y] Hin.
  apply elem_of_cells in Hin as [Hcx Hcy]. cbn [fst snd]. unfold in_region. lia.
Qed.

Lemma inner_grid_long (g : grid) :
  inner_grid p g ->
  is_long (x_start g) /\ is_long (x_end g) /\
  is_long (y_start g) /\ is_long (y_end g) /\
  is_long (x_end g - x_start g) /\ is_long (y_end g - y_start g) /\
  is_long ((x_end g - x_start g) * (y_end g - y_start g)).
Proof.
  intros (Hx & Hxe & Hy & Hye). destruct Hfits as (Hnx & Hny & Hext).
  unfold extent in Hext.
  assert (nx p + 2 <= (nx p + 2) * ny p) by nia.
  assert (ny p <= (nx p + 2) * ny p) by nia.
  assert (0 <= (x_end g - x_start g) * (y_end g - y_start g)) by nia.
  assert ((x_end g - x_start g) * (y_end g - y_start g) <= (nx p + 2) * ny p) by nia.
  unfold is_long, LONG_MIN, LONG_MAX in *. lia.
Qed.

(** The region evaluator on a region of the local rows is the sweep of the
    kernel over its cells, row by row. *)
Lemma stencil_grid_sweep (g : grid) (s : proc) :
  inner_grid p g -> NDEBUG = true \/ x_end g < nx p -> sized p s ->
  stencil_grid NDEBUG g p s =
  (Done (sweep_energy p (cells g) s 0%float), sweep p (cells g) s).
Proof.
  intros Hg Hacc Hs.
  destruct (inner_grid_long g Hg) as (Lxs & Lxe & Lys & Lye & Ldx & Ldy & Ln).
  pose proof Hg as (Hx & Hxe & Hy & Hye).
  unfold stencil_grid.
  rewrite !lsub_exact, lmul_exact by assumption.
  assert (0 <= (x_end g - x_start g) * (y_end g - y_start g)) as Hn0 by nia.
  assert (((x_end g - x_start g) * (y_end g - y_start g) <? 0) = false) as -> by lia.
  assert (forall i, i ∈ seqZ 0 ((x_end g - x_start g) * (y_end g - y_start g)) ->
            split (x_start g) (y_start g) (y_end g - y_start g) i =
            (i / (y_end g - y_start g) + x_start g,
             i mod (y_end g - y_start g) + y_start g) /\
            0 <= i / (y_end g - y_start g) < x_end g - x_start g /\
            0 <= i mod (y_end g - y_start g) < y_end g - y_start g) as Hsplit.
  { intros i Hi. apply elem_of_seqZ in Hi.
    assert (0 < y_end g - y_start g) as Hy0 by nia.
    assert (0 < x_end g - x_start g) as Hx0 by nia.
    apply split_exact; [unfold proper_grid; tauto | lia]. }
  rewrite transform_reduce_sweep; [| | exact Hs].
  - assert (split (x_start g) (y_start g) (y_end g - y_start g) <$>
              seqZ 0 ((x_end g - x_start g) * (y_end g - y_start g))
            = cells g) as ->; [| reflexivity].
    rewrite <- (flat_cells g) by lia.
    apply list_fmap_ext.
    intros k i Hk. apply Hsplit. apply list_elem_of_lookup. eauto.
  - apply Forall_forall. intros i Hi. destruct (Hsplit i Hi) as (-> & Hq & Hr).
    cbn [fst snd]. split; [unfold in_region; lia |].
    destruct Hacc as [Hn | Hn]; [left; exact Hn | right; lia].
Qed.

End Sweep.

Lemma sweep_settles (p : parameters) (L : list (Z * Z)) (s : proc) (x y a b : Z) :
  fits p ->
  Forall (fun c => in_region p (fst c) (snd c)) L -> sized p s ->
  (x, y) ∈ L -> Z.abs (a - x) + Z.abs (b - y) <= 1 ->
  settled p (u_old (sweep p L s)) a b.
Proof.
  intros Hfits. revert s. induction L as [| c L IH]; intros s HL Hs Hin Hab.
  - apply elem_of_nil in Hin. contradiction.
  - apply Forall_cons in HL as [Hc HL]. rewrite sweep_cons.
    apply elem_of_cons in Hin as [<- | Hin].
    + cbn [fst snd] in Hc. pose proof Hc as [Hx Hy].
      pose proof Hfits as (Hnx & Hny & _).
      eapply settled_kept.
      * apply sweep_forced; [exact Hfits | exact HL | apply kernel_step_sized, Hs].
      * unfold in_buffer. lia.
      * cbn [kernel_step u_old fst snd].
        apply inject_settles; [exact Hfits | exact Hc | apply Hs | lia].
    + apply IH; try assumption. apply kernel_step_sized, Hs.
Qed.

(** ** The region evaluator *)



(** X2.  Under the same conditions, when the region evaluator returns,
    every cell of the region holds in the next buffer the 5-point update
    read from the current buffer as the evaluator leaves it; the next
    buffer is unchanged outside the region; the current buffer differs from
    what it was only at cells the boundary conditions prescribe, which then
    hold their prescribed value; and every cell read for the region holds
    its prescribed value if it has one. *)
Theorem region_evaluation_result
        (NDEBUG : bool) (p : parameters) (g : grid) (s : proc) :
  fits p -> inner_grid p g -> NDEBUG = true \/ x_end g < nx p -> sized p s ->
  exists e s',
    stencil_grid NDEBUG g p s = (Done e, s') /\
    (forall x y, in_grid g x y ->
       cell p (u_new s') x y = update p (u_old s') x y) /\
    (forall a b, in_buffer p a b -> ~ in_grid g a b ->
       cell p (u_new s') a b = cell p (u_new s) a b) /\
    forced_or_kept p (u_old s) (u_old s') /\
    (forall x y a b, in_grid g x y -> Z.abs (a - x) + Z.abs (b - y) <= 1 ->
       settled p (u_old s') a b).
Proof.
  intros Hfits Hg Hacc Hs. eexists _, _.
  split; [apply stencil_grid_sweep; assumption |].
  pose proof (inner_cells p g Hg) as HL.
  split; [| split; [| split]].
  - intros x y Hin. apply sweep_value; try assumption.
    + apply NoDup_cells.
    + apply elem_of_cells, Hin.
  - intros a b Hab Hout. apply sweep_frame; try assumption.
    intros Hin. apply Hout, elem_of_cells, Hin.
  - apply sweep_forced; assumption.
  - intros x y a b Hin Hab. apply (sweep_settles p (cells g) s x y); try assumption.
    apply elem_of_cells, Hin.
Qed.

Lemma region_evaluation_result_witness :
  exists e s',
    stencil_grid true (mk_grid 1 2 1 5) p46 s46 = (Done e, s') /\
    (forall x y, in_grid (mk_grid 1 2 1 5) x y ->
       cell p46 (u_new s') x y = update p46 (u_old s') x y) /\
    (forall a b, in_buffer p46 a b -> ~ in_grid (mk_grid 1 2 1 5) a b ->
       cell p46 (u_new s') a b = cell p46 (u_new s46) a b) /\
    forced_or_kept p46 (u_old s46) (u_old s') /\
    (forall x y a b, in_grid (mk_grid 1 2 1 5) x y ->
       Z.abs (a - x) + Z.abs (b - y) <= 1 -> settled p46 (u_old s') a b).
Proof.
  apply (region_evaluation_result true p46 (mk_grid 1 2 1 5) s46).
  - exact fits_p46.
  - unfold inner_grid. cbn. lia.
  - left. reflexivity.
  - exact sized_s46.
Defined.



(** ** Messages *)

Section Messages.

Variable p : parameters.
Hypothesis Hfits : fits p.
Hypothesis Hcount : ny p <= INT_MAX.

Lemma row_count_exact : row_count p = ny p.
Proof.
  destruct Hfits as (_ & Hny & _). unfold row_count, wrap32.
  unfold INT_MAX in Hcount. rewrite Z.mod_small; lia.
Qed.

Lemma received_length (u : buf) (x : Z) (r : list double) :
  Z.of_nat (length u) = extent p -> in_buffer p x 0 ->
  Z.of_nat (length r) <= ny p ->
  length (received p u x r) = length u.
Proof.
  intros Hl [Hx _] Hr. unfold received.
  rewrite !length_app, length_take, length_drop.
  unfold extent in Hl. nia.
Qed.

Lemma received_lookup_row (u : buf) (x b : Z) (r : list double) :
  Z.of_nat (length u) = extent p -> in_buffer p x 0 ->
  0 <= b < Z.of_nat (length r) -> Z.of_nat (length r) <= ny p ->
  received p u x r !! pos p x b = r !! Z.to_nat b.
Proof.
  intros Hl [Hx _] Hb Hr. unfold received, pos.
  unfold extent in Hl.
  assert (length (take (Z.to_nat (x * ny p)) u) = Z.to_nat (x * ny p)) as Ht
    by (rewrite length_take; nia).
  rewrite lookup_app_r by (rewrite Ht; nia).
  rewrite Ht, lookup_app_l by nia.
  f_equal. nia.
Qed.

Lemma received_lookup_other (u : buf) (x a b : Z) (r : list double) :
  Z.of_nat (length u) = extent p -> in_buffer p x 0 -> in_buffer p a b ->
  Z.of_nat (length r) <= ny p ->
  a <> x \/ Z.of_nat (length r) <= b ->
  received p u x r !! pos p a b = u !! pos p a b.
Proof.
  intros Hl [Hx _] [Ha Hb] Hr Hne. unfold received, pos.
  unfold extent in Hl.
  assert (length (take (Z.to_nat (x * ny p)) u) = Z.to_nat (x * ny p)) as Ht
    by (rewrite length_take; nia).
  destruct (Z_lt_le_dec (a * ny p + b) (x * ny p)) as [Hlo | Hhi].
  - rewrite lookup_app_l by (rewrite Ht; nia).
    rewrite lookup_take_lt by nia. reflexivity.
  - rewrite lookup_app_r by (rewrite Ht; nia).
    rewrite Ht.
    assert (x * ny p + Z.of_nat (length r) <= a * ny p + b) as Hge.
    { destruct Hne as [Hne | Hne]; [| assert (x <= a) by nia; nia].
      assert (x < a) by nia. nia. }
    rewrite lookup_app_r by nia.
    rewrite lookup_drop. f_equal. nia.
Qed.

Lemma received_other (u : buf) (x a b : Z) (r : list double) :
  Z.of_nat (length u) = extent p -> in_buffer p x 0 -> in_buffer p a b ->
  Z.of_nat (length r) <= ny p ->
  a <> x \/ Z.of_nat (length r) <= b ->
  cell p (received p u x r) a b = cell p u a b.
Proof.
  intros. unfold cell. rewrite received_lookup_other by assumption. reflexivity.
Qed.

(** The [ny] values that start at the offset of the row [x]. *)
Lemma row_window (u : buf) (x : Z) :
  Z.of_nat (length u) = extent p -> in_buffer p x 0 ->
  take (Z.to_nat (ny p)) (drop (Z.to_nat (x * ny p)) u) = row p u x.
Proof.
  intros Hl [Hx Hy]. unfold extent in Hl. apply list_eq. intros i. unfold row.
  rewrite list_lookup_fmap.
  destruct (Z_lt_le_dec (Z.of_nat i) (ny p)) as [Hi | Hi].
  - rewrite lookup_take_lt by lia. rewrite lookup_drop.
    rewrite lookup_seqZ_lt by lia. cbn [fmap option_fmap option_map].
    unfold cell, pos.
    replace (Z.to_nat (x * ny p + (0 + Z.of_nat i))) with (Z.to_nat (x * ny p) + i)%nat
      by nia.
    destruct (lookup_lt_is_Some_2 u (Z.to_nat (x * ny p) + i)) as [v ->]; [nia |].
    reflexivity.
  - rewrite lookup_take_ge by lia. rewrite lookup_seqZ_ge by lia. reflexivity.
Qed.

Lemma row_ext (u u' : buf) (x : Z) :
  (forall b, 0 <= b < ny p -> cell p u' x b = cell p u x b) ->
  row p u' x = row p u x.
Proof.
  intros H. unfold row. apply list_fmap_ext. intros i b Hb.
  apply lookup_seqZ in Hb as [-> Hb]. apply H. lia.
Qed.

(** A row that has just received a message of [ny] values holds them. *)
Lemma row_received (u : buf) (x : Z) (r : list double) :
  Z.of_nat (length u) = extent p -> in_buffer p x 0 ->
  Z.of_nat (length r) = ny p ->
  row p (received p u x r) x = r.
Proof.
  intros Hl Hx Hr. apply list_eq. intros i. unfold row.
  rewrite list_lookup_fmap.
  destruct (Z_lt_le_dec (Z.of_nat i) (ny p)) as [Hi | Hi].
  - rewrite lookup_seqZ_lt by lia. cbn [fmap option_fmap option_map].
    unfold cell. rewrite received_lookup_row by (assumption || lia).
    replace (Z.to_nat (0 + Z.of_nat i)) with i by lia.
    destruct (lookup_lt_is_Some_2 r i) as [v ->]; [lia | reflexivity].
  - rewrite lookup_seqZ_ge by lia. symmetry. apply lookup_ge_None_2. lia.
Qed.

Lemma mpi_send_old_run (s : proc) (off x dest tag : Z) :
  sized p s -> in_buffer p x 0 -> off = x * ny p ->
  mpi_send_old off (row_count p) dest tag s =
  (Done tt,
   mk_proc (u_new s) (u_old s) (inbox s)
     (trace s ++ [EvSend dest tag (row p (u_old s) x)])).
Proof.
  intros [_ Ho] Hx ->. destruct Hfits as (_ & Hny & _).
  rewrite <- (row_window (u_old s) x Ho Hx). destruct Hx as [Hx _].
  unfold extent in Ho. unfold mpi_send_old. rewrite row_count_exact.
  assert ((ny p <? 0) = false) as -> by lia.
  assert ((0 <=? x * ny p) && (x * ny p + ny p <=? Z.of_nat (length (u_old s))) = true)
    as -> by nia.
  reflexivity.
Qed.

Lemma mpi_recv_old_run (s : proc) (off x src tag : Z) (r : list double)
      (rest : list (list double)) :
  sized p s -> in_buffer p x 0 -> off = x * ny p ->
  inbox s = r :: rest -> Z.of_nat (length r) <= ny p ->
  mpi_recv_old off (row_count p) src tag s =
  (Done tt,
   mk_proc (u_new s) (received p (u_old s) x r) rest
     (trace s ++ [EvRecv src tag r])).
Proof.
  intros [_ Ho] [Hx _] -> Hin Hr. destruct Hfits as (_ & Hny & _).
  unfold extent in Ho. unfold mpi_recv_old. rewrite row_count_exact, Hin.
  assert ((ny p <? 0) = false) as -> by lia.
  assert ((ny p <? Z.of_nat (length r)) = false) as -> by lia.
  assert ((0 <=? x * ny p) &&
          (x * ny p + Z.of_nat (length r) <=? Z.of_nat (length (u_old s))) = true)
    as -> by nia.
  reflexivity.
Qed.

Lemma mpi_recv_old_blocks (s : proc) (off src tag : Z) :
  inbox s = [] -> mpi_recv_old off (row_count p) src tag s = (Fault Blocked, s).
Proof.
  intros Hin. destruct Hfits as (_ & Hny & _).
  unfold mpi_recv_old. rewrite row_count_exact, Hin.
  assert ((ny p <? 0) = false) as -> by lia. reflexivity.
Qed.

End Messages.

(** ** The two exchange functions *)

Lemma isub_exact (a : Z) : - 2 ^ 31 < a <= INT_MAX -> isub a 1 = a - 1.
Proof.
  unfold INT_MAX. intros H. unfold isub, wrap32. rewrite Z.mod_small; lia.
Qed.

Lemma iadd_exact (a : Z) : - 2 ^ 31 <= a < INT_MAX -> iadd a 1 = a + 1.
Proof.
  unfold INT_MAX. intros H. unfold iadd, wrap32. rewrite Z.mod_small; lia.
Qed.

Lemma dirichlet_halo_none (p : parameters) (a b : Z) :
  1 <= nx p ->
  (a = 0 /\ rank p <> 0) \/ (a = nx p + 1 /\ rank p <> isub (nranks p) 1) ->
  dirichlet p a b = None.
Proof.
  intros Hnx Ha. destruct (dirichlet p a b) as [v |] eqn:E; [| reflexivity].
  apply dirichlet_cases in E. lia.
Qed.

Section Seams.

Variable p : parameters.
Hypothesis Hfits : fits p.
Hypothesis Hny : 2 <= ny p.

Lemma upper_seam_inner : inner_grid p (upper_seam p).
Proof.
  destruct Hfits as (Hnx & _ & _). unfold inner_grid, upper_seam. cbn. lia.
Qed.

Lemma lower_seam_inner : inner_grid p (lower_seam p).
Proof.
  destruct Hfits as (Hnx & _ & _). unfold inner_grid, lower_seam. cbn. lia.
Qed.

Lemma interior_inner : 2 <= nx p -> inner_grid p (interior p).
Proof. intros Hnx. unfold inner_grid, interior. cbn. lia. Qed.

Lemma upper_seam_exact :
  mk_grid (nx p) (ladd (nx p) 1) 1 (lsub (ny p) 1) = upper_seam p.
Proof.
  destruct (fits_bounds p Hfits Hny) as (Bx & By & _).
  destruct Hfits as (Hnx & _ & _). unfold LONG_MAX in *.
  rewrite ladd_exact, lsub_exact by (unfold is_long, LONG_MIN, LONG_MAX; lia).
  reflexivity.
Qed.

Lemma lower_seam_exact : mk_grid 1 2 1 (lsub (ny p) 1) = lower_seam p.
Proof.
  destruct (fits_bounds p Hfits Hny) as (Bx & By & _). unfold LONG_MAX in *.
  rewrite lsub_exact by (unfold is_long, LONG_MIN, LONG_MAX; lia).
  reflexivity.
Qed.

Lemma interior_exact : mk_grid 2 (nx p) 1 (lsub (ny p) 1) = interior p.
Proof.
  destruct (fits_bounds p Hfits Hny) as (Bx & By & _). unfold LONG_MAX in *.
  rewrite lsub_exact by (unfold is_long, LONG_MIN, LONG_MAX; lia).
  reflexivity.
Qed.

(** [prev_boundary] on the first rank: no exchange. *)
Lemma prev_boundary_first (s : proc) :
  rank p <= 0 -> sized p s ->
  prev_boundary true p s =
  (Done (sweep_energy p (cells (upper_seam p)) s 0%float),
   sweep p (cells (upper_seam p)) s).
Proof.
  intros Hr Hs. unfold prev_boundary. unfold bind at 1.
  assert ((rank p >? 0) = false) as -> by lia. cbn [when ret].
  rewrite upper_seam_exact.
  apply stencil_grid_sweep; [exact Hfits | exact upper_seam_inner | left; reflexivity | exact Hs].
Qed.

(** [next_boundary] on the last rank: no exchange. *)
Lemma next_boundary_last (NDEBUG : bool) (s : proc) :
  NDEBUG = true \/ 2 < nx p ->
  0 < nranks p <= INT_MAX -> nranks p - 1 <= rank p -> sized p s ->
  next_boundary NDEBUG p s =
  (Done (sweep_energy p (cells (lower_seam p)) s 0%float),
   sweep p (cells (lower_seam p)) s).
Proof.
  intros Hacc Hn Hr Hs. unfold next_boundary. unfold bind at 1.
  rewrite isub_exact by (unfold INT_MAX in *; lia).
  assert ((rank p <? nranks p - 1) = false) as -> by lia. cbn [when ret].
  rewrite lower_seam_exact.
  apply stencil_grid_sweep; [exact Hfits | exact lower_seam_inner | exact Hacc | exact Hs].
Qed.

(** [internal], with the assertions compiled out. *)
Lemma internal_run (s : proc) :
  2 <= nx p -> sized p s ->
  internal true p s =
  (Done (sweep_energy p (cells (interior p)) s 0%float),
   sweep p (cells (interior p)) s).
Proof.
  intros Hnx Hs. unfold internal. rewrite interior_exact.
  apply stencil_grid_sweep;
    [exact Hfits | exact (interior_inner Hnx) | left; reflexivity | exact Hs].
Qed.

End Seams.

Section Exchange.

Variable p : parameters.
Hypothesis Hfits : fits p.
Hypothesis Hny : 2 <= ny p <= INT_MAX.

Let Hny2 : 2 <= ny p := proj1 Hny.

Lemma lower_exchanged_sized (s : proc) (r : list double) (rest : list (list double)) :
  sized p s -> Z.of_nat (length r) <= ny p -> sized p (lower_exchanged p s r rest).
Proof.
  intros [Hn Ho] Hr. destruct Hfits as (Hnx & Hny1 & _).
  split; cbn [lower_exchanged u_new u_old]; [exact Hn |].
  rewrite received_length; try assumption. unfold in_buffer. lia.
Qed.

Lemma upper_exchanged_sized (s : proc) (r : list double) (rest : list (list double)) :
  sized p s -> Z.of_nat (length r) <= ny p -> sized p (upper_exchanged p s r rest).
Proof.
  intros [Hn Ho] Hr. destruct Hfits as (Hnx & Hny1 & _).
  split; cbn [upper_exchanged u_new u_old]; [exact Hn |].
  rewrite received_length; try assumption. unfold in_buffer. lia.
Qed.

(** [prev_boundary] on another rank, when the message is there. *)
Lemma prev_boundary_exchanged (s : proc) (r : list double) (rest : list (list double)) :
  0 < rank p <= INT_MAX -> sized p s ->
  inbox s = r :: rest -> Z.of_nat (length r) <= ny p ->
  prev_boundary true p s =
  (Done (sweep_energy p (cells (upper_seam p)) (lower_exchanged p s r rest) 0%float),
   sweep p (cells (upper_seam p)) (lower_exchanged p s r rest)).
Proof.
  intros Hr Hs Hin Hlen. pose proof Hfits as (Hnx & Hny1 & _).
  unfold prev_boundary. unfold bind at 1.
  assert ((rank p >? 0) = true) as -> by lia. cbn [when].
  unfold bind at 1.
  rewrite (mpi_send_old_run p Hfits ltac:(lia) s (ny p) 1);
    [ | exact Hs | unfold in_buffer; lia | lia ].
  rewrite (mpi_recv_old_run p Hfits ltac:(lia) _ 0 0 _ _ r rest);
    [ | split; apply Hs | unfold in_buffer; lia | lia | exact Hin | exact Hlen ].
  cbn [u_new u_old inbox trace].
  rewrite isub_exact by (unfold INT_MAX in *; lia).
  rewrite <- app_assoc. cbn [app].
  fold (lower_exchanged p s r rest).
  rewrite (upper_seam_exact p Hfits Hny2).
  apply stencil_grid_sweep;
    [ exact Hfits | exact (upper_seam_inner p Hfits Hny2) | left; reflexivity
    | apply lower_exchanged_sized; assumption ].
Qed.

(** [next_boundary] on another rank, when the message is there. *)
Lemma next_boundary_exchanged (NDEBUG : bool) (s : proc) (r : list double)
      (rest : list (list double)) :
  NDEBUG = true \/ 2 < nx p ->
  0 <= rank p < nranks p - 1 -> nranks p <= INT_MAX -> sized p s ->
  inbox s = r :: rest -> Z.of_nat (length r) <= ny p ->
  next_boundary NDEBUG p s =
  (Done (sweep_energy p (cells (lower_seam p)) (upper_exchanged p s r rest) 0%float),
   sweep p (cells (lower_seam p)) (upper_exchanged p s r rest)).
Proof.
  intros Hacc Hr Hn Hs Hin Hlen. pose proof Hfits as (Hnx & Hny1 & Hext).
  unfold extent, LONG_MAX in Hext.
  assert (0 <= nx p * ny p <= (nx p + 2) * ny p) by nia.
  assert (0 <= (nx p + 1) * ny p <= (nx p + 2) * ny p) by nia.
  unfold next_boundary. unfold bind at 1.
  rewrite isub_exact by (unfold INT_MAX in *; lia).
  assert ((rank p <? nranks p - 1) = true) as -> by lia. cbn [when].
  unfold bind at 1.
  rewrite iadd_exact by (unfold INT_MAX in *; lia).
  rewrite (ladd_exact (nx p) 1), !lmul_exact
    by (unfold is_long, LONG_MIN, LONG_MAX; lia).
  rewrite (mpi_recv_old_run p Hfits ltac:(lia) s _ (nx p + 1) _ _ r rest);
    [ | exact Hs | unfold in_buffer; lia | lia | exact Hin | exact Hlen ].
  rewrite (mpi_send_old_run p Hfits ltac:(lia) _ _ (nx p));
    [ | split; cbn [u_new u_old]; [apply Hs |]
      | unfold in_buffer; lia | lia ].
  2: { rewrite received_length; [apply Hs | apply Hs | unfold in_buffer; lia | exact Hlen]. }
  cbn [u_new u_old inbox trace].
  rewrite <- app_assoc. cbn [app].
  rewrite (row_ext p (u_old s) (received p (u_old s) (nx p + 1) r) (nx p)).
  2: { intros b Hb. apply received_other; try assumption;
         [apply Hs | unfold in_buffer; lia | unfold in_buffer; lia | left; lia]. }
  fold (upper_exchanged p s r rest).
  rewrite (lower_seam_exact p Hfits Hny2).
  apply stencil_grid_sweep;
    [ exact Hfits | exact (lower_seam_inner p Hfits Hny2) | exact Hacc
    | apply upper_exchanged_sized; assumption ].
Qed.

End Exchange.

Lemma halo_row_kept (p : parameters) (u u' : buf) (a : Z) :
  fits p -> forced_or_kept p u u' ->
  (a = 0 /\ rank p <> 0) \/ (a = nx p + 1 /\ rank p <> isub (nranks p) 1) ->
  row p u' a = row p u a.
Proof.
  intros Hfits Hf Ha. pose proof Hfits as (Hnx & _ & _).
  apply row_ext. intros b Hb.
  destruct (Hf a b) as [E | E]; [unfold in_buffer; lia | exact E |].
  rewrite dirichlet_halo_none in E by assumption. discriminate E.
Qed.





(** X6.  When no message is waiting, [prev_boundary] on a rank that has a
    rank below it blocks in its receive after it has sent its row 1, and
    [next_boundary] on a rank that has a rank above it blocks in its
    receive before it sends anything; in both cases no kernel is invoked
    and the two buffers are left as they were.  This holds whether or not
    the assertions are compiled out. *)
Theorem exchange_blocks_without_message
        (NDEBUG : bool) (p : parameters) (s : proc) :
  fits p -> ny p <= INT_MAX -> ranked p -> sized p s -> inbox s = [] ->
  (0 < rank p ->
   prev_boundary NDEBUG p s =
   (Fault Blocked,
    mk_proc (u_new s) (u_old s) []
      (trace s ++ [EvSend (rank p - 1) 0 (row p (u_old s) 1)]))) /\
  (rank p < nranks p - 1 -> next_boundary NDEBUG p s = (Fault Blocked, s)).
Proof.
  intros Hfits Hny [Hr Hn] Hs Hin. pose proof Hfits as (Hnx & Hny1 & _). split.
  - intros Hlo. unfold prev_boundary. unfold bind at 1.
    assert ((rank p >? 0) = true) as -> by lia. cbn [when].
    unfold bind at 1.
    rewrite (mpi_send_old_run p Hfits Hny s (ny p) 1);
      [ | exact Hs | unfold in_buffer; lia | lia ].
    rewrite (mpi_recv_old_blocks p Hfits Hny) by exact Hin.
    rewrite isub_exact by (unfold INT_MAX in *; lia).
    rewrite Hin. reflexivity.
  - intros Hup. unfold next_boundary. unfold bind at 1.
    rewrite isub_exact by (unfold INT_MAX in *; lia).
    assert ((rank p <? nranks p - 1) = true) as -> by lia. cbn [when].
    unfold bind at 1.
    rewrite (mpi_recv_old_blocks p Hfits Hny) by exact Hin.
    reflexivity.
Qed.

Lemma exchange_blocks_without_message_witness :
  prev_boundary false p_mid (mk_proc (u_new s_mid) (u_old s_mid) [] []) =
  (Fault Blocked,
   mk_proc (u_new s_mid) (u_old s_mid) []
     [EvSend 0 0 (row p_mid (u_old s_mid) 1)]) /\
  next_boundary false p_mid (mk_proc (u_new s_mid) (u_old s_mid) [] []) =
  (Fault Blocked, mk_proc (u_new s_mid) (u_old s_mid) [] []).
Proof.
  destruct (exchange_blocks_without_message false p_mid
              (mk_proc (u_new s_mid) (u_old s_mid) [] [])) as [Hp Hn].
  - unfold fits, extent, LONG_MAX. cbn. lia.
  - unfold INT_MAX. cbn. lia.
  - unfold ranked, INT_MAX. cbn. lia.
  - split; reflexivity.
  - reflexivity.
  - split; [apply Hp; cbn; lia | apply Hn; cbn; lia].
Defined.

(** ** One iteration on a single process *)

Lemma sweep_app (p : parameters) (L1 L2 : list (Z * Z)) (s : proc) :
  sweep p (L1 ++ L2) s = sweep p L2 (sweep p L1 s).
Proof. unfold sweep. apply foldl_app. Qed.

Lemma energy_sum_ext (p : parameters) (u u' : buf) (L : list (Z * Z)) (acc : double) :
  (forall x y, (x, y) ∈ L -> cell p u' x y = cell p u x y) ->
  energy_sum p u' L acc = energy_sum p u L acc.
Proof.
  revert acc. induction L as [| [x y] L IH]; intros acc H; [reflexivity |].
  rewrite !energy_sum_cons. cbn [fst snd].
  rewrite (H x y) by left. apply IH. intros a b Hab. apply H. right. exact Hab.
Qed.

(** The end of an iteration on a process that takes part in no exchange
    of the reduction. *)
Lemma closing_run (p : parameters) (it : Z) (e : double) (s : proc) :
  (rank p =? 0) && negb (nranks p =? 1) = false ->
  (let* energy := mpi_reduce e p in
   let* _ := when ((rank p =? 0) && (lrem it (nout p) =? 0))
               (log (EvPrint (of_long it * dt p)%float energy)) in
   swap) s = (Done tt, closed p it e e s).
Proof.
  intros Hroot. unfold bind at 1. unfold mpi_reduce. unfold bind at 1.
  unfold log at 1. rewrite Hroot. cbn [ret]. unfold bind at 1.
  unfold closed, report.
  destruct ((rank p =? 0) && (lrem it (nout p) =? 0));
    unfold when, log, ret, swap; cbn [u_new u_old inbox trace];
    rewrite <- ?app_assoc; reflexivity.
Qed.

Section Single.

Variable p : parameters.
Hypothesis Hfits : fits p.
Hypothesis Hnx : 2 <= nx p.
Hypothesis Hny : 2 <= ny p.

Lemma iteration_cells_region (x y : Z) :
  (x, y) ∈ iteration_cells p <-> in_region p x y.
Proof.
  unfold iteration_cells. rewrite !elem_of_app, !elem_of_cells.
  unfold in_grid, in_region, upper_seam, lower_seam, interior. cbn. lia.
Qed.

Lemma iteration_cells_inner :
  Forall (fun c => in_region p (fst c) (snd c)) (iteration_cells p).
Proof.
  apply Forall_forall. intros [x y] H. apply iteration_cells_region, H.
Qed.

Lemma iteration_cells_NoDup : NoDup (iteration_cells p).
Proof.
  unfold iteration_cells. apply NoDup_app. split; [apply NoDup_cells |].
  split; [| apply NoDup_app; split; [apply NoDup_cells |]; split; [| apply NoDup_cells]].
  - intros [x y] H1 H2. apply elem_of_cells in H1.
    apply elem_of_app in H2 as [H2 | H2]; apply elem_of_cells in H2;
      unfold in_grid, upper_seam, lower_seam, interior in *; cbn in *; lia.
  - intros [x y] H1 H2. apply elem_of_cells in H1, H2.
    unfold in_grid, lower_seam, interior in *; cbn in *; lia.
Qed.

Hypothesis Hrank : rank p = 0.
Hypothesis Hnranks : nranks p = 1.

(** The loop body on a single process, with the assertions compiled out:
    the three sweeps, then the reduction, the report and the swap. *)
Lemma time_step_single (it : Z) (s : proc) :
  sized p s ->
  let s1 := sweep p (cells (upper_seam p)) s in
  let s2 := sweep p (cells (lower_seam p)) s1 in
  let e := (0 + sweep_energy p (cells (upper_seam p)) s 0
              + sweep_energy p (cells (lower_seam p)) s1 0
              + sweep_energy p (cells (interior p)) s2 0)%float in
  time_step true p it s =
  (Done tt, closed p it e e (sweep p (iteration_cells p) s)).
Proof.
  intros Hs s1 s2 e. unfold time_step.
  unfold bind at 1. rewrite (prev_boundary_first p Hfits Hny s) by (lia || assumption).
  fold s1. assert (sized p s1) as Hs1 by apply sweep_sized, Hs.
  unfold bind at 1.
  rewrite (next_boundary_last p Hfits Hny true s1)
    by (try assumption; try (left; reflexivity); unfold INT_MAX; lia).
  fold s2. assert (sized p s2) as Hs2 by apply sweep_sized, Hs1.
  unfold bind at 1. rewrite (internal_run p Hfits Hny s2) by assumption.
  fold e. rewrite closing_run by (rewrite Hnranks; apply andb_false_r).
  unfold iteration_cells. rewrite !sweep_app. reflexivity.
Qed.

Lemma time_step_jacobi (it : Z) (s : proc) :
  sized p s ->
  exists s',
    time_step true p it s = (Done tt, s') /\
    (forall x y, in_region p x y ->
       cell p (u_old s') x y = update p (u_new s') x y) /\
    (forall a b, in_buffer p a b -> ~ in_region p a b ->
       cell p (u_old s') a b = cell p (u_new s) a b) /\
    forced_or_kept p (u_old s) (u_new s') /\
    (3 <= ny p -> forall a b, in_buffer p a b -> settled p (u_new s') a b) /\
    trace s' =
      trace s ++ (kernel_event <$> iteration_cells p) ++
      EvReduce (iteration_energy p (u_old s')) ::
      report p it (iteration_energy p (u_old s')) ++ [EvSwap] /\
    inbox s' = inbox s /\ sized p s'.
Proof.
  intros Hs. pose proof (time_step_single it s Hs) as Hrun. cbv zeta in Hrun.
  pose proof iteration_cells_inner as HL. pose proof iteration_cells_NoDup as Hnd.
  set (s1 := sweep p (cells (upper_seam p)) s) in *.
  set (s2 := sweep p (cells (lower_seam p)) s1) in *.
  set (sw := sweep p (iteration_cells p) s) in *.
  assert (sized p s1) as Hs1 by apply sweep_sized, Hs.
  assert (sized p s2) as Hs2 by apply sweep_sized, Hs1.
  assert (sw = sweep p (cells (interior p)) s2) as Hsw3
    by (unfold sw, iteration_cells; rewrite !sweep_app; reflexivity).
  assert (sw = sweep p (cells (lower_seam p) ++ cells (interior p)) s1) as Hsw2
    by (unfold sw, iteration_cells; rewrite !sweep_app; reflexivity).
  pose proof (upper_seam_inner p Hfits Hny) as Gu.
  pose proof (lower_seam_inner p Hfits Hny) as Gl.
  pose proof (interior_inner p Hny Hnx) as Gi.
  unfold iteration_cells in Hnd.
  apply NoDup_app in Hnd as (Hnd1 & Hd1 & Hnd23).
  apply NoDup_app in Hnd23 as (Hnd2 & Hd2 & Hnd3).
  assert (sweep_energy p (cells (upper_seam p)) s 0 =
          energy_sum p (u_new sw) (cells (upper_seam p)) 0) as E1.
  { rewrite sweep_energy_sum; [| exact Hnd1 | apply inner_cells, Gu | exact Hs].
    fold s1. symmetry. apply energy_sum_ext. intros x y Hxy. rewrite Hsw2.
    apply sweep_frame.
    - apply Forall_app. split; apply inner_cells; assumption.
    - apply region_in_buffer.
      apply (proj1 (Forall_forall _ _) (inner_cells p _ Gu) (x, y) Hxy).
    - apply Hd1, Hxy. }
  assert (sweep_energy p (cells (lower_seam p)) s1 0 =
          energy_sum p (u_new sw) (cells (lower_seam p)) 0) as E2.
  { rewrite sweep_energy_sum; [| exact Hnd2 | apply inner_cells, Gl | exact Hs1].
    fold s2. symmetry. apply energy_sum_ext. intros x y Hxy. rewrite Hsw3.
    apply sweep_frame.
    - apply inner_cells; assumption.
    - apply region_in_buffer.
      apply (proj1 (Forall_forall _ _) (inner_cells p _ Gl) (x, y) Hxy).
    - apply Hd2, Hxy. }
  assert (sweep_energy p (cells (interior p)) s2 0 =
          energy_sum p (u_new sw) (cells (interior p)) 0) as E3.
  { rewrite sweep_energy_sum; [| exact Hnd3 | apply inner_cells, Gi | exact Hs2].
    rewrite <- Hsw3. reflexivity. }
  rewrite E1, E2, E3 in Hrun. fold (iteration_energy p (u_new sw)) in Hrun.
  eexists. split; [exact Hrun |]. unfold closed. cbn [u_new u_old inbox trace].
  split; [| split; [| split; [| split; [| split; [| split]]]]].
  - intros x y Hxy. apply sweep_value; try assumption.
    + exact iteration_cells_NoDup.
    + apply iteration_cells_region, Hxy.
  - intros a b Hab Hout. apply sweep_frame; try assumption.
    intros Hin. apply Hout, iteration_cells_region, Hin.
  - apply sweep_forced; assumption.
  - intros Hny3 a b Hab v Hv. pose proof Hv as Hc.
    apply dirichlet_cases in Hc
      as [(Ha & Hb & _) | [(Hb & Ha & _ & _) | (Hb & Ha & _ & _)]].
    + destruct Hb as [-> | ->].
      * apply (sweep_settles p (iteration_cells p) s a 1 a 0); try assumption;
          [apply iteration_cells_region; unfold in_region; lia | lia].
      * apply (sweep_settles p (iteration_cells p) s a (ny p - 2) a (ny p - 1));
          try assumption;
          [apply iteration_cells_region; unfold in_region; lia | lia].
    + apply (sweep_settles p (iteration_cells p) s 1 b a b); try assumption;
        [apply iteration_cells_region; unfold in_region; lia | lia].
    + apply (sweep_settles p (iteration_cells p) s (nx p) b a b); try assumption;
        [apply iteration_cells_region; unfold in_region; lia | lia].
  - unfold sw at 1. rewrite sweep_trace, <- app_assoc. reflexivity.
  - apply sweep_inbox.
  - destruct (sweep_sized p (iteration_cells p) s Hs) as [Hn Ho].
    split; assumption.
Qed.

Lemma time_loop_app (its1 its2 : list Z) (s : proc) :
  time_loop true p (its1 ++ its2) s =
  (let* _ := time_loop true p its1 in time_loop true p its2) s.
Proof.
  revert s. induction its1 as [| it its1 IH]; intros s.
  - reflexivity.
  - cbn [app time_loop]. unfold bind.
    destruct (time_step true p it s) as [[[] | f] s1]; [| reflexivity].
    rewrite IH. reflexivity.
Qed.

Lemma time_loop_single (its : list Z) (s : proc) :
  sized p s ->
  exists s',
    time_loop true p its s = (Done tt, s') /\
    sized p s' /\ inbox s' = inbox s /\
    List.filter (fun e => match e with EvSwap => true | _ => false end) (trace s') =
      List.filter (fun e => match e with EvSwap => true | _ => false end) (trace s) ++
      replicate (length its) EvSwap /\
    (its <> [] ->
     (forall x y, in_region p x y ->
        cell p (u_old s') x y = update p (u_new s') x y) /\
     (3 <= ny p -> forall a b, in_buffer p a b -> settled p (u_new s') a b)).
Proof.
  revert s. induction its as [| it its IH] using rev_ind; intros s Hs.
  - exists s. split; [reflexivity |]. split; [exact Hs |]. split; [reflexivity |].
    split; [cbn [length replicate]; rewrite app_nil_r; reflexivity |].
    intros H. contradiction.
  - rewrite time_loop_app. unfold bind at 1.
    destruct (IH s Hs) as (s1 & -> & Hs1 & Hib1 & Hsw1 & _).
    cbn [time_loop]. unfold bind at 1.
    destruct (time_step_jacobi it s1 Hs1)
      as (s' & -> & Hval & _ & _ & Hset & Htr & Hib & Hs').
    exists s'. split; [reflexivity |]. split; [exact Hs' |].
    split; [congruence |]. split; [| intros _; split; assumption].
    rewrite Htr, !List.filter_app, Hsw1. cbn [List.filter].
    rewrite List.filter_app.
    assert (forall L, List.filter
              (fun e => match e with EvSwap => true | _ => false end)
              (kernel_event <$> L) = []) as ->
      by (intros L; induction L as [| c L IHL]; [reflexivity | exact IHL]).
    assert (List.filter (fun e => match e with EvSwap => true | _ => false end)
              (report p it (iteration_energy p (u_old s'))) = []) as ->
      by (unfold report; destruct (_ && _); reflexivity).
    cbn [app List.filter]. rewrite length_app. cbn [length].
    rewrite Nat.add_1_r, replicate_S_end, <- ?app_assoc. reflexivity.
Qed.

End Single.

(** X7.  On a single process and with the assertions compiled out, an
    iteration of the time loop on a grid of at least two local rows and two
    columns is one Jacobi step: when it ends, the buffer behind [u_old]
    holds at every cell of the rows [1 .. nx] and columns [1 .. ny - 2] the
    5-point update read from the buffer behind [u_new]; outside these cells
    it is what the buffer behind [u_new] was before the iteration.  The
    buffer behind [u_new] is the field the iteration started from, changed
    only at cells the boundary conditions prescribe, and, when [ny >= 3],
    every prescribed cell of it holds its value.  No message is taken. *)
Theorem iteration_is_jacobi_step (p : parameters) (it : Z) (s : proc) :
  fits p -> 2 <= nx p -> 2 <= ny p -> rank p = 0 -> nranks p = 1 ->
  sized p s ->
  exists s',
    time_step true p it s = (Done tt, s') /\
    (forall x y, in_region p x y ->
       cell p (u_old s') x y = update p (u_new s') x y) /\
    (forall a b, in_buffer p a b -> ~ in_region p a b ->
       cell p (u_old s') a b = cell p (u_new s) a b) /\
    forced_or_kept p (u_old s) (u_new s') /\
    (3 <= ny p -> forall a b, in_buffer p a b -> settled p (u_new s') a b) /\
    inbox s' = inbox s /\ sized p s'.
Proof.
  intros Hfits Hnx Hny Hrank Hnranks Hs.
  destruct (time_step_jacobi p Hfits Hnx Hny Hrank Hnranks it s Hs)
    as (s' & Hrun & Hval & Hfr & Hfo & Hset & _ & Hib & Hs').
  exists s'. repeat split; try assumption; apply Hs'.
Qed.

Lemma iteration_is_jacobi_step_witness :
  exists s',
    time_step true p46 0 s46 = (Done tt, s') /\
    (forall x y, in_region p46 x y ->
       cell p46 (u_old s') x y = update p46 (u_new s') x y) /\
    (forall a b, in_buffer p46 a b -> ~ in_region p46 a b ->
       cell p46 (u_old s') a b = cell p46 (u_new s46) a b) /\
    forced_or_kept p46 (u_old s46) (u_new s') /\
    (3 <= ny p46 -> forall a b, in_buffer p46 a b -> settled p46 (u_new s') a b) /\
    inbox s' = inbox s46 /\ sized p46 s'.
Proof.
  apply (iteration_is_jacobi_step p46 0 s46).
  - exact fits_p46.
  - cbn. lia.
  - cbn. lia.
  - reflexivity.
  - reflexivity.
  - exact sized_s46.
Defined.



(** X9.  On a single process and with the assertions compiled out, the
    time loop on a grid of at least two local rows and two columns runs
    every iteration to its end, whatever their number: no access leaves the
    buffers, no message is awaited, the buffers keep their extent, and the
    buffers are swapped once per iteration.  After at least one iteration
    the two buffers are related by the Jacobi step of the last one. *)
Theorem time_loop_runs_to_completion (p : parameters) (its : list Z) (s : proc) :
  fits p -> 2 <= nx p -> 2 <= ny p -> rank p = 0 -> nranks p = 1 ->
  sized p s ->
  exists s',
    time_loop true p its s = (Done tt, s') /\
    sized p s' /\ inbox s' = inbox s /\
    List.filter (fun e => match e with EvSwap => true | _ => false end) (trace s') =
      List.filter (fun e => match e with EvSwap => true | _ => false end) (trace s) ++
      replicate (length its) EvSwap /\
    (its <> [] ->
     (forall x y, in_region p x y ->
        cell p (u_old s') x y = update p (u_new s') x y) /\
     (3 <= ny p -> forall a b, in_buffer p a b -> settled p (u_new s') a b)).
Proof.
  intros Hfits Hnx Hny Hrank Hnranks Hs.
  exact (time_loop_single p Hfits Hnx Hny Hrank Hnranks its s Hs).
Qed.

Lemma time_loop_runs_to_completion_witness :
  exists s',
    time_loop true p46 (seqZ 0 3) s46 = (Done tt, s') /\
    sized p46 s' /\ inbox s' = inbox s46 /\
    List.filter (fun e => match e with EvSwap => true | _ => false end) (trace s') =
      List.filter (fun e => match e with EvSwap => true | _ => false end) (trace s46) ++
      replicate (length (seqZ 0 3)) EvSwap /\
    (seqZ 0 3 <> [] ->
     (forall x y, in_region p46 x y ->
        cell p46 (u_old s') x y = update p46 (u_new s') x y) /\
     (3 <= ny p46 -> forall a b, in_buffer p46 a b -> settled p46 (u_new s') a b)).
Proof.
  apply (time_loop_runs_to_completion p46 (seqZ 0 3) s46).
  - exact fits_p46.
  - cbn. lia.
  - cbn. lia.
  - reflexivity.
  - reflexivity.
  - exact sized_s46.
Defined.

(** ** One iteration on any rank *)

Section Ranks.

Variable p : parameters.
Hypothesis Hfits : fits p.
Hypothesis Hnx : 2 <= nx p.
Hypothesis Hny : 2 <= ny p <= INT_MAX.
Hypothesis Hranked : ranked p.

(** [prev_boundary]: the exchange with the rank below, if there is one,
    leaves a state [sA] from which the row [nx] is swept. *)
Lemma prev_phase (s : proc) (r : list double) (rest : list (list double)) :
  sized p s -> Z.of_nat (length r) <= ny p ->
  inbox s = (if 0 <? rank p then [r] else []) ++ rest ->
  exists sA,
    prev_boundary true p s =
      (Done (sweep_energy p (cells (upper_seam p)) sA 0%float),
       sweep p (cells (upper_seam p)) sA) /\
    sized p sA /\ u_new sA = u_new s /\ inbox sA = rest /\
    (forall a b, in_buffer p a b -> 1 <= a ->
       cell p (u_old sA) a b = cell p (u_old s) a b).
Proof.
  intros Hs Hr Hin. destruct Hranked as [Hrk Hn]. pose proof Hfits as (Hnx1 & Hny1 & _).
  destruct (0 <? rank p) eqn:E; cbn [app] in Hin.
  - exists (lower_exchanged p s r rest).
    split; [apply (prev_boundary_exchanged p Hfits Hny s r rest); (assumption || lia) |].
    split; [apply lower_exchanged_sized; assumption |].
    split; [reflexivity |]. split; [reflexivity |].
    intros a b Hab Ha. cbn [lower_exchanged u_old].
    apply received_other; try assumption;
      [apply Hs | unfold in_buffer; lia | left; lia].
  - exists s.
    split; [apply (prev_boundary_first p Hfits (proj1 Hny) s); (assumption || lia) |].
    split; [exact Hs |]. split; [reflexivity |]. split; [exact Hin |].
    intros a b _ _. reflexivity.
Qed.

(** [next_boundary]: the exchange with the rank above, if there is one,
    leaves a state [sB] from which the row 1 is swept. *)
Lemma next_phase (s : proc) (r : list double) (rest : list (list double)) :
  sized p s -> Z.of_nat (length r) <= ny p ->
  inbox s = (if rank p <? nranks p - 1 then [r] else []) ++ rest ->
  exists sB,
    next_boundary true p s =
      (Done (sweep_energy p (cells (lower_seam p)) sB 0%float),
       sweep p (cells (lower_seam p)) sB) /\
    sized p sB /\ u_new sB = u_new s /\ inbox sB = rest /\
    (forall a b, in_buffer p a b -> a <= nx p ->
       cell p (u_old sB) a b = cell p (u_old s) a b) /\
    (nranks p - 1 <= rank p -> sB = s) /\
    (rank p < nranks p - 1 -> Z.of_nat (length r) = ny p ->
     row p (u_old sB) (nx p + 1) = r).
Proof.
  intros Hs Hr Hin. destruct Hranked as [Hrk Hn]. pose proof Hfits as (Hnx1 & Hny1 & _).
  destruct (rank p <? nranks p - 1) eqn:E; cbn [app] in Hin.
  - exists (upper_exchanged p s r rest).
    split; [apply (next_boundary_exchanged p Hfits Hny true s r rest);
            (assumption || lia || (left; reflexivity)) |].
    split; [apply upper_exchanged_sized; assumption |].
    split; [reflexivity |]. split; [reflexivity |].
    split; [| split; [lia |]].
    + intros a b Hab Ha. cbn [upper_exchanged u_old].
      apply received_other; try assumption;
        [apply Hs | unfold in_buffer; lia | left; lia].
    + intros _ Hlen. cbn [upper_exchanged u_old].
      apply row_received; [apply Hs | unfold in_buffer; lia | exact Hlen].
  - exists s.
    split; [apply (next_boundary_last p Hfits (proj1 Hny) true s);
            (assumption || lia || (left; reflexivity)) |].
    split; [exact Hs |]. split; [reflexivity |]. split; [exact Hin |].
    split; [intros a b _ _; reflexivity |]. split; [reflexivity | lia].
Qed.

(** The reduction, the report and the swap. *)
Lemma closing_phase (it : Z) (e v : double) (s : proc) (rest : list (list double)) :
  inbox s = (if (rank p =? 0) && negb (nranks p =? 1) then [[v]] else []) ++ rest ->
  exists s',
    (let* energy := mpi_reduce e p in
     let* _ := when ((rank p =? 0) && (lrem it (nout p) =? 0))
                 (log (EvPrint (of_long it * dt p)%float energy)) in
     swap) s = (Done tt, s') /\
    u_new s' = u_old s /\ u_old s' = u_new s /\ inbox s' = rest.
Proof.
  intros Hin.
  destruct ((rank p =? 0) && negb (nranks p =? 1)) eqn:E; cbn [app] in Hin.
  - unfold bind at 1. unfold mpi_reduce. unfold bind at 1. unfold log at 1.
    rewrite E. cbn [inbox]. rewrite Hin. unfold bind at 1.
    destruct ((rank p =? 0) && (lrem it (nout p) =? 0));
      unfold when, log, ret, swap; cbn [u_new u_old inbox trace];
      (eexists; split; [reflexivity |]; cbn [u_new u_old inbox];
       repeat split; reflexivity).
  - rewrite closing_run by exact E. eexists. split; [reflexivity |].
    unfold closed. cbn [u_new u_old inbox]. repeat split. exact Hin.
Qed.

(** The three sweeps of an iteration, around the two exchanges. *)
Lemma time_step_phases
      (it : Z) (s : proc) (r1 r2 : list double) (v : double)
      (rest : list (list double)) :
  sized p s ->
  Z.of_nat (length r1) <= ny p -> Z.of_nat (length r2) <= ny p ->
  inbox s =
    (if 0 <? rank p then [r1] else []) ++
    (if rank p <? nranks p - 1 then [r2] else []) ++
    (if (rank p =? 0) && negb (nranks p =? 1) then [[v]] else []) ++ rest ->
  exists sA sB s',
    let s1 := sweep p (cells (upper_seam p)) sA in
    let s3 := sweep p (cells (lower_seam p) ++ cells (interior p)) sB in
    time_step true p it s = (Done tt, s') /\
    u_new s' = u_old s3 /\ u_old s' = u_new s3 /\ inbox s' = rest /\
    sized p sA /\ sized p sB /\
    (forall a b, in_buffer p a b -> 1 <= a ->
       cell p (u_old sA) a b = cell p (u_old s) a b) /\
    u_new sB = u_new s1 /\
    (forall a b, in_buffer p a b -> a <= nx p ->
       cell p (u_old sB) a b = cell p (u_old s1) a b) /\
    (nranks p - 1 <= rank p -> sB = s1) /\
    (rank p < nranks p - 1 -> Z.of_nat (length r2) = ny p ->
     row p (u_old sB) (nx p + 1) = r2).
Proof.
  intros Hs Hr1 Hr2 Hin. unfold time_step.
  destruct (prev_phase s r1 _ Hs Hr1 Hin) as (sA & E1 & HsA & HnA & HinA & HoA).
  unfold bind at 1. rewrite E1.
  assert (sized p (sweep p (cells (upper_seam p)) sA)) as Hs1 by apply sweep_sized, HsA.
  destruct (next_phase (sweep p (cells (upper_seam p)) sA) r2
              ((if (rank p =? 0) && negb (nranks p =? 1) then [[v]] else []) ++ rest)
              Hs1 Hr2)
    as (sB & E2 & HsB & HnB & HinB & HoB & HlastB & HrowB);
    [rewrite sweep_inbox; exact HinA |].
  unfold bind at 1. rewrite E2.
  assert (sized p (sweep p (cells (lower_seam p)) sB)) as Hs2 by apply sweep_sized, HsB.
  unfold bind at 1. rewrite (internal_run p Hfits (proj1 Hny) _ Hnx Hs2).
  rewrite <- sweep_app.
  destruct (closing_phase it
              (0 + sweep_energy p (cells (upper_seam p)) sA 0 +
               sweep_energy p (cells (lower_seam p)) sB 0 +
               sweep_energy p (cells (interior p))
                 (sweep p (cells (lower_seam p)) sB) 0)%float v
              (sweep p (cells (lower_seam p) ++ cells (interior p)) sB) rest)
    as (s' & E4 & Hn' & Ho' & Hin');
    [rewrite sweep_inbox; exact HinB |].
  exists sA, sB, s'. cbv zeta.
  split; [exact E4 |]. split; [exact Hn' |]. split; [exact Ho' |].
  split; [exact Hin' |]. split; [exact HsA |]. split; [exact HsB |].
  split; [exact HoA |]. split; [exact HnB |]. split; [exact HoB |].
  split; [exact HlastB | exact HrowB].
Qed.

Lemma seam_and_interior :
  NoDup (cells (lower_seam p) ++ cells (interior p)) /\
  Forall (fun c => in_region p (fst c) (snd c))
    (cells (lower_seam p) ++ cells (interior p)) /\
  (forall x y, (x, y) ∈ cells (lower_seam p) ++ cells (interior p) <->
               in_region p x y /\ x < nx p).
Proof.
  pose proof (iteration_cells_NoDup p Hnx) as Hnd. unfold iteration_cells in Hnd.
  apply NoDup_app in Hnd as (_ & _ & Hnd). split; [exact Hnd |].
  assert (forall x y, (x, y) ∈ cells (lower_seam p) ++ cells (interior p) <->
                      in_region p x y /\ x < nx p) as Hin.
  { intros x y. rewrite elem_of_app, !elem_of_cells.
    unfold in_grid, in_region, lower_seam, interior. cbn. lia. }
  split; [| exact Hin].
  apply Forall_forall. intros [x y] Hxy. apply Hin in Hxy. apply Hxy.
Qed.

Lemma iteration_update_ranked
      (it : Z) (s : proc) (r1 r2 : list double) (v : double)
      (rest : list (list double)) :
  sized p s ->
  Z.of_nat (length r1) <= ny p -> Z.of_nat (length r2) = ny p ->
  inbox s =
    (if 0 <? rank p then [r1] else []) ++
    (if rank p <? nranks p - 1 then [r2] else []) ++
    (if (rank p =? 0) && negb (nranks p =? 1) then [[v]] else []) ++ rest ->
  exists s',
    time_step true p it s = (Done tt, s') /\
    (forall x y, in_region p x y -> x < nx p \/ rank p = nranks p - 1 ->
       cell p (u_old s') x y = update p (u_new s') x y) /\
    (rank p < nranks p - 1 ->
     row p (u_new s') (nx p + 1) = r2 /\
     forall y, 1 <= y <= ny p - 2 ->
       cell p (u_old s') (nx p) y =
       ((1 - 4 * gamma p) * cell p (u_new s') (nx p) y +
        gamma p * (cell p (u_old s) (nx p + 1) y + cell p (u_new s') (nx p - 1) y +
                   cell p (u_new s') (nx p) (y + 1) +
                   cell p (u_new s') (nx p) (y - 1)))%float) /\
    inbox s' = rest.
Proof.
  intros Hs Hr1 Hr2 Hin.
  destruct (time_step_phases it s r1 r2 v rest Hs Hr1 ltac:(lia) Hin)
    as (sA & sB & s' & Hrun & Hn' & Ho' & Hin' & HsA & HsB & HoA & HnB & HoB
        & HlastB & HrowB).
  cbv zeta in Hrun, Hn', Ho'.
  destruct seam_and_interior as (Hnd23 & HL23 & Hin23).
  destruct Hranked as [Hrk Hnr]. pose proof Hfits as (Hnx1 & Hny1 & _).
  pose proof (upper_seam_inner p Hfits (proj1 Hny)) as Gu.
  pose proof (inner_cells p _ Gu) as HL1.
  set (s1 := sweep p (cells (upper_seam p)) sA) in *.
  set (s3 := sweep p (cells (lower_seam p) ++ cells (interior p)) sB) in *.
  assert (sized p s1) as Hs1 by apply sweep_sized, HsA.
  pose proof (sweep_forced p Hfits _ sB HL23 HsB) as Hf3. fold s3 in Hf3.
  exists s'. split; [exact Hrun |]. rewrite Hn', Ho'.
  split; [| split; [| exact Hin']].
  - intros x y Hreg [Hx | Hlast].
    + apply sweep_value; try assumption. apply Hin23. split; assumption.
    + assert (s3 = sweep p (iteration_cells p) sA) as ->.
      { unfold s3. rewrite (HlastB ltac:(lia)). unfold s1, iteration_cells.
        rewrite <- sweep_app. reflexivity. }
      apply sweep_value; try assumption.
      * apply iteration_cells_NoDup; assumption.
      * apply iteration_cells_inner; (assumption || lia).
      * apply iteration_cells_region; (assumption || lia).
  - intros Hup. split.
    + rewrite (halo_row_kept p (u_old sB) (u_old s3) (nx p + 1) Hfits Hf3).
      * apply HrowB; assumption.
      * right. rewrite isub_exact by (unfold INT_MAX in *; lia). lia.
    + intros y Hy.
      assert ((nx p, y) ∈ cells (upper_seam p)) as Hin1
        by (apply elem_of_cells; unfold in_grid, upper_seam; cbn; lia).
      assert (cell p (u_new s3) (nx p) y = update p (u_old s1) (nx p) y) as ->.
      { unfold s3. rewrite sweep_frame;
          [ | exact HL23 | unfold in_buffer; lia
            | intros Hc; apply Hin23 in Hc; lia ].
        rewrite HnB. apply sweep_value; try assumption. apply NoDup_cells. }
      assert (forall a b, Z.abs (a - nx p) + Z.abs (b - y) <= 1 -> a <= nx p ->
                cell p (u_old s3) a b = cell p (u_old s1) a b) as Hsame.
      { intros a b Hab Ha.
        assert (in_buffer p a b) as Hbuf by (unfold in_buffer; lia).
        rewrite <- (HoB a b Hbuf Ha).
        apply (settled_same p _ _ _ _ Hf3 Hbuf).
        intros w Hw. rewrite (HoB a b Hbuf Ha).
        apply (sweep_settles p (cells (upper_seam p)) sA (nx p) y a b);
          assumption. }
      unfold update.
      rewrite <- (Hsame (nx p) y), <- (Hsame (nx p - 1) y),
        <- (Hsame (nx p) (y + 1)), <- (Hsame (nx p) (y - 1)) by lia.
      assert (cell p (u_old s1) (nx p + 1) y = cell p (u_old s) (nx p + 1) y)
        as ->; [| reflexivity].
      assert (in_buffer p (nx p + 1) y) as Hbuf by (unfold in_buffer; lia).
      rewrite <- (HoA (nx p + 1) y Hbuf ltac:(lia)).
      destruct (sweep_forced p Hfits _ sA HL1 HsA (nx p + 1) y Hbuf) as [E | E];
        [exact E |].
      rewrite dirichlet_halo_none in E; [discriminate E | lia |].
      right. rewrite isub_exact by (unfold INT_MAX in *; lia). lia.
Qed.

End Ranks.

(** X10.  With the assertions compiled out, an iteration on any rank of a
    grid of at least two local rows and two columns runs to its end when
    the messages it waits for are there, and it consumes exactly those: one
    row from the rank below if there is one, then one row from the rank
    above if there is one, then, on the root of several ranks, the
    contribution of the other ranks to the reduction.  The buffers keep
    their extent. *)
Theorem iteration_consumes_its_messages
        (p : parameters) (it : Z) (s : proc) (r1 r2 : list double) (v : double)
        (rest : list (list double)) :
  fits p -> 2 <= nx p -> 2 <= ny p <= INT_MAX -> ranked p ->
  sized p s ->
  Z.of_nat (length r1) <= ny p -> Z.of_nat (length r2) <= ny p ->
  inbox s =
    (if 0 <? rank p then [r1] else []) ++
    (if rank p <? nranks p - 1 then [r2] else []) ++
    (if (rank p =? 0) && negb (nranks p =? 1) then [[v]] else []) ++ rest ->
  exists s',
    time_step true p it s = (Done tt, s') /\ sized p s' /\ inbox s' = rest.
Proof.
  intros Hfits Hnx Hny Hranked Hs Hr1 Hr2 Hin.
  destruct (time_step_phases p Hfits Hnx Hny Hranked it s r1 r2 v rest Hs Hr1 Hr2 Hin)
    as (sA & sB & s' & Hrun & Hn' & Ho' & Hin' & _ & HsB & _).
  cbv zeta in Hrun, Hn', Ho'.
  exists s'. split; [exact Hrun |]. split; [| exact Hin'].
  destruct (sweep_sized p (cells (lower_seam p) ++ cells (interior p)) sB HsB)
    as [Hn3 Ho3].
  split; congruence.
Qed.

Lemma iteration_consumes_its_messages_witness :
  exists s',
    time_step true p_mid 0 s_mid = (Done tt, s') /\ sized p_mid s' /\ inbox s' = [].
Proof.
  apply (iteration_consumes_its_messages p_mid 0 s_mid
           (replicate 6 2%float) (replicate 6 3%float) 0%float []).
  - unfold fits, extent, LONG_MAX. cbn. lia.
  - cbn. lia.
  - unfold INT_MAX. cbn. lia.
  - unfold ranked, INT_MAX. cbn. lia.
  - split; reflexivity.
  - cbn. lia.
  - cbn. lia.
  - reflexivity.
Defined.

(** X19.  With the assertions compiled out, on any rank whose messages are
    there, an iteration leaves behind [u_old] a field that holds the
    5-point update read from the buffer behind [u_new] at every cell of the
    rows [1 .. nx - 1], and on the last rank also at the cells of the row
    [nx].  On a rank that has a rank above it, the cells of the row [nx]
    are instead updated from the halo row [nx + 1] as it stood before the
    iteration, although at the end of the iteration that halo row holds the
    values just received from the rank above: the row [nx] is evaluated
    before the upper halo row is received. *)
Theorem seam_row_uses_previous_halo
        (p : parameters) (it : Z) (s : proc) (r1 r2 : list double) (v : double)
        (rest : list (list double)) :
  fits p -> 2 <= nx p -> 2 <= ny p <= INT_MAX -> ranked p ->
  sized p s ->
  Z.of_nat (length r1) <= ny p -> Z.of_nat (length r2) = ny p ->
  inbox s =
    (if 0 <? rank p then [r1] else []) ++
    (if rank p <? nranks p - 1 then [r2] else []) ++
    (if (rank p =? 0) && negb (nranks p =? 1) then [[v]] else []) ++ rest ->
  exists s',
    time_step true p it s = (Done tt, s') /\
    (forall x y, in_region p x y -> x < nx p \/ rank p = nranks p - 1 ->
       cell p (u_old s') x y = update p (u_new s') x y) /\
    (rank p < nranks p - 1 ->
     row p (u_new s') (nx p + 1) = r2 /\
     forall y, 1 <= y <= ny p - 2 ->
       cell p (u_old s') (nx p) y =
       ((1 - 4 * gamma p) * cell p (u_new s') (nx p) y +
        gamma p * (cell p (u_old s) (nx p + 1) y + cell p (u_new s') (nx p - 1) y +
                   cell p (u_new s') (nx p) (y + 1) +
                   cell p (u_new s') (nx p) (y - 1)))%float) /\
    inbox s' = rest.
Proof.
  intros Hfits Hnx Hny Hranked Hs Hr1 Hr2 Hin.
  exact (iteration_update_ranked p Hfits Hnx Hny Hranked it s r1 r2 v rest
           Hs Hr1 Hr2 Hin).
Qed.

Lemma seam_row_uses_previous_halo_witness :
  exists s',
    time_step true p_mid 0 s_mid = (Done tt, s') /\
    (forall x y, in_region p_mid x y -> x < nx p_mid \/ rank p_mid = nranks p_mid - 1 ->
       cell p_mid (u_old s') x y = update p_mid (u_new s') x y) /\
    (rank p_mid < nranks p_mid - 1 ->
     row p_mid (u_new s') (nx p_mid + 1) = replicate 6 3%float /\
     forall y, 1 <= y <= ny p_mid - 2 ->
       cell p_mid (u_old s') (nx p_mid) y =
       ((1 - 4 * gamma p_mid) * cell p_mid (u_new s') (nx p_mid) y +
        gamma p_mid * (cell p_mid (u_old s_mid) (nx p_mid + 1) y +
                       cell p_mid (u_new s') (nx p_mid - 1) y +
                       cell p_mid (u_new s') (nx p_mid) (y + 1) +
                       cell p_mid (u_new s') (nx p_mid) (y - 1)))%float) /\
    inbox s' = [].
Proof.
  apply (seam_row_uses_previous_halo p_mid 0 s_mid
           (replicate 6 2%float) (replicate 6 3%float) 0%float []).
  - unfold fits, extent, LONG_MAX. cbn. lia.
  - cbn. lia.
  - unfold INT_MAX. cbn. lia.
  - unfold ranked, INT_MAX. cbn. lia.
  - split; reflexivity.
  - cbn. lia.
  - reflexivity.
  - reflexivity.
Defined.

(** ** What an iteration never does *)

Lemma emits_stencil_grid_kernels
      (NDEBUG : bool) (P : event -> Prop) (g : grid) (p : parameters) :
  (forall x y, P (EvKernel x y)) -> emits P (stencil_grid NDEBUG g p).
Proof.
  intros H. unfold stencil_grid. destruct (_ <? 0); [apply emits_raise |].
  apply emits_transform_reduce. intros i _.
  destruct (split _ _ _ i) as [x y]. apply emits_stencil, H.
Qed.



Lemma emits_time_loop (NDEBUG : bool) (P : Z -> event -> Prop) (p : parameters)
      (its : list Z) :
  (forall it, emits (P it) (time_step NDEBUG p it)) ->
  emits (fun e => exists it, it ∈ its /\ P it e) (time_loop NDEBUG p its).
Proof.
  intros H. induction its as [| it its IH]; cbn [time_loop].
  - apply emits_ret.
  - apply emits_bind.
    + eapply emits_impl; [| apply H]. intros e He. exists it. split; [left | exact He].
    + intros _. eapply emits_impl; [| apply IH].
      intros e (it' & Hin & He). exists it'. split; [right; exact Hin | exact He].
Qed.

Lemma emits_time_step_messages (NDEBUG : bool) (p : parameters) (it : Z) :
  ranked p -> emits (neighbour_message p) (time_step NDEBUG p it).
Proof.
  intros [Hr Hn]. unfold time_step.
  apply emits_bind; [| intros e1; apply emits_bind; [| intros e2; apply emits_bind]].
  - unfold prev_boundary. apply emits_bind.
    + destruct (rank p >? 0) eqn:E; [| apply emits_ret]. cbn [when].
      rewrite isub_exact by (unfold INT_MAX in *; lia).
      apply emits_bind; [| intros _].
      * apply emits_mpi_send_old. intros data. left. lia.
      * apply emits_mpi_recv_old. intros data. left. lia.
    + intros _. apply emits_stencil_grid_kernels. intros x y. exact I.
  - unfold next_boundary. apply emits_bind.
    + rewrite isub_exact by (unfold INT_MAX in *; lia).
      destruct (rank p <? nranks p - 1) eqn:E; [| apply emits_ret]. cbn [when].
      rewrite iadd_exact by (unfold INT_MAX in *; lia).
      apply emits_bind; [| intros _].
      * apply emits_mpi_recv_old. intros data. right. lia.
      * apply emits_mpi_send_old. intros data. right. lia.
    + intros _. apply emits_stencil_grid_kernels. intros x y. exact I.
  - apply emits_stencil_grid_kernels. intros x y. exact I.
  - intros e3. eapply emits_impl; [| apply emits_closing].
    intros e [[v ->] | [(t & v & ->) | ->]]; exact I.
Qed.

(** X11.  Whatever the build, the state and the outcome, the messages of
    the time loop go to, and come from, ranks that exist and are next to
    this one: a row is sent to the rank below with tag 0 and to the rank
    above with tag 1, and received from the rank below with tag 1 and from
    the rank above with tag 0; the first rank exchanges nothing downwards
    and the last rank nothing upwards. *)
Theorem messages_stay_between_neighbours
        (NDEBUG : bool) (p : parameters) (its : list Z) :
  ranked p -> emits (neighbour_message p) (time_loop NDEBUG p its).
Proof.
  intros Hr.
  eapply emits_impl;
    [| apply (emits_time_loop NDEBUG (fun _ => neighbour_message p));
       intros it; apply emits_time_step_messages, Hr].
  intros e (it & _ & He). exact He.
Qed.

Lemma messages_stay_between_neighbours_witness :
  emits (neighbour_message p_mid) (time_loop false p_mid (seqZ 0 2)).
Proof.
  apply (messages_stay_between_neighbours false p_mid (seqZ 0 2)).
  unfold ranked, INT_MAX. cbn. lia.
Defined.


(** ** The output file *)

Lemma uwrap64_small (z : Z) : 0 <= z < 2 ^ 64 -> uwrap64 z = z.
Proof. intros H. unfold uwrap64. apply Z.mod_small. exact H. Qed.

Lemma wrap32_small (z : Z) : - 2 ^ 31 <= z <= INT_MAX -> wrap32 z = z.
Proof. unfold INT_MAX, wrap32. intros H. rewrite Z.mod_small; lia. Qed.

Section Output.

Variable p : parameters.
Hypothesis Hfits : fits p.
Hypothesis Hranked : ranked p.
Hypothesis Hwritable : writable p.

Lemma local_rows_window (u : buf) :
  Z.of_nat (length u) = extent p ->
  take (Z.to_nat (nx p * ny p)) (drop (Z.to_nat (ny p)) u) = local_rows p u.
Proof.
  intros Hl. destruct Hfits as (Hnx & Hny & _). unfold extent in Hl.
  unfold local_rows. rewrite <- flat_cells by (cbn; lia).
  cbn [x_start x_end y_start y_end].
  replace (nx p + 1 - 1) with (nx p) by lia. replace (ny p - 0) with (ny p) by lia.
  rewrite <- list_fmap_compose.
  apply list_eq. intros i. rewrite list_lookup_fmap.
  assert (0 <= nx p * ny p) by nia.
  destruct (Z_lt_le_dec (Z.of_nat i) (nx p * ny p)) as [Hi | Hi].
  - rewrite lookup_take_lt by lia. rewrite lookup_drop.
    rewrite lookup_seqZ_lt by lia. cbn [fmap option_fmap option_map compose fst snd].
    unfold cell, pos.
    pose proof (Z.div_mod (Z.of_nat i) (ny p) ltac:(lia)) as Hdm.
    replace (Z.to_nat (((0 + Z.of_nat i) / ny p + 1) * ny p + ((0 + Z.of_nat i) mod ny p + 0)))
      with (Z.to_nat (ny p) + i)%nat by (rewrite Z.add_0_l; nia).
    destruct (lookup_lt_is_Some_2 u (Z.to_nat (ny p) + i)) as [v ->]; [nia |].
    reflexivity.
  - rewrite lookup_take_ge by lia. rewrite lookup_seqZ_ge by lia. reflexivity.
Qed.

Lemma write_output_run (s : proc) :
  sized p s ->
  write_output p s =
  (Done tt,
   mk_proc (u_new s) (u_old s) (inbox s)
     (trace s ++ output_events p (u_new s))).
Proof.
  intros [Hn Ho]. pose proof Hfits as (Hnx & Hny & Hext).
  destruct Hranked as [Hr Hnr]. destruct Hwritable as [Hc Hb].
  unfold extent in *. unfold LONG_MAX, INT_MAX in *.
  assert (0 <= nx p * ny p) by nia.
  assert (0 <= rank p * (8 * (nx p * ny p)) <= 8 * (nx p * ny p) * nranks p) by nia.
  unfold write_output, sizeof_long, sizeof_double.
  rewrite (lmul_exact (nx p) (ny p)) by (unfold is_long, LONG_MIN, LONG_MAX; lia).
  rewrite (uwrap64_small (2 * 8 + 8)) by lia.
  rewrite (uwrap64_small (nx p * ny p * 8)) by lia.
  rewrite (uwrap64_small (nx p * ny p * 8 * nranks p)) by lia.
  rewrite (uwrap64_small (2 * 8 + 8 + _)) by lia.
  rewrite (uwrap64_small (rank p * _)) by lia.
  rewrite (uwrap64_small (2 * 8 + 8 + _)) by lia.
  rewrite !wrap64_small by (unfold is_long, LONG_MIN, LONG_MAX; lia).
  rewrite wrap32_small by (unfold INT_MAX; lia).
  rewrite (lmul_exact (nx p) (nranks p)) by (unfold is_long, LONG_MIN, LONG_MAX; nia).
  unfold bind at 1. unfold log at 1. unfold bind at 1. unfold log at 1.
  cbn [u_new u_old inbox trace]. unfold bind at 1.
  assert (forall s0 : proc,
            Z.of_nat (length (u_new s0)) = (nx p + 2) * ny p ->
            (let* _ := file_write_new (2 * 8 + 8 + rank p * (nx p * ny p * 8))
                         (ny p) (nx p * ny p) in log EvFileClose) s0 =
            (Done tt,
             mk_proc (u_new s0) (u_old s0) (inbox s0)
               (trace s0 ++
                [EvFileWriteAt (24 + rank p * (8 * (nx p * ny p)))
                   (Doubles (local_rows p (u_new s0))); EvFileClose]))) as Hblock.
  { intros s0 Hl. unfold bind, file_write_new.
    assert ((nx p * ny p <? 0) = false) as -> by lia.
    assert ((0 <=? ny p) && (ny p + nx p * ny p <=? Z.of_nat (length (u_new s0))) = true)
      as -> by lia.
    unfold log. cbn [u_new u_old inbox trace].
    rewrite local_rows_window by exact Hl.
    rewrite <- app_assoc. cbn [app].
    replace (2 * 8 + 8 + rank p * (nx p * ny p * 8))
      with (24 + rank p * (8 * (nx p * ny p))) by lia.
    reflexivity. }
  unfold output_events, nit.
  destruct (rank p =? 0) eqn:E0; cbn [when].
  - unfold bind at 1. unfold log at 1. unfold log at 1.
    cbn [u_new u_old inbox trace].
    rewrite Hblock by exact Hn. cbn [u_new u_old inbox trace].
    rewrite <- !app_assoc. cbn [app].
    replace (2 * 8 + 8 + nx p * ny p * 8 * nranks p)
      with (24 + 8 * (nx p * ny p) * nranks p) by lia.
    reflexivity.
  - cbn [ret]. rewrite Hblock by exact Hn. cbn [u_new u_old inbox trace].
    rewrite <- !app_assoc. cbn [app].
    replace (2 * 8 + 8 + nx p * ny p * 8 * nranks p)
      with (24 + 8 * (nx p * ny p) * nranks p) by lia.
    reflexivity.
Qed.

End Output.

(** X13.  On every rank, when the byte counts fit their types,
    [write_output] opens the file, sets its size to the 24 bytes of the
    header plus [8 * nx * ny] bytes per rank, writes at the byte offset
    [24 + rank * 8 * nx * ny] the [nx * ny] values of the local rows
    [1 .. nx] of the buffer behind [u_new], row by row with the edge
    columns and without the halo rows, and closes the file; the root
    alone also writes the header: the global sizes [nx * nranks] and [ny]
    at the offset 0 and the time [ni * dt] at the offset 16.  The buffers
    are left as they are. *)
Theorem output_layout (p : parameters) (s : proc) :
  fits p -> ranked p -> writable p -> sized p s ->
  exists s',
    write_output p s = (Done tt, s') /\
    trace s' = trace s ++ output_events p (u_new s) /\
    Z.of_nat (length (local_rows p (u_new s))) = nx p * ny p /\
    u_new s' = u_new s /\ u_old s' = u_old s /\ inbox s' = inbox s.
Proof.
  intros Hfits Hranked Hw Hs. eexists.
  split; [apply write_output_run; assumption |].
  cbn [u_new u_old inbox trace]. repeat split.
  rewrite <- (local_rows_window p Hfits) by apply Hs.
  destruct Hfits as (Hnx & Hny & _). destruct Hs as [Hn _]. unfold extent in Hn.
  rewrite length_take, length_drop. nia.
Qed.

Lemma output_layout_witness :
  exists s',
    write_output p_mid s_mid = (Done tt, s') /\
    trace s' = trace s_mid ++ output_events p_mid (u_new s_mid) /\
    Z.of_nat (length (local_rows p_mid (u_new s_mid))) = nx p_mid * ny p_mid /\
    u_new s' = u_new s_mid /\ u_old s' = u_old s_mid /\ inbox s' = inbox s_mid.
Proof.
  apply (output_layout p_mid s_mid).
  - unfold fits, extent, LONG_MAX. cbn. lia.
  - unfold ranked, INT_MAX. cbn. lia.
  - unfold writable, INT_MAX, LONG_MAX. cbn. lia.
  - split; reflexivity.
Defined.

(** ** The whole program *)

Lemma initialize_run (n : Z) (s : proc) :
  n <= Z.of_nat (length (u_new s)) ->
  exists u,
    initialize n s = (Done tt, mk_proc u (u_old s) (inbox s) (trace s)) /\
    length u = length (u_new s).
Proof.
  intros Hn.
  destruct (fill_n_run (u_new s) n 0%float Hn) as (u1 & E1 & L1 & _).
  destruct (fill_n_run u1 n 0%float ltac:(lia)) as (u2 & E2 & L2 & _).
  exists u2. unfold initialize, bind, fill_n_new. rewrite E1.
  cbn [u_new u_old inbox trace]. rewrite E2. split; [reflexivity | congruence].
Qed.

(** [main] up to the time loop. *)
Lemma main_setup (NDEBUG : bool) (w : world) (vx vy vi : Z) :
  reads w vx vy vi -> thread_level w = MPI_THREAD_MULTIPLE ->
  fits (parameters_of vx vy vi (comm_rank w) (comm_size w)) ->
  let p := parameters_of vx vy vi (comm_rank w) (comm_size w) in
  exists s0,
    sized p s0 /\ inbox s0 = incoming w /\ trace s0 = [] /\
    main NDEBUG w =
    (let* _ := time_loop NDEBUG p (seqZ 0 (nit p)) in
     let* _ := when (rank p =? 0) (log EvThroughput) in
     let* _ := write_output p in
     ret 0) s0.
Proof.
  intros (Hlen & E1 & E2 & E3) Hth Hfits p.
  pose proof Hfits as (Hnx & Hny & Hext). unfold extent, LONG_MAX in Hext.
  cbn [parameters_of nx ny] in Hnx, Hny, Hext.
  assert (vx + 2 <= (vx + 2) * vy) by nia.
  unfold main, main_body. unfold bind at 1.
  rewrite (ctor_constructs _ _ vx vy vi Hlen E1 E2 E3).
  unfold bind at 1. rewrite Hth. cbn [Z.eqb MPI_THREAD_MULTIPLE Pos.eqb negb when ret].
  cbn [dx dt nx ny ni]. fold (parameters_of vx vy vi (comm_rank w) (comm_size w)).
  fold p.
  rewrite (ladd_exact vx 2), (lmul_exact (vx + 2) vy)
    by (unfold is_long, LONG_MIN, LONG_MAX; lia).
  unfold bind at 1. unfold allocate.
  assert (((vx + 2) * vy <? 0) = false) as -> by lia.
  cbn [inbox trace]. unfold bind at 1.
  destruct (initialize_run ((vx + 2) * vy)
              (mk_proc (replicate (Z.to_nat ((vx + 2) * vy)) 0%float)
                 (replicate (Z.to_nat ((vx + 2) * vy)) 0%float) (incoming w) []))
    as (u & -> & Hu).
  { cbn [u_new]. rewrite length_replicate. lia. }
  cbn [u_new u_old inbox trace] in *. rewrite length_replicate in Hu.
  eexists. split; [| split; [| split; [| reflexivity]]]; cbn [u_new u_old inbox trace].
  - split; cbn [u_new u_old]; unfold extent; cbn [p parameters_of nx ny];
      rewrite ?length_replicate; lia.
  - reflexivity.
  - reflexivity.
Qed.

Lemma swaps_app (t1 t2 : list event) : swaps (t1 ++ t2) = swaps t1 ++ swaps t2.
Proof. apply List.filter_app. Qed.

Lemma main_single (w : world) (vx vy vi : Z) :
  reads w vx vy vi -> thread_level w = MPI_THREAD_MULTIPLE ->
  comm_size w = 1 -> comm_rank w = 0 ->
  2 <= vx -> 2 <= vy -> vx * vy <= INT_MAX ->
  let p := parameters_of vx vy vi 0 1 in
  exists s' t,
    main true w = (Done 0, s') /\
    trace s' = t ++ [EvThroughput] ++ output_events p (u_new s') /\
    swaps (trace s') = replicate (Z.to_nat vi) EvSwap /\
    inbox s' = incoming w /\ sized p s' /\
    (0 < vi -> forall x y, in_region p x y ->
       cell p (u_old s') x y = update p (u_new s') x y).
Proof.
  intros Hreads Hth Hsize Hrank Hvx Hvy Hint p. unfold INT_MAX in Hint.
  assert (fits p) as Hfits.
  { unfold fits, extent, LONG_MAX. cbn [p parameters_of nx ny]. nia. }
  destruct (main_setup true w vx vy vi Hreads Hth) as (s0 & Hs0 & Hib0 & Htr0 & ->);
    rewrite Hsize, Hrank; [exact Hfits |]. fold p.
  destruct (time_loop_single p Hfits Hvx Hvy eq_refl eq_refl (seqZ 0 (nit p)) s0 Hs0)
    as (s1 & Hrun & Hs1 & Hib1 & Hsw1 & Hlast).
  unfold bind at 1. rewrite Hrun.
  unfold bind at 1. cbn [p parameters_of rank Z.eqb when]. fold p.
  unfold log at 1. unfold bind at 1.
  rewrite write_output_run; [| exact Hfits | | | split; apply Hs1].
  - cbn [u_new u_old inbox trace ret].
    exists (mk_proc (u_new s1) (u_old s1) (inbox s1)
              ((trace s1 ++ [EvThroughput]) ++ output_events p (u_new s1))),
      (trace s1).
    split; [reflexivity |]. cbn [u_new u_old inbox trace].
    split; [rewrite <- app_assoc; reflexivity |].
    split; [| split; [congruence | split; [split; apply Hs1 |]]].
    2: { intros Hvi. apply Hlast. unfold nit. cbn [p parameters_of ni].
         rewrite seqZ_cons by lia. discriminate. }
    rewrite !swaps_app. fold (swaps (trace s1)) (swaps (trace s0)) in Hsw1.
    rewrite Hsw1, Htr0, length_seqZ. cbn [swaps List.filter app].
    unfold output_events. cbn [p parameters_of rank Z.eqb app List.filter].
    rewrite !app_nil_r. reflexivity.
  - unfold ranked, INT_MAX. cbn [p parameters_of rank nranks]. lia.
  - unfold writable, INT_MAX, LONG_MAX. cbn [p parameters_of nx ny nranks]. nia.
Qed.

(** X14.  On a single process, with the assertions compiled out, the run
    [heat vx vy vi] with [vx >= 2], [vy >= 2] and [vx * vy] within [int]
    ends with the exit status 0: nothing faults and no message is awaited.
    The buffers are swapped [vi] times (never when [vi <= 0]), and the run
    closes with the throughput line and the output file: the header with
    the sizes [vx] and [vy] and the time [vi * dt], and at the offset 24
    the [vx * vy] values of the local rows of the buffer behind [u_new].
    When [vi >= 1] the buffer behind [u_old] holds at every interior cell
    the 5-point update read from the buffer behind [u_new]: the block
    written is the field the last iteration read, not the one it
    produced. *)
Theorem single_process_run_succeeds (w : world) (vx vy vi : Z) :
  reads w vx vy vi -> thread_level w = MPI_THREAD_MULTIPLE ->
  comm_size w = 1 -> comm_rank w = 0 ->
  2 <= vx -> 2 <= vy -> vx * vy <= INT_MAX ->
  exists s' t,
    main true w = (Done 0, s') /\
    trace s' =
      t ++ [EvThroughput; EvFileOpen; EvFileSetSize (24 + 8 * (vx * vy));
            EvFileWriteAt 0 (Longs [vx; vy]);
            EvFileWriteAt 16
              (Doubles [(of_long vi * dt (parameters_of vx vy vi 0 1))%float]);
            EvFileWriteAt 24
              (Doubles (local_rows (parameters_of vx vy vi 0 1) (u_new s')));
            EvFileClose] /\
    swaps (trace s') = replicate (Z.to_nat vi) EvSwap /\
    inbox s' = incoming w /\
    (0 < vi -> forall x y, in_region (parameters_of vx vy vi 0 1) x y ->
       cell (parameters_of vx vy vi 0 1) (u_old s') x y =
       update (parameters_of vx vy vi 0 1) (u_new s') x y).
Proof.
  intros Hreads Hth Hsize Hrank Hvx Hvy Hint.
  destruct (main_single w vx vy vi Hreads Hth Hsize Hrank Hvx Hvy Hint)
    as (s' & t & Hrun & Htr & Hsw & Hib & _ & Hlast).
  exists s', t. split; [exact Hrun |].
  split; [| split; [| split]; assumption].
  rewrite Htr. unfold output_events.
  cbn [parameters_of nx ny ni rank nranks Z.eqb app].
  rewrite !Z.mul_1_r, Z.add_0_r. reflexivity.
Qed.

Lemma single_process_run_succeeds_witness :
  exists s' t,
    main true w46 = (Done 0, s') /\
    trace s' =
      t ++ [EvThroughput; EvFileOpen; EvFileSetSize (24 + 8 * (4 * 6));
            EvFileWriteAt 0 (Longs [4; 6]);
            EvFileWriteAt 16
              (Doubles [(of_long 1 * dt (parameters_of 4 6 1 0 1))%float]);
            EvFileWriteAt 24
              (Doubles (local_rows (parameters_of 4 6 1 0 1) (u_new s')));
            EvFileClose] /\
    swaps (trace s') = replicate (Z.to_nat 1) EvSwap /\
    inbox s' = incoming w46 /\
    (0 < 1 -> forall x y, in_region (parameters_of 4 6 1 0 1) x y ->
       cell (parameters_of 4 6 1 0 1) (u_old s') x y =
       update (parameters_of 4 6 1 0 1) (u_new s') x y).
Proof.
  apply (single_process_run_succeeds w46 4 6 1).
  - repeat split; reflexivity.
  - reflexivity.
  - reflexivity.
  - reflexivity.
  - lia.
  - lia.
  - unfold INT_MAX. lia.
Defined.

(** ** Startup failures and degenerate sizes *)

(** X15.  Whatever the build, when the command line is well formed but MPI
    grants a thread level other than [MPI_THREAD_MULTIPLE], [main] writes
    the line "MPI cannot be called from multiple host threads" to the error
    stream and terminates: nothing is allocated, computed or written to the
    file, and no message is taken. *)
Theorem thread_level_is_required (NDEBUG : bool) (w : world) (vx vy vi : Z) :
  reads w vx vy vi -> thread_level w <> MPI_THREAD_MULTIPLE ->
  main NDEBUG w =
  (Fault Terminated,
   mk_proc [] [] (incoming w)
     [EvCerr "MPI cannot be called from multiple host threads"]).
Proof.
  intros (Hlen & E1 & E2 & E3) Hth. unfold main, main_body. unfold bind at 1.
  rewrite (ctor_constructs _ _ vx vy vi Hlen E1 E2 E3).
  unfold bind at 1.
  assert ((thread_level w =? MPI_THREAD_MULTIPLE) = false) as -> by lia.
  reflexivity.
Qed.

Lemma thread_level_is_required_witness :
  main false (mk_world ["heat"; "4"; "6"; "1"]%string 1 1 0 []) =
  (Fault Terminated,
   mk_proc [] [] [] [EvCerr "MPI cannot be called from multiple host threads"]).
Proof.
  apply (thread_level_is_required false
           (mk_world ["heat"; "4"; "6"; "1"]%string 1 1 0 []) 4 6 1).
  - repeat split; reflexivity.
  - unfold MPI_THREAD_MULTIPLE. cbn. lia.
Defined.



(** X17.  Sizes the constructor accepts but the regions do not support.
    Whatever the build and the state: with fewer than two columns the first
    region evaluation of an iteration, in [prev_boundary] on the first
    rank, is asked for a negative number of cells, before any kernel
    invocation; and with a single local row and at least three columns
    [internal] is, its region running from the row 2 to the row [nx = 1].
    In both cases [views::iota(0, n)] is built with [n < 0]. *)
Theorem degenerate_sizes_violate_range (NDEBUG : bool) (p : parameters) (s : proc) :
  is_long (nx p + 1) -> is_long (ny p) -> is_long (ny p - 2) ->
  (ny p < 2 -> rank p <= 0 ->
   prev_boundary NDEBUG p s = (Fault RangeViolation, s)) /\
  (nx p = 1 -> 3 <= ny p ->
   internal NDEBUG p s = (Fault RangeViolation, s)).
Proof.
  unfold is_long, LONG_MIN, LONG_MAX. intros Lx Ly Ly2. split.
  - intros Hny Hr. unfold prev_boundary. unfold bind at 1.
    assert ((rank p >? 0) = false) as -> by lia. cbn [when ret].
    unfold stencil_grid. cbn [x_start x_end y_start y_end].
    rewrite (ladd_exact (nx p) 1), (lsub_exact (ny p) 1)
      by (unfold is_long, LONG_MIN, LONG_MAX; lia).
    rewrite (lsub_exact (nx p + 1) (nx p)), (lsub_exact (ny p - 1) 1)
      by (unfold is_long, LONG_MIN, LONG_MAX; lia).
    rewrite lmul_exact by (unfold is_long, LONG_MIN, LONG_MAX; lia).
    assert (((nx p + 1 - nx p) * (ny p - 1 - 1) <? 0) = true) as -> by lia.
    reflexivity.
  - intros Hnx Hny. unfold internal, stencil_grid. cbn [x_start x_end y_start y_end].
    rewrite Hnx.
    rewrite (lsub_exact (ny p) 1), (lsub_exact 1 2)
      by (unfold is_long, LONG_MIN, LONG_MAX; lia).
    rewrite (lsub_exact (ny p - 1) 1) by (unfold is_long, LONG_MIN, LONG_MAX; lia).
    rewrite lmul_exact by (unfold is_long, LONG_MIN, LONG_MAX; lia).
    assert (((1 - 2) * (ny p - 1 - 1) <? 0) = true) as -> by lia.
    reflexivity.
Qed.

Lemma degenerate_sizes_violate_range_witness :
  prev_boundary true (parameters_of 4 1 1 0 1)
    (mk_proc (replicate 6 0%float) (replicate 6 0%float) [] []) =
  (Fault RangeViolation, mk_proc (replicate 6 0%float) (replicate 6 0%float) [] []) /\
  internal true (parameters_of 1 5 1 0 1)
    (mk_proc (replicate 15 0%float) (replicate 15 0%float) [] []) =
  (Fault RangeViolation, mk_proc (replicate 15 0%float) (replicate 15 0%float) [] []).
Proof.
  split.
  - destruct (degenerate_sizes_violate_range true (parameters_of 4 1 1 0 1)
                (mk_proc (replicate 6 0%float) (replicate 6 0%float) [] []))
      as [H _];
      try (unfold is_long, LONG_MIN, LONG_MAX; cbn [parameters_of nx ny]; lia).
    apply H; cbn [parameters_of ny rank]; lia.
  - destruct (degenerate_sizes_violate_range true (parameters_of 1 5 1 0 1)
                (mk_proc (replicate 15 0%float) (replicate 15 0%float) [] []))
      as [_ H];
      try (unfold is_long, LONG_MIN, LONG_MAX; cbn [parameters_of nx ny]; lia).
    apply H; cbn [parameters_of nx ny]; lia.
Defined.

Section OutOfBounds.

Context {A B : Type}.



End OutOfBounds.








